(** * own-stl: the doubly-linked list of [list.hpp] and the stack adapter of
    [stack.hpp], as state-passing programs over an explicit node store.

    Nodes live in a store addressed by pointers; [NULL] is [None].  Every
    method of the headers becomes a computation in a small state-and-error
    monad: dereferencing [NULL] or a deleted node is [Undefined], the
    [std::out_of_range] of [List::at] is [OutOfRange], and the loops of the
    headers, which run until a pointer becomes [NULL], take a bound on the
    number of iterations and answer [OutOfFuel] when it is exhausted. *)

From stdpp Require Import gmap list.
From Stdlib Require Import ZArith Lia Ascii.

Local Open Scope Z_scope.

(** ** Unsigned sizes *)

(** [typedef std::size_t usize]: 64 bits, arithmetic wraps around. *)
Definition usize_modulus : Z := 2 ^ 64.

Definition wrap (z : Z) : Z := z mod usize_modulus.

(** [const usize NO_POS = -1]. *)
Definition NO_POS : Z := wrap (-1).

(** ** Outcomes and the store monad *)

Inductive outcome (A : Type) : Type :=
| Ok (a : A)
| OutOfRange
| Undefined
| OutOfFuel.

Arguments Ok {A} a.
Arguments OutOfRange {A}.
Arguments Undefined {A}.
Arguments OutOfFuel {A}.

Definition M (S A : Type) : Type := S → outcome (A * S).

Definition ret {S A} (a : A) : M S A := λ s, Ok (a, s).

Definition bind {S A B} (m : M S A) (k : A → M S B) : M S B :=
  λ s, match m s with
       | Ok (a, s') => k a s'
       | OutOfRange => OutOfRange
       | Undefined => Undefined
       | OutOfFuel => OutOfFuel
       end.

Definition throw_out_of_range {S A} : M S A := λ _, OutOfRange.
Definition undefined {S A} : M S A := λ _, Undefined.
Definition out_of_fuel {S A} : M S A := λ _, OutOfFuel.

#[global] Instance M_ret {S} : MRet (M S) := λ A, ret.
#[global] Instance M_bind {S} : MBind (M S) := λ A B k m, bind m k.

(** Two stores side by side: a computation on one of them leaves the other
    as it is.  The nodes of a list of another element type live in a store
    of their own. *)
Definition on_fst {S1 S2 A} (m : M S1 A) : M (S1 * S2) A :=
  λ s, match m s.1 with
       | Ok (a, s1) => Ok (a, (s1, s.2))
       | OutOfRange => OutOfRange
       | Undefined => Undefined
       | OutOfFuel => OutOfFuel
       end.

Definition on_snd {S1 S2 A} (m : M S2 A) : M (S1 * S2) A :=
  λ s, match m s.2 with
       | Ok (a, s2) => Ok (a, (s.1, s2))
       | OutOfRange => OutOfRange
       | Undefined => Undefined
       | OutOfFuel => OutOfFuel
       end.

(** Pointers: an address, or [NULL]. *)
Definition addr : Type := positive.
Definition ptr : Type := option addr.

(** ** namespace own::details: class Node *)
Module details.

Record Node (T : Type) : Type := mkNode {
  _value : T;
  _back : ptr;
  _next : ptr;
}.
Arguments mkNode {T} _ _ _.
Arguments _value {T} _.
Arguments _back {T} _.
Arguments _next {T} _.

Section node.
Context {T : Type}.

Abbreviation store := (gmap positive (Node T)).

(** Reading and writing the object a pointer designates. *)
Definition load (p : addr) : M store (Node T) :=
  λ h, match h !! p with Some n => Ok (n, h) | None => Undefined end.

Definition write (p : addr) (n : Node T) : M store unit :=
  λ h, match h !! p with Some _ => Ok (tt, <[p := n]> h) | None => Undefined end.

(** [*p] for a pointer that may be [NULL]. *)
Definition deref (p : ptr) : M store addr :=
  match p with Some a => ret a | None => undefined end.

(** The allocator hands out an address that is not in use. *)
Definition unused (h : store) : addr := fresh (dom h).

(** [new Node<T>(value, back, next)]. *)
Definition new (value : T) (back next : ptr) : M store addr :=
  λ h, let a := unused h in Ok (a, <[a := mkNode value back next]> h).

(** [delete p]. *)
Definition free (p : addr) : M store unit :=
  λ h, match h !! p with Some _ => Ok (tt, delete p h) | None => Undefined end.

Definition value (this : addr) : M store T := n ← load this; ret (_value n).
Definition back (this : addr) : M store ptr := n ← load this; ret (_back n).
Definition next (this : addr) : M store ptr := n ← load this; ret (_next n).

Definition setBack (this : addr) (node : ptr) : M store unit :=
  n ← load this; write this (mkNode (_value n) node (_next n)).

Definition setNext (this : addr) (node : ptr) : M store unit :=
  n ← load this; write this (mkNode (_value n) (_back n) node).

(** [std::swap(this->_next, this->_back)]. *)
Definition reverse (this : addr) : M store unit :=
  n ← load this; write this (mkNode (_value n) (_next n) (_back n)).

Definition unlink (this : addr) : M store unit :=
  b ← back this;
  match b with
  | Some b' => nx ← next this; setNext b' nx
  | None => ret tt
  end;;
  nx ← next this;
  match nx with
  | Some nx' => b ← back this; setBack nx' b
  | None => ret tt
  end;;
  setBack this None;;
  setNext this None.

Definition linkNext (this : addr) (next_ : ptr) : M store unit :=
  match next_ with
  | None => ret tt
  | Some nx =>
      if decide (nx = this) then ret tt
      else
        unlink nx;;
        tn ← next this;
        match tn with
        | Some _ =>
            tn1 ← next this;
            setNext nx tn1;;
            tn2 ← next this;
            x ← deref tn2;
            setBack x (Some nx)
        | None => ret tt
        end;;
        setBack nx (Some this);;
        setNext this (Some nx)
  end.

Definition linkBack (this : addr) (back_ : ptr) : M store unit :=
  match back_ with
  | None => ret tt
  | Some bk =>
      if decide (bk = this) then ret tt
      else
        unlink bk;;
        tb ← back this;
        match tb with
        | Some _ =>
            tb1 ← back this;
            setBack bk tb1;;
            tb2 ← back this;
            x ← deref tb2;
            setNext x (Some bk)
        | None => ret tt
        end;;
        setNext bk (Some this);;
        setBack this (Some bk)
  end.

(** [operator+(usize at)]: [for (; at > 0; at--) it = it->_next]. *)
Fixpoint advance_loop (n : nat) (it : ptr) : M store ptr :=
  match n with
  | O => ret it
  | S n' => a ← deref it; nx ← next a; advance_loop n' nx
  end.

Definition advance (this : addr) (at_ : Z) : M store ptr :=
  advance_loop (Z.to_nat at_) (Some this).

(** [operator-(usize at)]: [for (; at > 0; at--) it = it->_back]. *)
Fixpoint retreat_loop (n : nat) (it : ptr) : M store ptr :=
  match n with
  | O => ret it
  | S n' => a ← deref it; bk ← back a; retreat_loop n' bk
  end.

Definition retreat (this : addr) (at_ : Z) : M store ptr :=
  retreat_loop (Z.to_nat at_) (Some this).

(** An assignment through the reference that the non-const [value()]
    returns. *)
Definition assignValue (this : addr) (v : T) : M store unit :=
  n ← load this; write this (mkNode v (_back n) (_next n)).

End node.
End details.


(** ** namespace own: class List *)
Module OwnList.
Import details.

Record List : Type := mkList {
  _len : Z;
  head : ptr;
  tail : ptr;
}.

Section list.
Context {T : Type}.

Abbreviation store := (gmap positive (Node T)).

(** [List()]. *)
Definition List_new : List := mkList 0 None None.

Definition empty (this : List) : bool := _len this =? 0.

Definition len (this : List) : Z := _len this.

Definition front (this : List) : M store T := a ← deref (head this); value a.

Definition back (this : List) : M store T := a ← deref (tail this); value a.

Definition atNode (this : List) (at_ : Z) : M store ptr :=
  if at_ =? 0 then mret (head this)
  else if at_ =? wrap (_len this - 1) then mret (tail this)
  else if at_ <=? _len this / 2 then
    h ← deref (head this); advance h at_
  else
    t ← deref (tail this); retreat t (wrap (wrap (_len this - at_) - 1)).

Definition at_ (this : List) (at_ : Z) : M store T :=
  if at_ >=? _len this then throw_out_of_range
  else node ← atNode this at_; a ← deref node; value a.

Definition pushFront (this : List) (v : T) : M store List :=
  node ← new v None (head this);
  this1 ← match head this with
          | Some h => setBack h (Some node);; mret this
          | None => mret (mkList (_len this) (head this) (Some node))
          end;
  mret (mkList (wrap (_len this1 + 1)) (Some node) (tail this1)).

Definition popFront (this : List) : M store (T * List) :=
  node ← deref (head this);
  v ← value node;
  nx ← next node;
  let this1 := mkList (wrap (_len this - 1)) nx (tail this) in
  let this2 := match head this1 with
               | None => mkList (_len this1) (head this1) None
               | Some _ => this1
               end in
  unlink node;;
  free node;;
  mret (v, this2).

Definition pushBack (this : List) (v : T) : M store List :=
  node ← new v (tail this) None;
  this1 ← match tail this with
          | Some t => setNext t (Some node);; mret this
          | None => mret (mkList (_len this) (Some node) (tail this))
          end;
  mret (mkList (wrap (_len this1 + 1)) (head this1) (Some node)).

Definition popBack (this : List) : M store (T * List) :=
  node ← deref (tail this);
  v ← value node;
  bk ← details.back node;
  let this1 := mkList (wrap (_len this - 1)) (head this) bk in
  let this2 := match tail this1 with
               | None => mkList (_len this1) None (tail this1)
               | Some _ => this1
               end in
  unlink node;;
  free node;;
  mret (v, this2).

(** The private [insert(value, at, backwarded)]. *)
Definition insert (this : List) (v : T) (at_ : Z) (backwarded : bool) : M store List :=
  if (at_ =? 0) && backwarded then pushFront this v
  else if at_ >=? _len this then pushBack this v
  else if (at_ =? wrap (_len this - 1)) && negb backwarded then pushBack this v
  else
    node ← atNode this at_;
    a ← deref node;
    fresh_node ← new v None None;
    (if backwarded then linkBack a (Some fresh_node)
     else linkNext a (Some fresh_node));;
    mret (mkList (wrap (_len this + 1)) (head this) (tail this)).

Definition insertForward (this : List) (v : T) (at_ : Z) : M store List :=
  insert this v at_ false.

Definition insertBackward (this : List) (v : T) (at_ : Z) : M store List :=
  insert this v at_ true.

(** [remove(at)].  Its first two branches call [popFront] / [popBack],
    drop what they return and leave through a bare [return;]: the caller
    gets no value there, which is [None] below. *)
Definition remove (this : List) (at_ : Z) : M store (option T * List) :=
  if at_ =? 0 then
    '(_, this') ← popFront this; mret (None, this')
  else if at_ >=? wrap (_len this - 1) then
    '(_, this') ← popBack this; mret (None, this')
  else
    node ← atNode this at_;
    a ← deref node;
    v ← value a;
    unlink a;;
    free a;;
    mret (Some v, mkList (wrap (_len this - 1)) (head this) (tail this)).

(** [retainIf(filter)].  The header applies [filter] to [*it], with [it] a
    pointer to a node, while the filter is declared on [const T&]: as written
    the call compiles only for an element type that converts from [Node<T>].
    The definition is the method for a filter that is handed the node's
    value, [it->value()], as every other traversal of the class hands it. *)
Fixpoint retainIf_loop (fuel : nat) (filter : T → bool) (this : List) (it : ptr)
  : M store List :=
  match it with
  | None => mret this
  | Some a =>
      match fuel with
      | O => out_of_fuel
      | S fuel' =>
          v ← value a;
          if filter v then
            nx ← next a; retainIf_loop fuel' filter this nx
          else
            let this1 := mkList (wrap (_len this - 1)) (head this) (tail this) in
            nx ← next a;
            let this2 := if decide (Some a = head this1)
                         then mkList (_len this1) nx (tail this1) else this1 in
            let this3 := if decide (Some a = tail this2)
                         then mkList (_len this2) (head this2) nx else this2 in
            unlink a;;
            free a;;
            retainIf_loop fuel' filter this3 nx
      end
  end.

Definition retainIf (fuel : nat) (filter : T → bool) (this : List) : M store (Z * List) :=
  let oldLen := _len this in
  this' ← retainIf_loop fuel filter this (head this);
  mret (wrap (oldLen - _len this'), this').

(** [removeIf(filter)]: the same call of [filter] on [*it], read the same way. *)
Fixpoint removeIf_loop (fuel : nat) (filter : T → bool) (this : List) (it : ptr)
  : M store List :=
  match it with
  | None => mret this
  | Some a =>
      match fuel with
      | O => out_of_fuel
      | S fuel' =>
          v ← value a;
          if filter v then
            let this1 := mkList (wrap (_len this - 1)) (head this) (tail this) in
            nx ← next a;
            unlink a;;
            free a;;
            removeIf_loop fuel' filter this1 nx
          else
            nx ← next a; removeIf_loop fuel' filter this nx
      end
  end.

Definition removeIf (fuel : nat) (filter : T → bool) (this : List) : M store (Z * List) :=
  let oldLen := _len this in
  this' ← removeIf_loop fuel filter this (head this);
  mret (wrap (oldLen - _len this'), this').

(** [swap(other)] on two distinct list objects: the pair (this, other)
    after the call. *)
Definition swap (this other : List) : List * List :=
  (mkList (_len other) (head other) (tail other),
   mkList (_len this) (head this) (tail this)).

(** [append(other)].  The header tests [other.isEmpty()], a member the
    class does not declare, so the method cannot be instantiated as written.
    The definition is the method with that call read as [other.empty()], the
    only emptiness test of the class. *)
Definition append (this other : List) : M store (List * List) :=
  if empty other then mret (this, other)
  else if _len this =? 0 then mret (swap this other)
  else
    let this1 := mkList (wrap (_len this + _len other)) (head this) (tail this) in
    t ← deref (tail this1);
    setNext t (head other);;
    oh ← deref (head other);
    setBack oh (tail this1);;
    mret (mkList (_len this1) (head this1) (tail other), mkList 0 None None).

(** [sliceOff(start, end)] up to its last statement,
    [return extractedList;]: the pair (the local [extractedList], this) at
    that point.  The header never assigns a member of [this].  Its last
    assignment names [extractedList._end], which the class does not declare,
    so the method cannot be instantiated as written; the definition assigns
    [tail], the member that holds the last node.  What the caller receives
    is [sliceOff_by_value] below. *)
Definition sliceOff (this : List) (start end_ : Z) : M store (List * List) :=
  let start := if start >=? _len this then _len this else start in
  let end_ := if end_ >? _len this then _len this else end_ in
  if start >=? end_ then mret (List_new, this)
  else
    startNode ← atNode this start;
    endNode ← atNode this (wrap (end_ - 1));
    s ← deref startNode;
    backNode ← details.back s;
    e ← deref endNode;
    nextNode ← next e;
    match backNode with
    | Some b => setNext b nextNode
    | None => mret tt
    end;;
    match nextNode with
    | Some n => setBack n backNode
    | None => mret tt
    end;;
    setBack s None;;
    setNext e None;;
    mret (mkList (wrap (end_ - start)) startNode endNode, this).

(** [reverse()].  The header tests [this->isEmpty()], a member the class
    does not declare, so the method cannot be instantiated as written.  The
    definition is the method with that call read as [this->empty()].  After
    a node is reversed its [back] is the old [next]. *)
Fixpoint reverse_loop (fuel : nat) (it : ptr) : M store unit :=
  match it with
  | None => mret tt
  | Some a =>
      match fuel with
      | O => out_of_fuel
      | S fuel' =>
          details.reverse a;;
          bk ← details.back a;
          reverse_loop fuel' bk
      end
  end.

Definition reverse (fuel : nat) (this : List) : M store List :=
  if empty this then mret this
  else
    reverse_loop fuel (head this);;
    mret (mkList (_len this) (tail this) (head this)).

Fixpoint clear_loop (fuel : nat) (it : ptr) : M store unit :=
  match it with
  | None => mret tt
  | Some a =>
      match fuel with
      | O => out_of_fuel
      | S fuel' => nx ← next a; free a;; clear_loop fuel' nx
      end
  end.

Definition clear (fuel : nat) (this : List) : M store List :=
  clear_loop fuel (head this);;
  mret (mkList 0 None None).

(** [operator=(other)] for a distinct [other]. *)
Fixpoint assign_loop (fuel : nat) (this : List) (previous it : ptr) : M store (List * ptr) :=
  match it with
  | None => mret (this, previous)
  | Some a =>
      match fuel with
      | O => out_of_fuel
      | S fuel' =>
          v ← value a;
          current ← new v None None;
          this' ← match previous with
                  | Some p =>
                      setBack current previous;;
                      setNext p (Some current);;
                      mret this
                  | None => mret (mkList (_len this) (Some current) (tail this))
                  end;
          nx ← next a;
          assign_loop fuel' this' (Some current) nx
      end
  end.

Definition assign (fuel : nat) (this other : List) : M store List :=
  this0 ← clear fuel this;
  let this1 := mkList (_len other) (head this0) (tail this0) in
  '(this2, previous) ← assign_loop fuel this1 None (head other);
  mret (mkList (_len this2) (head this2) previous).

(** [fold(action, initial)]: the action updates the accumulator it is
    handed by reference. *)
Fixpoint fold_loop {B : Type} (fuel : nat) (action : T → B → B) (initial : B) (it : ptr)
  : M store B :=
  match it with
  | None => mret initial
  | Some a =>
      match fuel with
      | O => out_of_fuel
      | S fuel' =>
          v ← value a;
          nx ← next a;
          fold_loop fuel' action (action v initial) nx
      end
  end.

Definition fold {B : Type} (fuel : nat) (action : T → B → B) (initial : B) (this : List)
  : M store B :=
  fold_loop fuel action initial (head this).

Section search.
Context `{EqDecision T}.

Fixpoint find_loop (fuel : nat) (v : T) (it : ptr) (at_ : Z) : M store Z :=
  match it with
  | None => mret NO_POS
  | Some a =>
      match fuel with
      | O => out_of_fuel
      | S fuel' =>
          x ← value a;
          if decide (x = v) then mret at_
          else nx ← next a; find_loop fuel' v nx (wrap (at_ + 1))
      end
  end.

Definition find (fuel : nat) (this : List) (v : T) (skip : Z) : M store Z :=
  if skip >=? _len this then mret NO_POS
  else
    h ← deref (head this);
    it ← advance h skip;
    find_loop fuel v it skip.

(** [contains(const T&)]. *)
Definition contains_value (fuel : nat) (this : List) (v : T) : M store bool :=
  r ← find fuel this v 0; mret (negb (r =? NO_POS)).

(** [contains(const List<T>&)]; [inner] bounds the loop of each
    [find] it calls. *)
Fixpoint contains_loop (inner fuel : nat) (this : List) (it : ptr) : M store bool :=
  match it with
  | None => mret true
  | Some a =>
      match fuel with
      | O => out_of_fuel
      | S fuel' =>
          v ← value a;
          c ← contains_value inner this v;
          if negb c then mret false
          else nx ← next a; contains_loop inner fuel' this nx
      end
  end.

Definition contains (fuel : nat) (this other : List) : M store bool :=
  contains_loop fuel fuel this (head other).

(** [operator==(other)] for a distinct [other]. *)
Fixpoint equals_loop (fuel : nat) (it otherIt : ptr) : M store bool :=
  match it with
  | None => mret true
  | Some a =>
      match fuel with
      | O => out_of_fuel
      | S fuel' =>
          x ← value a;
          o ← deref otherIt;
          y ← value o;
          if decide (x = y) then
            nx ← next a; onx ← next o; equals_loop fuel' nx onx
          else mret false
      end
  end.

Definition equals (fuel : nat) (this other : List) : M store bool :=
  if negb (_len this =? _len other) then mret false
  else equals_loop fuel (head this) (head other).
End search.

End list.

(** ** class List, continued: copies, traversals and the backward search *)
Section list_more.
Context {T : Type}.

Abbreviation store := (gmap positive (Node T)).

(** [List(const List<T>& other)]: an empty list, then [*this = other]. *)
Definition List_copy (fuel : nat) (other : List) : M store List :=
  assign fuel List_new other.

(** [sliceOff(start, end)] as the caller sees it.  [return extractedList;]
    returns the local by value: the class has a copy constructor and no move
    constructor, and the other [return] of the method has another operand,
    so the result is copy-constructed from the local and the local is then
    destroyed, which deletes the nodes it holds.  The pair (result, this)
    after the call. *)
Definition sliceOff_by_value (fuel : nat) (this : List) (start end_ : Z)
  : M store (List * List) :=
  let start' := if start >=? _len this then _len this else start in
  let end' := if end_ >? _len this then _len this else end_ in
  if start' >=? end' then mret (List_new, this)
  else
    '(extractedList, this') ← sliceOff this start end_;
    result ← List_copy fuel extractedList;
    clear fuel extractedList;;
    mret (result, this').

(** [operator[](at)]: no bounds check. *)
Definition op_subscript (this : List) (at_ : Z) : M store T :=
  node ← atNode this at_; a ← deref node; value a.

(** [forEach(action, ctx)] with an action on [T&] and [Context&]: the
    action may assign to the element and to the context it is handed. *)
Fixpoint forEach_loop {C : Type} (fuel : nat) (action : T → C → T * C) (ctx : C) (it : ptr)
  : M store C :=
  match it with
  | None => mret ctx
  | Some a =>
      match fuel with
      | O => out_of_fuel
      | S fuel' =>
          v ← value a;
          let '(v', ctx') := action v ctx in
          assignValue a v';;
          nx ← next a;
          forEach_loop fuel' action ctx' nx
      end
  end.

Definition forEach {C : Type} (fuel : nat) (action : T → C → T * C) (ctx : C) (this : List)
  : M store C :=
  forEach_loop fuel action ctx (head this).

(** [for (it = other.head; it; it = it->next()) list.pushBack(it->value())],
    the loop of [operator+=] and of [operator+]: [next] is read after the
    push. *)
Fixpoint op_plus_assign_loop (fuel : nat) (this : List) (it : ptr) : M store List :=
  match it with
  | None => mret this
  | Some a =>
      match fuel with
      | O => out_of_fuel
      | S fuel' =>
          v ← value a;
          this' ← pushBack this v;
          nx ← next a;
          op_plus_assign_loop fuel' this' nx
      end
  end.

(** [operator+=(other)]. *)
Definition op_plus_assign (fuel : nat) (this other : List) : M store List :=
  op_plus_assign_loop fuel this (head other).

(** [operator+(other)]: the new list. *)
Definition op_plus (fuel : nat) (this other : List) : M store List :=
  newList ← op_plus_assign_loop fuel List_new (head this);
  op_plus_assign_loop fuel newList (head other).

(** The values of an array whose elements have all been assigned; an
    element that was never assigned ([None]) has no value to read. *)
Fixpoint initialized (w : list (option T)) : option (list T) :=
  match w with
  | [] => Some []
  | Some v :: w' =>
      match initialized w' with
      | Some vs => Some (v :: vs)
      | None => None
      end
  | None :: _ => None
  end.

(** [window(action, n)] (and [window<N>(action)], the same loop for a
    constant [N]): the array [window] starts unassigned; each round moves
    its elements one place down, [memmove(&window[0], &window[1], ...)],
    and assigns the node's value to [window[n - 1]].  The action is a
    function of the [n] values it is handed.  The results are a [List<R>],
    whose nodes are in the second store. *)
Fixpoint window_loop {R : Type} (fuel : nat) (action : list T → R) (n : Z)
    (window : list (option T)) (result : List) (it : ptr) (i : Z)
  : M (store * gmap positive (Node R)) List :=
  match it with
  | None => mret result
  | Some a =>
      match fuel with
      | O => out_of_fuel
      | S fuel' =>
          let moved := if n >? 1
                       then drop 1 window ++ drop (Z.to_nat (n - 1)) window
                       else window in
          if Z.of_nat (length moved) <=? wrap (n - 1) then undefined
          else
            v ← on_fst (value a);
            let window' := <[Z.to_nat (wrap (n - 1)) := Some v]> moved in
            result' ← (if wrap (i + 1) >=? n then
                          match initialized window' with
                          | Some vs => on_snd (pushBack result (action vs))
                          | None => undefined
                          end
                        else mret result);
            nx ← on_fst (next a);
            window_loop fuel' action n window' result' nx (wrap (i + 1))
      end
  end.

Definition window {R : Type} (fuel : nat) (action : list T → R) (n : Z) (this : List)
  : M (store * gmap positive (Node R)) List :=
  window_loop fuel action n (replicate (Z.to_nat n) None) List_new (head this) 0.

Section search_more.
Context `{EqDecision T}.

(** [rfind(value, skip)].  The header starts its walk at [this->tail - skip],
    which is arithmetic on the pointer itself (the sibling [find] writes
    [*this->head + skip], the walk along the nodes): it is [tail] for
    [skip = 0] and no pointer to a node otherwise. *)
Fixpoint rfind_loop (fuel : nat) (v : T) (it : ptr) (at_ : Z) : M store Z :=
  match it with
  | None => mret NO_POS
  | Some a =>
      match fuel with
      | O => out_of_fuel
      | S fuel' =>
          x ← value a;
          if decide (x = v) then mret at_
          else bk ← details.back a; rfind_loop fuel' v bk (wrap (at_ - 1))
      end
  end.

Definition rfind (fuel : nat) (this : List) (v : T) (skip : Z) : M store Z :=
  if skip >=? _len this then mret NO_POS
  else
    it ← (if skip =? 0 then mret (tail this) else undefined);
    rfind_loop fuel v it (wrap (wrap (_len this - skip) - 1)).

(** [findAll(value)]: the list of positions is a [List<usize>], whose nodes
    are in the second store. *)
Fixpoint findAll_loop (fuel : nat) (v : T) (indices : List) (it : ptr) (at_ : Z)
  : M (store * gmap positive (Node Z)) List :=
  match it with
  | None => mret indices
  | Some a =>
      match fuel with
      | O => out_of_fuel
      | S fuel' =>
          x ← on_fst (value a);
          indices' ← (if decide (x = v) then on_snd (pushBack indices at_)
                       else mret indices);
          nx ← on_fst (next a);
          findAll_loop fuel' v indices' nx (wrap (at_ + 1))
      end
  end.

Definition findAll (fuel : nat) (this : List) (v : T)
  : M (store * gmap positive (Node Z)) List :=
  findAll_loop fuel v List_new (head this) 0.
End search_more.

End list_more.
End OwnList.

(** ** namespace own: class Stack (over the default container [List<T>]) *)
Module Stack.
Import details.

Record Stack : Type := mkStack { container : OwnList.List }.

Section stack.
Context {T : Type}.

Abbreviation store := (gmap positive (Node T)).

Definition empty (this : Stack) : bool := OwnList.empty (container this).

Definition len (this : Stack) : Z := OwnList.len (container this).

Definition top (this : Stack) : M store T := OwnList.back (container this).

Definition push (this : Stack) (v : T) : M store Stack :=
  c ← OwnList.pushBack (container this) v; mret (mkStack c).

Definition pop (this : Stack) : M store (T * Stack) :=
  '(v, c) ← OwnList.popBack (container this); mret (v, mkStack c).

Definition reverse (fuel : nat) (this : Stack) : M store Stack :=
  c ← OwnList.reverse fuel (container this); mret (mkStack c).

(** [append(other)]: the pair (this, other) after the call. *)
Definition append (fuel : nat) (this other : Stack) : M store (Stack * Stack) :=
  other1 ← reverse fuel other;
  '(c, oc) ← OwnList.append (container this) (container other1);
  mret (mkStack c, mkStack oc).
End stack.
End Stack.

(** ** namespace own: class Queue (over the default container [List<T>]) *)
Module Queue.
Import details.

Record Queue : Type := mkQueue { container : OwnList.List }.

Section queue.
Context {T : Type}.

Abbreviation store := (gmap positive (Node T)).

Definition empty (this : Queue) : bool := OwnList.empty (container this).

Definition len (this : Queue) : Z := OwnList.len (container this).

Definition front (this : Queue) : M store T := OwnList.front (container this).

Definition back (this : Queue) : M store T := OwnList.back (container this).

Definition push (this : Queue) (v : T) : M store Queue :=
  c ← OwnList.pushBack (container this) v; mret (mkQueue c).

Definition pop (this : Queue) : M store (T * Queue) :=
  '(v, c) ← OwnList.popFront (container this); mret (v, mkQueue c).

End queue.
End Queue.

(** ** The stream operators of List *)
Module Streams.
Import details OwnList.

(** A [std::istream] over a character buffer, with its state bits (there is
    no device here, so [badbit] never arises). *)
Record istream : Type := mkIstream {
  buf : list ascii;
  eofbit : bool;
  failbit : bool;
}.

Definition good (i : istream) : bool := negb (eofbit i) && negb (failbit i).
Definition fail (i : istream) : bool := failbit i.
Definition setstate_failbit (i : istream) : istream :=
  mkIstream (buf i) (eofbit i) true.

(** [std::isspace] in the classic locale. *)
Definition isspace (c : ascii) : bool :=
  let n := nat_of_ascii c in ((9 <=? n) && (n <=? 13) || (n =? 32))%nat.

Fixpoint skipws (s : list ascii) : list ascii :=
  match s with
  | c :: s' => if isspace c then skipws s' else s
  | [] => []
  end.

(** [in >> ch] for a [char]: formatted extraction, which skips leading
    white space; [ch] keeps its value when nothing is extracted. *)
Definition get_char (ch : ascii) (i : istream) : ascii * istream :=
  if good i then
    match skipws (buf i) with
    | c :: rest => (c, mkIstream rest false false)
    | [] => (ch, mkIstream [] true true)
    end
  else (ch, setstate_failbit i).

(** What the stream operators of the element type do: the characters
    [out << value] appends, and the value [in >> value] extracts, if any,
    with the stream it leaves. *)
Class Streamable (T : Type) : Type := {
  put_value : T → list ascii;
  get_value : istream → option T * istream;
}.

(** [char] elements. *)
#[global] Instance Streamable_char : Streamable ascii := {|
  put_value c := [c];
  get_value i :=
    if good i then
      match skipws (buf i) with
      | c :: rest => (Some c, mkIstream rest false false)
      | [] => (None, mkIstream [] true true)
      end
    else (None, setstate_failbit i);
|}.

Section streams.
Context {T : Type} `{Streamable T}.

Abbreviation store := (gmap positive (Node T)).

(** [operator<<(out, lst)]: the characters written. *)
Fixpoint stream_insert_loop (fuel : nat) (out : list ascii) (it : ptr)
  : M store (list ascii) :=
  match it with
  | None => mret out
  | Some a =>
      match fuel with
      | O => out_of_fuel
      | S fuel' =>
          v ← value a;
          nx ← next a;
          stream_insert_loop fuel' (out ++ [","; " "]%char ++ put_value v) nx
      end
  end.

Definition stream_insert (fuel : nat) (out : list ascii) (lst : List)
  : M store (list ascii) :=
  let out := out ++ ["["%char] in
  out ← (if len lst >? 0 then
           v ← front lst;
           h ← deref (head lst);
           nx ← next h;
           stream_insert_loop fuel (out ++ put_value v) nx
         else mret out);
  mret (out ++ ["]"%char]).

(** [operator>>(in, lst)]: the stream and the list after the call. *)
Fixpoint stream_extract_loop (fuel : nat) (ch : ascii) (i : istream) (lst : List)
  : M store (ascii * istream * List) :=
  if Ascii.eqb ch ","%char && good i then
    match fuel with
    | O => out_of_fuel
    | S fuel' =>
        let '(v, i1) := get_value i in
        lst1 ← (if good i1 then
                   match v with
                   | Some x => pushBack lst x
                   | None => mret lst
                   end
                 else mret lst);
        let '(ch1, i2) := get_char ch i1 in
        stream_extract_loop fuel' ch1 i2 lst1
    end
  else mret (ch, i, lst).

Definition stream_extract (fuel : nat) (i : istream) (lst : List)
  : M store (istream * List) :=
  let '(ch, i1) := get_char zero i in
  if fail i1 || negb (Ascii.eqb ch "["%char) then mret (setstate_failbit i1, lst)
  else
    let '(ch, i2) := get_char ch i1 in
    if fail i2 || Ascii.eqb ch "]"%char then mret (i2, lst)
    else
      '(ch, i3, lst1) ← stream_extract_loop fuel ch i2 lst;
      let '(ch, i4) := get_char ch i3 in
      if fail i4 || negb (Ascii.eqb ch "["%char) then mret (setstate_failbit i4, lst1)
      else mret (i4, lst1).
(** The text of a list as the specification gives it: [[v1, v2, ..., vn]],
    and [[]] for no value. *)
Definition render (vs : list T) : list ascii :=
  ["["%char] ++
  match vs with
  | [] => []
  | v :: vs' => put_value v ++ concat (map (λ x, [","; " "]%char ++ put_value x) vs')
  end ++
  ["]"%char].

(** A text with a comma in front of every value, and [tl] behind the last
    one. *)
Definition behind_commas (vs : list T) (tl : list ascii) : list ascii :=
  foldr (λ v acc, ","%char :: put_value v ++ acc) tl vs.
End streams.
End Streams.

(** ** The data model: what a well-formed list looks like in the store *)
Module Model.
Import details OwnList.

Section model.
Context {T : Type}.

Abbreviation store := (gmap positive (Node T)).

(** The values of a list, front to back, as its own [fold] collects them. *)
Definition to_values (fuel : nat) (this : List) : M store (list T) :=
  fold fuel (λ v acc, acc ++ [v]) [] this.

(** The list made by [pushBack] of each value in turn on a list [this]. *)
Fixpoint pushBack_all (this : List) (vs : list T) : M store List :=
  match vs with
  | [] => mret this
  | v :: vs' => this' ← pushBack this v; pushBack_all this' vs'
  end.

(** Cells are the nodes of a chain, front to back: address and value. *)
Definition first_ptr (cells : list (addr * T)) (dflt : ptr) : ptr :=
  match cells with
  | [] => dflt
  | c :: _ => Some c.1
  end.

Definition last_ptr (cells : list (addr * T)) (dflt : ptr) : ptr :=
  match last cells with
  | None => dflt
  | Some c => Some c.1
  end.

(** [dseg h pp cells qn]: in store [h] the cells are linked to one another
    in both directions; the first one has [pp] as its previous node and
    the last one has [qn] as its next node. *)
Fixpoint dseg (h : store) (pp : ptr) (cells : list (addr * T)) (qn : ptr) : Prop :=
  match cells with
  | [] => True
  | c :: rest =>
      h !! c.1 = Some (mkNode c.2 pp (first_ptr rest qn)) ∧ dseg h (Some c.1) rest qn
  end.

(** The invariants of List: [_len] counts the nodes, [head] and [tail]
    are the first and the last node (both absent exactly when there is
    none), walking [next] from [head] visits the cells in order and ends
    at [tail] with [next] absent, and symmetrically for [back]. *)
Definition is_list (h : store) (l : List) (cells : list (addr * T)) : Prop :=
  NoDup cells.*1 ∧
  _len l = Z.of_nat (length cells) ∧
  Z.of_nat (length cells) < usize_modulus ∧
  head l = first_ptr cells None ∧
  tail l = last_ptr cells None ∧
  dseg h None cells None.

Definition invariant (h : store) (l : List) : Prop := ∃ cells, is_list h l cells.

(** The store that holds exactly the given cells as one chain, and the
    list object over it. *)
Fixpoint store_of (pp : ptr) (cells : list (addr * T)) : store :=
  match cells with
  | [] => ∅
  | c :: rest => <[c.1 := mkNode c.2 pp (first_ptr rest None)]> (store_of (Some c.1) rest)
  end.

Definition list_of (cells : list (addr * T)) : List :=
  mkList (Z.of_nat (length cells)) (first_ptr cells None) (last_ptr cells None).


(** Insertion by position on cells. *)
Definition insert_at (i : nat) (c : addr * T) (cells : list (addr * T)) : list (addr * T) :=
  take i cells ++ c :: drop i cells.

(** Where [insert(value, at, backwarded)] puts the new cell in a list of
    [len] cells. *)
Definition insert_position (backwarded : bool) (at_ len : Z) : Z :=
  if at_ >=? len then len else if backwarded then at_ else at_ + 1.

(** The cells a filter marks, and the others. *)
Definition removed (p : T → bool) (cells : list (addr * T)) : list (addr * T) :=
  List.filter (λ c, p c.2) cells.

Definition kept (p : T → bool) (cells : list (addr * T)) : list (addr * T) :=
  List.filter (λ c, negb (p c.2)) cells.

(** Where [retainIf] leaves [tail]: it assigns the removed node's [next],
    which is absent for the last node. *)
Definition retained_tail (f : T → bool) (rs : list (addr * T)) (dflt : ptr) : ptr :=
  match last rs with
  | Some c => if f c.2 then Some c.1 else None
  | None => dflt
  end.

(** An index that lies beyond the list counts as its length. *)
Definition clamp (i len : Z) : nat := Z.to_nat (Z.min i len).

(** What [find] answers on a well-formed list when it starts counting at
    [at_]: the first position of the value, or [NO_POS]. *)
Definition find_result `{EqDecision T} (v : T) (cells : list (addr * T)) (at_ : Z) : Z :=
  match list_find (λ c, c.2 = v) cells with
  | Some (i, _) => wrap (at_ + Z.of_nat i)
  | None => NO_POS
  end.

End model.

(** What the searches, the adapters and the traversals are measured against. *)
Section model_more.
Context {T : Type}.

Abbreviation store := (gmap positive (Node T)).

(** The values pushed on a stack one after the other, and the values that
    [n] calls of [pop] return, in the order of the calls. *)
Fixpoint stack_push_all (s : Stack.Stack) (vs : list T) : M store Stack.Stack :=
  match vs with
  | [] => mret s
  | v :: vs' => s' ← Stack.push s v; stack_push_all s' vs'
  end.

Fixpoint stack_pop_n (n : nat) (s : Stack.Stack) : M store (list T * Stack.Stack) :=
  match n with
  | O => mret ([], s)
  | S n' =>
      '(v, s1) ← Stack.pop s;
      '(vs, s2) ← stack_pop_n n' s1;
      mret (v :: vs, s2)
  end.

(** The same for a queue. *)
Fixpoint queue_push_all (q : Queue.Queue) (vs : list T) : M store Queue.Queue :=
  match vs with
  | [] => mret q
  | v :: vs' => q' ← Queue.push q v; queue_push_all q' vs'
  end.

Fixpoint queue_pop_n (n : nat) (q : Queue.Queue) : M store (list T * Queue.Queue) :=
  match n with
  | O => mret ([], q)
  | S n' =>
      '(v, q1) ← Queue.pop q;
      '(vs, q2) ← queue_pop_n n' q1;
      mret (v :: vs, q2)
  end.

(** One pass of an action on element and context over a list of values:
    the new values and the last context. *)
Fixpoint run_action {C : Type} (action : T → C → T * C) (vs : list T) (ctx : C)
  : list T * C :=
  match vs with
  | [] => ([], ctx)
  | v :: vs' =>
      let '(v', ctx') := action v ctx in
      let '(r, ctx'') := run_action action vs' ctx' in
      (v' :: r, ctx'')
  end.

(** The positions of a value, counted from [at_] on, in ascending order. *)
Fixpoint positions `{EqDecision T} (v : T) (vs : list T) (at_ : Z) : list Z :=
  match vs with
  | [] => []
  | x :: vs' =>
      (if decide (x = v) then [at_] else []) ++ positions v vs' (at_ + 1)
  end.

(** The windows of [n] consecutive values, first to last. *)
Definition windows (n : nat) (vs : list T) : list (list T) :=
  map (λ k, take n (drop k vs)) (seq 0 (length vs + 1 - n)).

(** The last position of a value, or [NO_POS]. *)
Definition rfind_result `{EqDecision T} (v : T) (vs : list T) : Z :=
  match list_find (λ x, x = v) (rev vs) with
  | Some (i, _) => Z.of_nat (length vs) - 1 - Z.of_nat i
  | None => NO_POS
  end.
End model_more.
End Model.

(** ** Concrete lists *)
Module Samples.
Import details OwnList Model.

(** [10, 20, 30] in nodes 1, 2, 3. *)
Definition cells_abc : list (addr * Z) :=
  [(1%positive, 10); (2%positive, 20); (3%positive, 30)].

(** [30, 10] in nodes 4, 5. *)
Definition cells_de : list (addr * Z) :=
  [(4%positive, 30); (5%positive, 10)].

(** One store that holds both. *)
Definition store_abc_de : gmap positive (Node Z) :=
  store_of None cells_abc ∪ store_of None cells_de.

(** [1, 2, 3, 4, 5] in nodes 1 to 5. *)
Definition cells_12345 : list (addr * Z) :=
  [(1%positive, 1); (2%positive, 2); (3%positive, 3); (4%positive, 4); (5%positive, 5)].

(** ['A', 'C'] in nodes 1, 2. *)
Definition cells_AC : list (addr * ascii) :=
  [(1%positive, "A"%char); (2%positive, "C"%char)].

(** ['a', 'b', 'c'] in nodes 1, 2, 3. *)
Definition cells_chars : list (addr * ascii) :=
  [(1%positive, "a"%char); (2%positive, "b"%char); (3%positive, "c"%char)].
End Samples.

(** * Verification *)

Import details OwnList Model.


Section store_facts.
Context {T : Type}.
Implicit Types (h : gmap positive (Node T)) (n : Node T) (p a : addr).

Lemma bind_Ok {A B} (m : M (gmap positive (Node T)) A) (k : A → M _ B) h x h' :
  m h = Ok (x, h') → (m ≫= k) h = k x h'.
Proof. intros E. unfold mbind, M_bind, bind. by rewrite E. Qed.

Lemma bind_ret {A B} (x : A) (k : A → M (gmap positive (Node T)) B) h :
  (ret x ≫= k) h = k x h.
Proof. reflexivity. Qed.

Lemma bind_mret {A B} (x : A) (k : A → M (gmap positive (Node T)) B) h :
  (mret x ≫= k) h = k x h.
Proof. reflexivity. Qed.

Lemma bind_deref {B} (a : addr) (k : addr → M (gmap positive (Node T)) B) h :
  (deref (Some a) ≫= k) h = k a h.
Proof. reflexivity. Qed.

Lemma bind_assoc {A B C} (m : M (gmap positive (Node T)) A)
    (f : A → M (gmap positive (Node T)) B) (g : B → M (gmap positive (Node T)) C) h :
  ((m ≫= f) ≫= g) h = (m ≫= λ x, f x ≫= g) h.
Proof. unfold mbind, M_bind, bind. by destruct (m h) as [[x h']| | |]. Qed.

Lemma load_Ok h p n : h !! p = Some n → load p h = Ok (n, h).
Proof. intros E. unfold load. by rewrite E. Qed.

Lemma value_Ok h p n : h !! p = Some n → value p h = Ok (_value n, h).
Proof. intros E. unfold value. by rewrite (bind_Ok _ _ _ _ _ (load_Ok _ _ _ E)). Qed.

Lemma back_Ok h p n : h !! p = Some n → details.back p h = Ok (_back n, h).
Proof. intros E. unfold details.back. by rewrite (bind_Ok _ _ _ _ _ (load_Ok _ _ _ E)). Qed.

Lemma next_Ok h p n : h !! p = Some n → next p h = Ok (_next n, h).
Proof. intros E. unfold next. by rewrite (bind_Ok _ _ _ _ _ (load_Ok _ _ _ E)). Qed.

Lemma write_Ok h p n n' : h !! p = Some n → write p n' h = Ok (tt, <[p := n']> h).
Proof. intros E. unfold write. by rewrite E. Qed.

Lemma setBack_Ok h p n q :
  h !! p = Some n → setBack p q h = Ok (tt, <[p := mkNode (_value n) q (_next n)]> h).
Proof.
  intros E. unfold setBack. rewrite (bind_Ok _ _ _ _ _ (load_Ok _ _ _ E)).
  by apply write_Ok with n.
Qed.

Lemma setNext_Ok h p n q :
  h !! p = Some n → setNext p q h = Ok (tt, <[p := mkNode (_value n) (_back n) q]> h).
Proof.
  intros E. unfold setNext. rewrite (bind_Ok _ _ _ _ _ (load_Ok _ _ _ E)).
  by apply write_Ok with n.
Qed.

Lemma reverse_Ok h p n :
  h !! p = Some n →
  details.reverse p h = Ok (tt, <[p := mkNode (_value n) (_next n) (_back n)]> h).
Proof.
  intros E. unfold details.reverse. rewrite (bind_Ok _ _ _ _ _ (load_Ok _ _ _ E)).
  by apply write_Ok with n.
Qed.

Lemma free_Ok h p n : h !! p = Some n → free p h = Ok (tt, delete p h).
Proof. intros E. unfold free. by rewrite E. Qed.

Lemma new_Ok h (v : T) (b nx : ptr) :
  new v b nx h = Ok (unused h, <[unused h := mkNode v b nx]> h).
Proof. reflexivity. Qed.

Lemma unused_lookup h : h !! unused h = None.
Proof. apply not_elem_of_dom, is_fresh. Qed.
End store_facts.

(** Resolving a lookup through the updates made so far. *)
Ltac lookup_store :=
  repeat first
    [ rewrite lookup_insert_eq
    | rewrite lookup_insert_ne by congruence
    | rewrite lookup_delete_ne by congruence ];
  first [ reflexivity | eassumption ].

(** One statement of a method, run on the current store. *)
Ltac mstep :=
  cbv beta iota zeta;
  first
    [ rewrite bind_assoc
    | rewrite bind_ret
    | rewrite bind_mret
    | rewrite bind_deref
    | erewrite (bind_Ok (value _)) by (eapply value_Ok; lookup_store)
    | erewrite (bind_Ok (details.back _)) by (eapply back_Ok; lookup_store)
    | erewrite (bind_Ok (next _)) by (eapply next_Ok; lookup_store)
    | erewrite (bind_Ok (setBack _ _)) by (eapply setBack_Ok; lookup_store)
    | erewrite (bind_Ok (setNext _ _)) by (eapply setNext_Ok; lookup_store)
    | erewrite (bind_Ok (details.reverse _)) by (eapply reverse_Ok; lookup_store)
    | erewrite (bind_Ok (free _)) by (eapply free_Ok; lookup_store)
    | erewrite (bind_Ok (new _ _ _)) by (apply new_Ok) ];
  cbv beta iota zeta; cbn [_value _back _next].

(** The last statement of a method. *)
Ltac mlast :=
  first
    [ reflexivity
    | eapply value_Ok; lookup_store
    | eapply back_Ok; lookup_store
    | eapply next_Ok; lookup_store
    | eapply setBack_Ok; lookup_store
    | eapply setNext_Ok; lookup_store
    | eapply reverse_Ok; lookup_store
    | eapply free_Ok; lookup_store ].

Ltac mrun := repeat mstep; mlast.

(** The six clauses of [is_list], one goal each. *)
Ltac split_is_list :=
  unfold is_list; cbn [_len head tail];
  split; [|split; [|split; [|split; [|split]]]].


Section dseg_facts.
Context {T : Type}.
Implicit Types (h : gmap positive (Node T)) (cells xs ys : list (addr * T)) (c : addr * T).
Implicit Types (pp qn d : ptr).

Lemma first_ptr_app xs ys d : first_ptr (xs ++ ys) d = first_ptr xs (first_ptr ys d).
Proof. by destruct xs. Qed.

Lemma last_ptr_nil d : last_ptr (@nil (addr * T)) d = d.
Proof. done. Qed.

Lemma last_ptr_snoc xs c d : last_ptr (xs ++ [c]) d = Some c.1.
Proof. unfold last_ptr. by rewrite last_snoc. Qed.

Lemma last_ptr_cons c xs d : last_ptr (c :: xs) d = last_ptr xs (Some c.1).
Proof.
  destruct xs as [|x xs _] using rev_ind; [done|].
  by rewrite app_comm_cons, !last_ptr_snoc.
Qed.

Lemma last_ptr_app xs ys d : last_ptr (xs ++ ys) d = last_ptr ys (last_ptr xs d).
Proof.
  revert d. induction xs as [|x xs IH]; intros d; [done|].
  by rewrite <- app_comm_cons, !last_ptr_cons, IH.
Qed.

Lemma first_ptr_rev cells d : first_ptr (rev cells) d = last_ptr cells d.
Proof.
  destruct cells as [|x xs _] using rev_ind; [done|].
  by rewrite rev_unit, last_ptr_snoc.
Qed.

Lemma last_ptr_rev cells d : last_ptr (rev cells) d = first_ptr cells d.
Proof.
  destruct cells as [|x xs]; [done|]. simpl. by rewrite last_ptr_snoc.
Qed.

Lemma dseg_ext h h' pp cells qn :
  (∀ a, a ∈ cells.*1 → h' !! a = h !! a) →
  dseg h pp cells qn → dseg h' pp cells qn.
Proof.
  revert pp. induction cells as [|c rest IH]; intros pp Hext; [done|].
  simpl. intros [Hc Hrest]. split.
  - rewrite Hext; [done|]. set_solver.
  - apply IH; [|done]. intros a Ha. apply Hext. set_solver.
Qed.

Lemma dseg_insert_fresh h pp cells qn a n :
  a ∉ cells.*1 → dseg h pp cells qn → dseg (<[a := n]> h) pp cells qn.
Proof.
  intros Ha. apply dseg_ext. intros b Hb. apply lookup_insert_ne. set_solver.
Qed.

Lemma dseg_delete_fresh h pp cells qn a :
  a ∉ cells.*1 → dseg h pp cells qn → dseg (delete a h) pp cells qn.
Proof.
  intros Ha. apply dseg_ext. intros b Hb. apply lookup_delete_ne. set_solver.
Qed.

Lemma dseg_app h pp xs ys qn :
  dseg h pp (xs ++ ys) qn ↔
  dseg h pp xs (first_ptr ys qn) ∧ dseg h (last_ptr xs pp) ys qn.
Proof.
  revert pp. induction xs as [|x xs IH]; intros pp; simpl.
  - rewrite last_ptr_nil. tauto.
  - rewrite IH, first_ptr_app, last_ptr_cons. tauto.
Qed.

Lemma dseg_snoc h pp xs c qn :
  dseg h pp (xs ++ [c]) qn ↔
  dseg h pp xs (Some c.1) ∧ h !! c.1 = Some (mkNode c.2 (last_ptr xs pp) qn).
Proof. rewrite dseg_app. simpl. tauto. Qed.

(** A cell in the middle: its node, with both neighbours. *)
Lemma dseg_middle h pp xs c ys qn :
  dseg h pp (xs ++ c :: ys) qn →
  h !! c.1 = Some (mkNode c.2 (last_ptr xs pp) (first_ptr ys qn)).
Proof. rewrite dseg_app. simpl. tauto. Qed.

Lemma dseg_lookup h pp cells qn i c :
  dseg h pp cells qn → cells !! i = Some c →
  h !! c.1 = Some (mkNode c.2 (last_ptr (take i cells) pp) (first_ptr (drop (S i) cells) qn)).
Proof.
  intros Hd Hi. rewrite <- (take_drop_middle _ _ _ Hi) in Hd.
  by apply dseg_middle in Hd.
Qed.

Lemma dseg_is_Some h pp cells qn a :
  dseg h pp cells qn → a ∈ cells.*1 → is_Some (h !! a).
Proof.
  intros Hd Ha. apply list_elem_of_fmap in Ha as [c [-> Hc]].
  apply list_elem_of_lookup in Hc as [i Hi].
  rewrite (dseg_lookup _ _ _ _ _ _ Hd Hi). eauto.
Qed.

(** Changing what lies beyond the two ends. *)
Lemma dseg_set_next h pp xs c qn qn' :
  c.1 ∉ xs.*1 →
  dseg h pp (xs ++ [c]) qn →
  dseg (<[c.1 := mkNode c.2 (last_ptr xs pp) qn']> h) pp (xs ++ [c]) qn'.
Proof.
  intros Hc. rewrite !dseg_snoc. intros [Hxs _]. split.
  - by apply dseg_insert_fresh.
  - apply lookup_insert_eq.
Qed.

Lemma dseg_set_back h pp pp' c ys qn :
  c.1 ∉ ys.*1 →
  dseg h pp (c :: ys) qn →
  dseg (<[c.1 := mkNode c.2 pp' (first_ptr ys qn)]> h) pp' (c :: ys) qn.
Proof.
  intros Hc. simpl. intros [_ Hys]. split.
  - apply lookup_insert_eq.
  - by apply dseg_insert_fresh.
Qed.
End dseg_facts.


Section walks.
Context {T : Type}.
Implicit Types (h : gmap positive (Node T)) (cells xs ys : list (addr * T)) (c : addr * T).
Implicit Types (pp qn d : ptr).

Lemma advance_loop_dseg h pp cells qn k c :
  dseg h pp cells qn → cells !! k = Some c →
  advance_loop k (first_ptr cells qn) h = Ok (Some c.1, h).
Proof.
  revert pp k. induction cells as [|c0 rest IH]; intros pp k Hd Hk; [done|].
  destruct k as [|k]; simpl in *.
  - by inversion Hk.
  - destruct Hd as [Hc0 Hrest].
    do 2 mstep. eauto.
Qed.

Lemma retreat_loop_dseg h pp cells qn k c :
  dseg h pp cells qn → rev cells !! k = Some c →
  retreat_loop k (last_ptr cells pp) h = Ok (Some c.1, h).
Proof.
  revert k qn. induction cells as [|c0 rest IH] using rev_ind; intros k qn Hd Hk; [done|].
  rewrite rev_unit in Hk. rewrite last_ptr_snoc.
  apply dseg_snoc in Hd as [Hrest Hc0].
  destruct k as [|k]; simpl in *.
  - by inversion Hk.
  - do 2 mstep. eauto.
Qed.

Lemma rev_lookup {A} (l : list A) k :
  (k < length l)%nat → rev l !! k = l !! (length l - S k)%nat.
Proof. intros Hk. rewrite rev_alt. by apply reverse_lookup. Qed.

Lemma first_ptr_lookup cells d c : cells !! 0%nat = Some c → first_ptr cells d = Some c.1.
Proof. destruct cells; naive_solver. Qed.

Lemma last_ptr_lookup cells d c :
  cells !! (length cells - 1)%nat = Some c → last_ptr cells d = Some c.1.
Proof.
  destruct cells as [|x xs _] using rev_ind; [done|].
  rewrite length_app, last_ptr_snoc. simpl.
  replace (length xs + 1 - 1)%nat with (length xs + 0)%nat by lia.
  rewrite lookup_app_r, Nat.add_0_r, Nat.sub_diag by lia. naive_solver.
Qed.

Lemma wrap_small z : 0 ≤ z < usize_modulus → wrap z = z.
Proof. intros. unfold wrap. by apply Z.mod_small. Qed.

Lemma atNode_is_list h l cells i c :
  is_list h l cells → 0 ≤ i → cells !! Z.to_nat i = Some c →
  atNode l i h = Ok (Some c.1, h).
Proof.
  intros (Hnd & Hlen & Hlt & Hhd & Htl & Hd) Hi Hc.
  pose proof (lookup_lt_Some _ _ _ Hc) as Hbound.
  unfold atNode. rewrite Hlen.
  rewrite (wrap_small (Z.of_nat (length cells) - 1)) by lia.
  destruct (Z.eqb_spec i 0) as [->|Hi0].
  { rewrite Hhd. by rewrite (first_ptr_lookup _ _ c). }
  destruct (Z.eqb_spec i (Z.of_nat (length cells) - 1)) as [->|Hil].
  { rewrite Htl. rewrite (last_ptr_lookup _ _ c); [done|].
    by replace (length cells - 1)%nat with (Z.to_nat (Z.of_nat (length cells) - 1)) by lia. }
  destruct (Z.leb_spec i (Z.of_nat (length cells) `div` 2)) as [Hhalf|Hhalf].
  - rewrite Hhd. destruct cells as [|c0 rest]; [done|]. simpl first_ptr.
    simpl deref. unfold mbind at 1, M_bind, bind, ret. unfold advance.
    by apply (advance_loop_dseg h None (c0 :: rest) None).
  - rewrite Htl. destruct (last cells) as [cl|] eqn:Hlast.
    2:{ apply last_None in Hlast. subst. simpl in *. lia. }
    unfold last_ptr at 1. rewrite Hlast.
    simpl deref. unfold mbind at 1, M_bind, bind, ret. unfold retreat.
    rewrite (wrap_small (Z.of_nat (length cells) - i)) by lia.
    rewrite wrap_small by lia.
    replace (Some cl.1) with (last_ptr cells None) by (unfold last_ptr; by rewrite Hlast).
    apply retreat_loop_dseg with None; [done|].
    rewrite rev_lookup by lia. rewrite <- Hc. f_equal. lia.
Qed.


End walks.


Section search_facts.
Context {T : Type} `{EqDecision T}.
Implicit Types (h : gmap positive (Node T)) (cells xs ys : list (addr * T)) (c : addr * T).
Implicit Types (pp qn d : ptr).

Lemma wrap_succ_l a b : wrap (wrap (a + 1) + b) = wrap (a + (1 + b)).
Proof. unfold wrap. rewrite Zplus_mod_idemp_l. f_equal. lia. Qed.

Lemma wrap_range z : 0 ≤ wrap z < usize_modulus.
Proof. unfold wrap. apply Z.mod_pos_bound. reflexivity. Qed.

Lemma find_loop_dseg h pp cells fuel v at_ :
  dseg h pp cells None → (length cells ≤ fuel)%nat → 0 ≤ at_ < usize_modulus →
  find_loop fuel v (first_ptr cells None) at_ h = Ok (find_result v cells at_, h).
Proof.
  revert pp fuel at_. induction cells as [|c rest IH]; intros pp fuel at_ Hd Hf Hat.
  { by destruct fuel. }
  destruct fuel as [|fuel]; [simpl in Hf; lia|].
  destruct Hd as [Hc Hrest]. simpl. mstep.
  unfold find_result. simpl list_find.
  destruct (decide (c.2 = v)) as [Hv|Hv]; simpl; try case_decide; try done.
  { unfold mret, M_ret, ret. by rewrite Z.add_0_r, wrap_small. }
  mstep. erewrite IH; [|done|simpl in Hf; lia|apply wrap_range].
  unfold find_result. destruct (list_find _ rest) as [[i x]|]; simpl; [|done].
  rewrite wrap_succ_l. do 3 f_equal. lia.
Qed.

Lemma find_result_found v cells :
  Z.of_nat (length cells) < usize_modulus →
  negb (find_result v cells 0 =? NO_POS) = bool_decide (v ∈ cells.*2).
Proof.
  intros Hlen. unfold find_result.
  destruct (list_find _ cells) as [[i x]|] eqn:Hf.
  - apply list_find_Some in Hf as (Hi & Hx & _).
    pose proof (lookup_lt_Some _ _ _ Hi) as Hlt.
    rewrite wrap_small by lia. simpl.
    rewrite bool_decide_eq_true_2.
    + apply negb_true_iff, Z.eqb_neq.
      assert (NO_POS = usize_modulus - 1) as -> by reflexivity. lia.
    + subst v. apply list_elem_of_fmap. exists x. split; [done|].
      by eapply list_elem_of_lookup_2.
  - rewrite Z.eqb_refl. simpl. symmetry. apply bool_decide_eq_false_2.
    intros Hin. apply list_elem_of_fmap in Hin as [x [-> Hx]].
    apply list_find_None in Hf. rewrite Forall_forall in Hf.
    by apply (Hf x).
Qed.

Lemma find_is_list h l cells fuel v :
  is_list h l cells → (length cells ≤ fuel)%nat →
  find fuel l v 0 h = Ok (find_result v cells 0, h).
Proof.
  intros (Hnd & Hlen & Hlt & Hhd & Htl & Hd) Hf.
  unfold find. rewrite Hlen, Hhd.
  destruct cells as [|c rest]; [done|].
  destruct (Z.geb_spec 0 (Z.of_nat (length (c :: rest)))) as [Hge|_].
  { simpl in Hge. lia. }
  simpl first_ptr. mstep. unfold advance. simpl advance_loop. mstep.
  apply (find_loop_dseg h None (c :: rest)); [done|done|].
  unfold usize_modulus. lia.
Qed.

Lemma contains_value_is_list h l cells fuel v :
  is_list h l cells → (length cells ≤ fuel)%nat →
  contains_value fuel l v h = Ok (bool_decide (v ∈ cells.*2), h).
Proof.
  intros Hl Hf. unfold contains_value.
  rewrite (bind_Ok _ _ _ _ _ (find_is_list _ _ _ _ v Hl Hf)).
  unfold mret, M_ret, ret. rewrite find_result_found; [done|].
  by destruct Hl as (_ & _ & ? & _).
Qed.

Lemma contains_loop_dseg h l cells inner fuel pp others :
  is_list h l cells → (length cells ≤ inner)%nat →
  dseg h pp others None → (length others ≤ fuel)%nat →
  contains_loop inner fuel l (first_ptr others None) h =
  Ok (forallb (λ c, bool_decide (c.2 ∈ cells.*2)) others, h).
Proof.
  intros Hl Hin. revert pp fuel.
  induction others as [|c rest IH]; intros pp fuel Hd Hf.
  { by destruct fuel. }
  destruct fuel as [|fuel]; [simpl in Hf; lia|].
  destruct Hd as [Hc Hrest]. simpl. mstep.
  rewrite (bind_Ok _ _ _ _ _ (contains_value_is_list _ _ _ _ c.2 Hl Hin)).
  destruct (bool_decide (c.2 ∈ cells.*2)); simpl; [|done].
  mstep. eapply IH; [done|]. simpl in Hf. lia.
Qed.

End search_facts.


Section reverse_append.
Context {T : Type}.
Implicit Types (h : gmap positive (Node T)) (cells xs ys : list (addr * T)) (c : addr * T).
Implicit Types (pp qn d : ptr).

Lemma fmap_rev {A B} (f : A → B) (l : list A) : f <$> rev l = rev (f <$> l).
Proof. rewrite !rev_alt. apply fmap_reverse. Qed.

Lemma NoDup_rev_iff {A} (l : list A) : NoDup (rev l) ↔ NoDup l.
Proof. rewrite rev_alt. by rewrite (reverse_Permutation l). Qed.

Lemma elem_of_rev {A} (x : A) (l : list A) : x ∈ rev l ↔ x ∈ l.
Proof. rewrite rev_alt. apply elem_of_reverse. Qed.

Lemma reverse_loop_dseg h pp cells fuel :
  NoDup cells.*1 → dseg h pp cells None → (length cells ≤ fuel)%nat →
  ∃ h', reverse_loop fuel (first_ptr cells None) h = Ok (tt, h') ∧
        dseg h' None (rev cells) pp ∧
        (∀ a, a ∉ cells.*1 → h' !! a = h !! a).
Proof.
  revert h pp fuel. induction cells as [|c rest IH]; intros h pp fuel Hnd Hd Hf.
  { exists h. by destruct fuel. }
  destruct fuel as [|fuel]; [simpl in Hf; lia|].
  destruct Hd as [Hc Hrest]. rewrite fmap_cons in Hnd.
  apply NoDup_cons in Hnd as [Hc_rest Hnd].
  set (h1 := <[c.1 := mkNode c.2 (first_ptr rest None) pp]> h).
  destruct (IH h1 (Some c.1) fuel) as (h' & Hrun & Hd' & Hframe).
  { done. }
  { by apply dseg_insert_fresh. }
  { simpl in Hf. lia. }
  exists h'. split; [|split].
  - simpl. do 2 mstep. exact Hrun.
  - simpl rev. apply dseg_snoc. split; [done|].
    rewrite Hframe by done. rewrite last_ptr_rev. apply lookup_insert_eq.
  - intros a Ha. rewrite fmap_cons in Ha. apply not_elem_of_cons in Ha as [Hac Ha].
    rewrite Hframe by done. by apply lookup_insert_ne.
Qed.

Lemma is_list_nil_iff h l : is_list h l [] ↔ l = mkList 0 None None.
Proof.
  unfold is_list. simpl. split.
  - intros (_ & Hlen & _ & Hhd & Htl & _). destruct l; simpl in *. by subst.
  - intros ->. simpl. repeat split; try done. apply NoDup_nil_2.
Qed.

Lemma reverse_is_list h l cells fuel :
  is_list h l cells → (length cells ≤ fuel)%nat →
  ∃ h' l', OwnList.reverse fuel l h = Ok (l', h') ∧
           is_list h' l' (rev cells) ∧
           (∀ a, a ∉ cells.*1 → h' !! a = h !! a).
Proof.
  intros Hl Hf. pose proof Hl as (Hnd & Hlen & Hlt & Hhd & Htl & Hd).
  unfold OwnList.reverse, empty. rewrite Hlen.
  destruct cells as [|c rest].
  { exists h, l. by rewrite Z.eqb_refl. }
  destruct (Z.eqb_spec (Z.of_nat (length (c :: rest))) 0) as [H0|_].
  { simpl in H0. lia. }
  destruct (reverse_loop_dseg h None (c :: rest) fuel Hnd Hd Hf) as (h' & Hrun & Hd' & Hframe).
  exists h', (mkList (_len l) (tail l) (head l)). split; [|split; [|done]].
  - rewrite Hhd, (bind_Ok _ _ _ _ _ Hrun). unfold mret, M_ret, ret. by rewrite Hlen.
  - unfold is_list. cbn [_len head tail].
    rewrite fmap_rev, NoDup_rev_iff, length_rev, first_ptr_rev, last_ptr_rev.
    by rewrite Hlen.
Qed.

Lemma append_is_list h s t cs ct :
  is_list h s cs → is_list h t ct →
  (∀ a, a ∈ cs.*1 → a ∉ ct.*1) →
  Z.of_nat (length cs + length ct) < usize_modulus →
  ∃ h' s' t', append s t h = Ok ((s', t'), h') ∧
              is_list h' s' (cs ++ ct) ∧ is_list h' t' [] ∧
              (∀ a, a ∉ cs.*1 → a ∉ ct.*1 → h' !! a = h !! a).
Proof.
  intros Hs Ht Hdisj Hsum.
  pose proof Hs as (Hnds & Hlens & Hlts & Hhds & Htls & Hds).
  pose proof Ht as (Hndt & Hlent & Hltt & Hhdt & Htlt & Hdt).
  unfold append, empty. rewrite Hlent, Hlens.
  destruct ct as [|y ys].
  { exists h, s, t. rewrite app_nil_r. by rewrite Z.eqb_refl. }
  destruct (Z.eqb_spec (Z.of_nat (length (y :: ys))) 0) as [H0|_].
  { simpl in H0. lia. }
  destruct cs as [|x xs _] using rev_ind.
  { exists h, (mkList (_len t) (head t) (tail t)), (mkList (_len s) (head s) (tail s)).
    rewrite Z.eqb_refl. split; [done|]. split; [|split; [|done]].
    - by destruct t.
    - by destruct s. }
  destruct (Z.eqb_spec (Z.of_nat (length (xs ++ [x]))) 0) as [H0|_].
  { rewrite length_app in H0. simpl in H0. lia. }
  cbn [_len head tail]. rewrite Htls, Hhdt, last_ptr_snoc. simpl first_ptr.
  apply dseg_snoc in Hds as [Hdxs Hx]. pose proof Hdt as [Hy Hdys].
  rewrite fmap_app, NoDup_app in Hnds. destruct Hnds as (Hndxs & Hx_xs & _).
  rewrite fmap_cons, NoDup_cons in Hndt. destruct Hndt as (Hy_ys & Hndys).
  assert (x.1 ≠ y.1) as Hxy.
  { intros E. apply (Hdisj x.1); [rewrite fmap_app; set_solver|rewrite E; set_solver]. }
  assert (x.1 ∉ xs.*1) as Hx_nin.
  { intros Hin. apply (Hx_xs _ Hin). set_solver. }
  set (h1 := <[x.1 := mkNode x.2 (last_ptr xs None) (Some y.1)]> h).
  set (h2 := <[y.1 := mkNode y.2 (Some x.1) (first_ptr ys None)]> h1).
  exists h2, (mkList (wrap (Z.of_nat (length (xs ++ [x])) + Z.of_nat (length (y :: ys))))
                (head s) (tail t)), (mkList 0 None None).
  split; [|split; [|split]].
  - by do 4 mstep.
  - unfold is_list. cbn [_len head tail].
    split; [|split; [|split; [|split; [|split]]]].
    + rewrite fmap_app. apply NoDup_app. split; [|split].
      * rewrite fmap_app. apply NoDup_app. split; [done|]. split; [done|]. apply NoDup_singleton.
      * done.
      * rewrite fmap_cons. by apply NoDup_cons.
    + rewrite wrap_small; rewrite !length_app in *; simpl in *; lia.
    + rewrite !length_app in *. simpl in *. lia.
    + rewrite Hhds. by rewrite !first_ptr_app.
    + rewrite Htlt, last_ptr_app, !last_ptr_cons.
      unfold last_ptr. by destruct (last ys).
    + apply dseg_app. rewrite last_ptr_snoc. simpl first_ptr. split.
      * apply dseg_insert_fresh.
        { intros Hin. apply (Hdisj y.1); [done|set_solver]. }
        apply dseg_set_next with None; [done|]. by apply dseg_snoc.
      * apply dseg_set_back with None; [done|].
        split.
        { unfold h1. rewrite lookup_insert_ne by done. exact Hy. }
        apply dseg_insert_fresh; [|done].
        intros Hin. apply (Hdisj x.1); [rewrite fmap_app; set_solver|set_solver].
  - by apply is_list_nil_iff.
  - intros a Ha Hb. unfold h2, h1.
    rewrite !lookup_insert_ne; [done|..].
    + intros <-. apply Ha. rewrite fmap_app. set_solver.
    + intros <-. apply Hb. set_solver.
Qed.
End reverse_append.


Section stack_facts.
Context {T : Type}.
Implicit Types (h : gmap positive (Node T)) (cells xs ys : list (addr * T)) (c : addr * T).

Lemma back_is_list h l cells c :
  is_list h l cells → last cells = Some c → OwnList.back l h = Ok (c.2, h).
Proof.
  intros (Hnd & Hlen & Hlt & Hhd & Htl & Hd) Hlast.
  destruct cells as [|x xs _] using rev_ind; [done|].
  rewrite last_snoc in Hlast. inversion Hlast; subst x.
  apply dseg_snoc in Hd as [_ Hc].
  unfold OwnList.back. rewrite Htl, last_ptr_snoc. mstep.
  by rewrite (value_Ok _ _ _ Hc).
Qed.

End stack_facts.


Section unlink_facts.
Context {T : Type}.
Implicit Types (h : gmap positive (Node T)) (cells xs ys : list (addr * T)) (c : addr * T).

Lemma NoDup_middle xs c ys :
  NoDup (xs ++ (c :: ys)).*1 →
  NoDup xs.*1 ∧ NoDup ys.*1 ∧ (c.1 ∉ xs.*1) ∧ (c.1 ∉ ys.*1) ∧ (∀ a, a ∈ xs.*1 → a ∉ ys.*1).
Proof.
  rewrite fmap_app, fmap_cons, NoDup_app, NoDup_cons.
  intros (Hxs & Hdisj & Hc & Hys). repeat split; try done.
  - intros Hin. apply (Hdisj _ Hin). set_solver.
  - intros a Ha Hin. apply (Hdisj _ Ha). set_solver.
Qed.

Lemma unlink_dseg h xs c ys :
  NoDup (xs ++ (c :: ys)).*1 →
  dseg h None (xs ++ c :: ys) None →
  ∃ h', unlink c.1 h = Ok (tt, h') ∧
        dseg h' None (xs ++ ys) None ∧
        h' !! c.1 = Some (mkNode c.2 None None) ∧
        (∀ a, a ∉ (xs ++ (c :: ys)).*1 → h' !! a = h !! a).
Proof.
  intros Hnd Hd.
  apply NoDup_middle in Hnd as (Hndx & Hndy & Hcx & Hcy & Hxy).
  pose proof (dseg_middle _ _ _ _ _ _ Hd) as Hc.
  apply dseg_app in Hd as [Hdx [_ Hdy]]. simpl first_ptr in Hdx.
  unfold unlink.
  destruct xs as [|p xs' _] using rev_ind; destruct ys as [|y ys'].
  - (* the only cell *)
    rewrite last_ptr_nil in Hc. simpl in *. eexists. split; [mrun|]. split; [done|]. split.
    + by rewrite lookup_insert_eq.
    + intros a Ha. rewrite !lookup_insert_ne; [done|set_solver..].
  - (* the first cell *)
    rewrite last_ptr_nil in Hc. simpl in Hc, Hcy. destruct Hdy as [Hy Hdy'].
    assert (c.1 ≠ y.1) as Hcy1 by set_solver.
    rewrite fmap_cons in Hndy. apply NoDup_cons in Hndy as [Hy_ys _].
    eexists. split; [mrun|]. split; [|split].
    + simpl. split.
      * rewrite !lookup_insert_ne by done. apply lookup_insert_eq.
      * do 3 (apply dseg_insert_fresh; [set_solver|]). done.
    + by rewrite lookup_insert_eq.
    + intros a Ha. rewrite !lookup_insert_ne; [done|set_solver..].
  - (* the last cell *)
    rewrite last_ptr_snoc in Hc. simpl in Hc.
    apply dseg_snoc in Hdx as [Hdx' Hp].
    assert (c.1 ≠ p.1) as Hcp by (rewrite fmap_app in Hcx; set_solver).
    rewrite fmap_app, NoDup_app in Hndx. destruct Hndx as (_ & Hp_xs & _).
    assert (p.1 ∉ xs'.*1) as Hp_nin by (intros Hin; apply (Hp_xs _ Hin); set_solver).
    eexists. split; [mrun|]. split; [|split].
    + rewrite app_nil_r. apply dseg_snoc. split.
      * do 3 (apply dseg_insert_fresh; [rewrite fmap_app in Hcx; set_solver|]). done.
      * rewrite !lookup_insert_ne by done. apply lookup_insert_eq.
    + by rewrite lookup_insert_eq.
    + intros a Ha. rewrite !lookup_insert_ne; [done|rewrite !fmap_app in Ha; set_solver..].
  - (* a cell with both neighbours *)
    rewrite last_ptr_snoc in Hc. simpl in Hc, Hcy.
    apply dseg_snoc in Hdx as [Hdx' Hp]. destruct Hdy as [Hy Hdy'].
    assert (c.1 ≠ p.1) as Hcp by (rewrite fmap_app in Hcx; set_solver).
    assert (c.1 ≠ y.1) as Hcy1 by set_solver.
    assert (p.1 ≠ y.1) as Hpy.
    { intros E. apply (Hxy p.1); [rewrite fmap_app; set_solver|rewrite E; set_solver]. }
    rewrite fmap_app, NoDup_app in Hndx. destruct Hndx as (_ & Hp_xs & _).
    assert (p.1 ∉ xs'.*1) as Hp_nin by (intros Hin; apply (Hp_xs _ Hin); set_solver).
    rewrite fmap_cons in Hndy. apply NoDup_cons in Hndy as [Hy_ys _].
    eexists. split; [mrun|]. split; [|split].
    + apply dseg_app. rewrite last_ptr_snoc. simpl first_ptr. split.
      * apply dseg_snoc. split.
        -- do 4 (apply dseg_insert_fresh;
                 [try (rewrite fmap_app in Hcx); try done; try set_solver|]); try done.
        -- rewrite !lookup_insert_ne by done. apply lookup_insert_eq.
      * simpl. split.
        -- rewrite !lookup_insert_ne by done. apply lookup_insert_eq.
        -- do 4 (apply dseg_insert_fresh;
                 [try done; try set_solver|]); try done.
    + by rewrite lookup_insert_eq.
    + intros a Ha. rewrite !lookup_insert_ne; [done|rewrite !fmap_app in Ha; set_solver..].
Qed.
End unlink_facts.


Section push_pop.
Context {T : Type}.
Implicit Types (h : gmap positive (Node T)) (cells xs ys : list (addr * T)) (c : addr * T).

Lemma fresh_not_in_cells h pp cells qn :
  dseg h pp cells qn → unused h ∉ cells.*1.
Proof.
  intros Hd Hin. destruct (dseg_is_Some _ _ _ _ _ Hd Hin) as [n Hn].
  by rewrite unused_lookup in Hn.
Qed.

Lemma last_ptr_nonempty cells d d' : cells ≠ [] → last_ptr cells d = last_ptr cells d'.
Proof.
  destruct cells as [|x xs _] using rev_ind; [done|]. intros _.
  by rewrite !last_ptr_snoc.
Qed.

Lemma first_ptr_nonempty cells d d' : cells ≠ [] → first_ptr cells d = first_ptr cells d'.
Proof. by destruct cells. Qed.

Lemma pushBack_is_list h l cells v :
  is_list h l cells → Z.of_nat (length cells) + 1 < usize_modulus →
  ∃ h' l', pushBack l v h = Ok (l', h') ∧
           is_list h' l' (cells ++ [(unused h, v)]) ∧
           (∀ a, a ≠ unused h → a ∉ cells.*1 → h' !! a = h !! a).
Proof.
  intros (Hnd & Hlen & Hlt & Hhd & Htl & Hd) Hroom.
  pose proof (fresh_not_in_cells _ _ _ _ Hd) as Hfresh.
  remember (unused h) as a eqn:Ea.
  assert (NoDup (cells ++ [(a, v)]).*1) as Hnd'.
  { rewrite fmap_app. apply NoDup_app. split; [done|]. split; [|apply NoDup_singleton].
    intros b Hb. simpl. intros Hin. apply list_elem_of_singleton in Hin. by subst. }
  unfold pushBack. rewrite Htl. mstep. rewrite <- Ea.
  destruct cells as [|x xs _] using rev_ind.
  - rewrite last_ptr_nil. mstep.
    eexists _, _. split; [reflexivity|]. split.
    + split_is_list.
      * done.
      * rewrite Hlen. by rewrite wrap_small.
      * simpl. lia.
      * done.
      * done.
      * cbn [dseg]. split; [|done]. apply lookup_insert_eq.
    + intros b Hb _. by rewrite lookup_insert_ne.
  - rewrite last_ptr_snoc in *. apply dseg_snoc in Hd as [Hdxs Hx].
    rewrite fmap_app in Hfresh, Hnd. simpl in Hfresh.
    assert (a ≠ x.1) as Hax by set_solver.
    apply NoDup_app in Hnd as (_ & Hx_xs & _).
    assert (x.1 ∉ xs.*1) as Hx_nin by (intros Hin; apply (Hx_xs _ Hin); set_solver).
    do 3 mstep.
    eexists _, _. split; [reflexivity|]. split.
    + split_is_list.
      * done.
      * rewrite Hlen, !length_app in *. simpl in *. rewrite wrap_small; lia.
      * rewrite !length_app in *. simpl in *. lia.
      * by rewrite Hhd, !first_ptr_app.
      * by rewrite last_ptr_snoc.
      * apply dseg_snoc. rewrite last_ptr_snoc. split.
        -- apply dseg_snoc. split.
           ++ do 2 (apply dseg_insert_fresh; [set_solver|]). done.
           ++ apply lookup_insert_eq.
        -- rewrite lookup_insert_ne by done. apply lookup_insert_eq.
    + intros b Hb Hb'. rewrite fmap_app in Hb'.
      rewrite !lookup_insert_ne; [done|set_solver..].
Qed.

Lemma pushFront_is_list h l cells v :
  is_list h l cells → Z.of_nat (length cells) + 1 < usize_modulus →
  ∃ h' l', pushFront l v h = Ok (l', h') ∧
           is_list h' l' ((unused h, v) :: cells) ∧
           (∀ a, a ≠ unused h → a ∉ cells.*1 → h' !! a = h !! a).
Proof.
  intros (Hnd & Hlen & Hlt & Hhd & Htl & Hd) Hroom.
  pose proof (fresh_not_in_cells _ _ _ _ Hd) as Hfresh.
  remember (unused h) as a eqn:Ea.
  assert (NoDup ((a, v) :: cells).*1) as Hnd'.
  { rewrite fmap_cons. by apply NoDup_cons. }
  unfold pushFront. rewrite Hhd. mstep. rewrite <- Ea.
  destruct cells as [|x xs].
  - simpl first_ptr. mstep.
    eexists _, _. split; [reflexivity|]. split.
    + split_is_list.
      * done.
      * rewrite Hlen. by rewrite wrap_small.
      * simpl. lia.
      * done.
      * done.
      * cbn [dseg]. split; [|done]. apply lookup_insert_eq.
    + intros b Hb _. by rewrite lookup_insert_ne.
  - simpl first_ptr. destruct Hd as [Hx Hdxs].
    rewrite fmap_cons in Hfresh, Hnd.
    assert (a ≠ x.1) as Hax by set_solver.
    apply NoDup_cons in Hnd as [Hx_nin _].
    do 3 mstep.
    eexists _, _. split; [reflexivity|]. split.
    + split_is_list.
      * done.
      * rewrite Hlen. simpl length in *. rewrite wrap_small; lia.
      * simpl length in *. lia.
      * done.
      * rewrite Htl. by rewrite !last_ptr_cons.
      * cbn [dseg first_ptr fst snd]. split; [lookup_store|]. split.
        -- apply lookup_insert_eq.
        -- do 2 (apply dseg_insert_fresh; [set_solver|]). done.
    + intros b Hb Hb'. rewrite fmap_cons in Hb'.
      rewrite !lookup_insert_ne; [done|set_solver..].
Qed.

Lemma popFront_is_list h l c ys :
  is_list h l (c :: ys) →
  ∃ h' l', popFront l h = Ok ((c.2, l'), h') ∧
           is_list h' l' ys ∧
           h' !! c.1 = None ∧
           (∀ a, a ∉ (c :: ys).*1 → h' !! a = h !! a).
Proof.
  intros (Hnd & Hlen & Hlt & Hhd & Htl & Hd).
  destruct (unlink_dseg h [] c ys Hnd Hd) as (h1 & Hun & Hd1 & Hc1 & Hframe).
  pose proof Hd as [Hc _].
  rewrite fmap_cons in Hnd. apply NoDup_cons in Hnd as [Hc_nin Hnd].
  unfold popFront. rewrite Hhd. simpl first_ptr. do 3 mstep.
  rewrite (bind_Ok _ _ _ _ _ Hun). mstep.
  eexists _, _. split; [reflexivity|]. split; [|split].
  - split_is_list.
    + done.
    + destruct (first_ptr ys None); cbn [_len]; rewrite Hlen;
        simpl length in *; rewrite wrap_small; lia.
    + simpl length in *. lia.
    + by destruct ys.
    + destruct ys as [|y ys']; [done|]. simpl first_ptr. cbn [tail].
      rewrite Htl, last_ptr_cons. by apply last_ptr_nonempty.
    + by apply dseg_delete_fresh.
  - apply lookup_delete_eq.
  - intros a Ha. rewrite lookup_delete_ne by set_solver. by apply Hframe.
Qed.

Lemma popBack_is_list h l xs c :
  is_list h l (xs ++ [c]) →
  ∃ h' l', popBack l h = Ok ((c.2, l'), h') ∧
           is_list h' l' xs ∧
           h' !! c.1 = None ∧
           (∀ a, a ∉ (xs ++ [c]).*1 → h' !! a = h !! a).
Proof.
  intros (Hnd & Hlen & Hlt & Hhd & Htl & Hd).
  destruct (unlink_dseg h xs c [] Hnd Hd) as (h1 & Hun & Hd1 & Hc1 & Hframe).
  rewrite app_nil_r in Hd1.
  pose proof (dseg_middle _ _ _ _ _ _ Hd) as Hc. simpl in Hc.
  rewrite fmap_app in Hnd. apply NoDup_app in Hnd as (Hnd & Hc_xs & _).
  assert (c.1 ∉ xs.*1) as Hc_nin by (intros Hin; apply (Hc_xs _ Hin); set_solver).
  unfold popBack. rewrite Htl, last_ptr_snoc. do 3 mstep.
  rewrite (bind_Ok _ _ _ _ _ Hun). mstep.
  eexists _, _. split; [reflexivity|]. split; [|split].
  - split_is_list.
    + done.
    + destruct (last_ptr xs None); cbn [_len]; rewrite Hlen, length_app in *;
        simpl length in *; rewrite wrap_small; lia.
    + rewrite length_app in *. simpl length in *. lia.
    + destruct xs as [|x xs']; [done|]. rewrite Hhd.
      destruct (last_ptr (x :: xs') None) eqn:E; [done|].
      rewrite last_ptr_cons in E. unfold last_ptr in E. by destruct (last xs').
    + by destruct (last_ptr xs None).
    + by apply dseg_delete_fresh.
  - apply lookup_delete_eq.
  - intros a Ha. rewrite lookup_delete_ne by (rewrite fmap_app in Ha; set_solver).
    by apply Hframe.
Qed.
End push_pop.


Section link_facts.
Context {T : Type}.
Implicit Types (h : gmap positive (Node T)) (cells xs ys : list (addr * T)) (c : addr * T).

Lemma not_elem_of_middle (a : addr) xs c ys :
  a ∉ (xs ++ (c :: ys)).*1 ↔ (a ∉ xs.*1) ∧ a ≠ c.1 ∧ (a ∉ ys.*1).
Proof.
  rewrite fmap_app, fmap_cons, elem_of_app, elem_of_cons. tauto.
Qed.

Lemma linkBack_dseg h xs c ys n v :
  NoDup (xs ++ (c :: ys)).*1 →
  dseg h None (xs ++ c :: ys) None →
  n ∉ (xs ++ (c :: ys)).*1 →
  h !! n = Some (mkNode v None None) →
  ∃ h', linkBack c.1 (Some n) h = Ok (tt, h') ∧
        dseg h' None (xs ++ (n, v) :: c :: ys) None ∧
        (∀ a, a ∉ (xs ++ (c :: ys)).*1 → a ≠ n → h' !! a = h !! a).
Proof.
  intros Hnd Hd Hn Hhn.
  apply NoDup_middle in Hnd as (Hndx & Hndy & Hcx & Hcy & Hxy).
  apply not_elem_of_middle in Hn as (Hnx & Hnc & Hny).
  pose proof (dseg_middle _ _ _ _ _ _ Hd) as Hc.
  apply dseg_app in Hd as [Hdx [_ Hdy]]. simpl first_ptr in Hdx.
  unfold linkBack. destruct (decide (n = c.1)) as [|_]; [done|]. unfold unlink.
  destruct xs as [|p xs' _] using rev_ind.
  - rewrite last_ptr_nil in Hc.
    eexists. split; [mrun|]. split.
    + cbn [app dseg first_ptr fst snd]. split; [lookup_store|]. split; [lookup_store|].
      do 4 (apply dseg_insert_fresh; [done|]). done.
    + intros a Ha Han. apply not_elem_of_middle in Ha as (_ & Hac & _).
      by rewrite !lookup_insert_ne.
  - rewrite last_ptr_snoc in Hc.
    apply dseg_snoc in Hdx as [Hdx' Hp].
    rewrite fmap_app in Hcx, Hnx, Hndx. 
    apply not_elem_of_app in Hcx as [Hcx Hcp]. apply not_elem_of_app in Hnx as [Hnx Hnp].
    assert (c.1 ≠ p.1) as Hcp' by set_solver.
    assert (n ≠ p.1) as Hnp' by set_solver.
    apply NoDup_app in Hndx as (_ & Hp_xs & _).
    assert (p.1 ∉ xs'.*1) as Hp_nin by (intros Hin; apply (Hp_xs _ Hin); set_solver).
    eexists. split; [mrun|]. split.
    + rewrite <- app_assoc. apply dseg_app. split.
      * cbn [app first_ptr fst].
        do 6 (apply dseg_insert_fresh; [done|]). done.
      * assert (p.1 ∉ ys.*1) as Hpy.
        { apply Hxy. rewrite fmap_app. set_solver. }
        cbn [app dseg first_ptr fst snd].
        split; [lookup_store|]. split; [lookup_store|]. split; [lookup_store|].
        do 6 (apply dseg_insert_fresh; [done|]). done.
    + intros a Ha Han. apply not_elem_of_middle in Ha as (Hax & Hac & _).
      rewrite fmap_app in Hax. apply not_elem_of_app in Hax as [_ Hap].
      rewrite !lookup_insert_ne; [done|set_solver..].
Qed.

Lemma linkNext_dseg h xs c ys n v :
  NoDup (xs ++ (c :: ys)).*1 →
  dseg h None (xs ++ c :: ys) None →
  n ∉ (xs ++ (c :: ys)).*1 →
  h !! n = Some (mkNode v None None) →
  ∃ h', linkNext c.1 (Some n) h = Ok (tt, h') ∧
        dseg h' None (xs ++ c :: (n, v) :: ys) None ∧
        (∀ a, a ∉ (xs ++ (c :: ys)).*1 → a ≠ n → h' !! a = h !! a).
Proof.
  intros Hnd Hd Hn Hhn.
  apply NoDup_middle in Hnd as (Hndx & Hndy & Hcx & Hcy & Hxy).
  apply not_elem_of_middle in Hn as (Hnx & Hnc & Hny).
  pose proof (dseg_middle _ _ _ _ _ _ Hd) as Hc.
  apply dseg_app in Hd as [Hdx [_ Hdy]]. simpl first_ptr in Hdx.
  unfold linkNext. destruct (decide (n = c.1)) as [|_]; [done|]. unfold unlink.
  destruct ys as [|y ys'].
  - simpl first_ptr in Hc.
    eexists. split; [mrun|]. split.
    + apply dseg_app. split.
      * cbn [first_ptr fst]. do 4 (apply dseg_insert_fresh; [done|]). done.
      * cbn [dseg first_ptr fst snd]. split; [lookup_store|]. split; [lookup_store|]. done.
    + intros a Ha Han. apply not_elem_of_middle in Ha as (_ & Hac & _).
      by rewrite !lookup_insert_ne.
  - simpl first_ptr in Hc. destruct Hdy as [Hy Hdy'].
    rewrite fmap_cons in Hcy, Hny, Hndy.
    apply not_elem_of_cons in Hcy as [Hcy1 Hcy]. apply not_elem_of_cons in Hny as [Hny1 Hny].
    apply NoDup_cons in Hndy as [Hy_nin _].
    assert (y.1 ∉ xs.*1) as Hyx.
    { intros Hin. apply (Hxy _ Hin). set_solver. }
    eexists. split; [mrun|]. split.
    + apply dseg_app. split.
      * cbn [first_ptr fst]. do 6 (apply dseg_insert_fresh; [done|]). done.
      * cbn [dseg first_ptr fst snd].
        split; [lookup_store|]. split; [lookup_store|]. split; [lookup_store|].
        do 6 (apply dseg_insert_fresh; [done|]). done.
    + intros a Ha Han. apply not_elem_of_middle in Ha as (_ & Hac & Hay).
      rewrite fmap_cons in Hay. apply not_elem_of_cons in Hay as [Hay _].
      by rewrite !lookup_insert_ne.
Qed.
End link_facts.


Section insert_remove.
Context {T : Type}.
Implicit Types (h : gmap positive (Node T)) (cells xs ys : list (addr * T)) (c : addr * T).

Lemma insert_at_0 c cells : insert_at 0 c cells = c :: cells.
Proof. unfold insert_at. by rewrite take_0, drop_0. Qed.

Lemma insert_at_length c cells : insert_at (length cells) c cells = cells ++ [c].
Proof. unfold insert_at. by rewrite take_ge, drop_ge by lia. Qed.

Lemma is_list_middle h l cells (i : nat) c :
  is_list h l cells → cells !! i = Some c →
  cells = take i cells ++ c :: drop (S i) cells ∧
  NoDup (take i cells ++ (c :: drop (S i) cells)).*1 ∧
  dseg h None (take i cells ++ c :: drop (S i) cells) None.
Proof.
  intros (Hnd & _ & _ & _ & _ & Hd) Hi.
  pose proof (take_drop_middle _ _ _ Hi) as E.
  split; [done|]. by rewrite E.
Qed.

Lemma insert_is_list h l cells v at_ backwarded :
  is_list h l cells → Z.of_nat (length cells) + 1 < usize_modulus → 0 ≤ at_ →
  ∃ h' l',
    insert l v at_ backwarded h = Ok (l', h') ∧
    is_list h' l'
      (insert_at (Z.to_nat (insert_position backwarded at_ (_len l))) (unused h, v) cells) ∧
    (∀ a, a ≠ unused h → a ∉ cells.*1 → h' !! a = h !! a).
Proof.
  intros Hl Hroom Hat0.
  pose proof Hl as (Hnd & Hlen & Hlt & Hhd & Htl & Hd).
  unfold insert, insert_position. rewrite Hlen.
  destruct ((at_ =? 0) && backwarded) eqn:E1.
  { apply andb_true_iff in E1 as [E1 ->]. apply Z.eqb_eq in E1 as ->.
    destruct (pushFront_is_list h l cells v Hl Hroom) as (h' & l' & Hrun & Hl' & Hfr).
    exists h', l'. split; [done|]. split; [|done].
    destruct (Z.geb_spec 0 (Z.of_nat (length cells))).
    - destruct cells; [|simpl in *; lia]. by rewrite insert_at_0.
    - by rewrite insert_at_0. }
  destruct (Z.geb_spec at_ (Z.of_nat (length cells))) as [Hge|Hlt'].
  { destruct (pushBack_is_list h l cells v Hl Hroom) as (h' & l' & Hrun & Hl' & Hfr).
    exists h', l'. split; [done|]. split; [|done].
    by rewrite Nat2Z.id, insert_at_length. }
  rewrite (wrap_small (Z.of_nat (length cells) - 1)) by lia.
  destruct ((at_ =? Z.of_nat (length cells) - 1) && negb backwarded) eqn:E3.
  { apply andb_true_iff in E3 as [E3 Hb]. apply Z.eqb_eq in E3.
    apply negb_true_iff in Hb as ->.
    destruct (pushBack_is_list h l cells v Hl Hroom) as (h' & l' & Hrun & Hl' & Hfr).
    exists h', l'. split; [done|]. split; [|done].
    replace (Z.to_nat (at_ + 1)) with (length cells) by lia.
    by rewrite insert_at_length. }
  destruct (lookup_lt_is_Some_2 cells (Z.to_nat at_)) as [c Hc]; [lia|].
  pose proof (atNode_is_list _ _ _ _ _ Hl Hat0 Hc) as HatNode.
  destruct (is_list_middle _ _ _ _ _ Hl Hc) as (Ecells & Hndm & Hdm).
  pose proof (fresh_not_in_cells _ _ _ _ Hd) as Hfresh.
  assert (length cells =
          (length (take (Z.to_nat at_) cells) + S (length (drop (S (Z.to_nat at_)) cells)))%nat)
    as Hsplit.
  { rewrite Ecells at 1. by rewrite length_app. }
  remember (unused h) as n eqn:En.
  set (h1 := <[n := mkNode v None None]> h).
  assert (dseg h1 None (take (Z.to_nat at_) cells ++ c :: drop (S (Z.to_nat at_)) cells) None)
    as Hdm1.
  { apply dseg_insert_fresh; [by rewrite <- Ecells|done]. }
  assert (h1 !! n = Some (mkNode v None None)) as Hn1 by apply lookup_insert_eq.
  assert (n ∉ (take (Z.to_nat at_) cells ++ (c :: drop (S (Z.to_nat at_)) cells)).*1) as Hn.
  { by rewrite <- Ecells. }
  rewrite (bind_Ok _ _ _ _ _ HatNode). do 2 mstep. rewrite <- En. fold h1.
  destruct backwarded.
  - (* the new cell goes before the one at [at_] *)
    destruct (linkBack_dseg h1 _ _ _ n v Hndm Hdm1 Hn Hn1) as (h' & Hrun & Hd' & Hfr).
    rewrite (bind_Ok _ _ _ _ _ Hrun).
    eexists _, _. split; [reflexivity|]. split.
    + assert (at_ ≠ 0) as Hne.
      { intros ->. by rewrite Z.eqb_refl in E1. }
      unfold insert_at.
      rewrite (drop_S _ _ _ Hc).
      split_is_list.
      * rewrite fmap_app, !fmap_cons. rewrite fmap_app, fmap_cons in Hndm, Hn.
        apply NoDup_app in Hndm as (Hx & Hxy & Hy).
        apply NoDup_app. split; [done|]. split.
        -- intros a Ha Hin. apply elem_of_cons in Hin as [->|Hin]; [|by apply (Hxy a)].
           apply Hn. apply elem_of_app. by left.
        -- apply NoDup_cons. split; [|done]. intros Hin. apply Hn.
           apply elem_of_app. by right.
      * rewrite wrap_small by lia. rewrite length_app. simpl length. lia.
      * rewrite length_app. simpl length. lia.
      * rewrite Hhd. rewrite Ecells at 1. rewrite !first_ptr_app.
        destruct (take (Z.to_nat at_) cells) eqn:Et; [|done].
        apply (f_equal length) in Et. rewrite length_take in Et. simpl in Et. lia.
      * rewrite Htl. rewrite Ecells at 1. rewrite !last_ptr_app, !last_ptr_cons. done.
      * done.
    + intros a Ha Hin. rewrite Hfr; [|by rewrite <- Ecells|done].
      unfold h1. by rewrite lookup_insert_ne.
  - (* the new cell goes after the one at [at_] *)
    destruct (linkNext_dseg h1 _ _ _ n v Hndm Hdm1 Hn Hn1) as (h' & Hrun & Hd' & Hfr).
    rewrite (bind_Ok _ _ _ _ _ Hrun).
    eexists _, _. split; [reflexivity|]. split.
    + assert (at_ ≠ Z.of_nat (length cells) - 1) as Hne.
      { intros ->. by rewrite Z.eqb_refl in E3. }
      unfold insert_at.
      replace (Z.to_nat (at_ + 1)) with (S (Z.to_nat at_)) by lia.
      rewrite (take_S_r _ _ _ Hc), <- app_assoc. cbn [app].
      split_is_list.
      * rewrite fmap_app, !fmap_cons. rewrite fmap_app, fmap_cons in Hndm, Hn.
        apply NoDup_app in Hndm as (Hx & Hxy & Hy).
        apply NoDup_cons in Hy as [Hcy Hy].
        apply NoDup_app. split; [done|]. split.
        -- intros a Ha Hin. apply elem_of_cons in Hin as [->|Hin].
           { apply (Hxy c.1 Ha). by left. }
           apply elem_of_cons in Hin as [->|Hin].
           { apply Hn. apply elem_of_app. by left. }
           apply (Hxy a Ha). by right.
        -- apply NoDup_cons. split.
           { intros Hin. apply elem_of_cons in Hin as [E|Hin]; [|done].
             apply Hn. apply elem_of_app. right. simpl in E. rewrite <- E. by left. }
           apply NoDup_cons. split; [|done].
           intros Hin. apply Hn. apply elem_of_app. right. by right.
      * rewrite wrap_small by lia. rewrite length_app. simpl length. lia.
      * rewrite length_app. simpl length. lia.
      * rewrite Hhd. rewrite Ecells at 1. by rewrite !first_ptr_app.
      * rewrite Htl. rewrite Ecells at 1. rewrite !last_ptr_app, !last_ptr_cons.
        destruct (drop (S (Z.to_nat at_)) cells) eqn:Ed; [|by rewrite !last_ptr_cons].
        apply (f_equal length) in Ed. rewrite length_drop in Ed. simpl in Ed. lia.
      * done.
    + intros a Ha Hin. rewrite Hfr; [|by rewrite <- Ecells|done].
      unfold h1. by rewrite lookup_insert_ne.
Qed.

Lemma remove_is_list h l cells at_ :
  is_list h l cells → cells ≠ [] → 0 ≤ at_ →
  ∃ c h' l',
    cells !! Z.to_nat (Z.min at_ (_len l - 1)) = Some c ∧
    remove l at_ h =
      Ok ((if (at_ =? 0) || (at_ >=? _len l - 1) then None else Some c.2, l'), h') ∧
    is_list h' l' (delete (Z.to_nat (Z.min at_ (_len l - 1))) cells) ∧
    h' !! c.1 = None.
Proof.
  intros Hl Hne Hat0.
  pose proof Hl as (Hnd & Hlen & Hlt & Hhd & Htl & Hd).
  assert (0 < Z.of_nat (length cells)) as Hpos by (destruct cells; [done|simpl; lia]).
  unfold remove. rewrite Hlen. rewrite (wrap_small (Z.of_nat (length cells) - 1)) by lia.
  destruct (Z.eqb_spec at_ 0) as [->|Hne0].
  { destruct cells as [|c ys]; [done|].
    destruct (popFront_is_list h l c ys Hl) as (h' & l' & Hrun & Hl' & Hgone & _).
    exists c, h', l'. rewrite Z.min_l by lia. split; [done|]. split; [|done].
    by rewrite (bind_Ok _ _ _ _ _ Hrun). }
  destruct (Z.geb_spec at_ (Z.of_nat (length cells) - 1)) as [Hge|Hlt'].
  { destruct cells as [|c xs _] using rev_ind; [done|].
    destruct (popBack_is_list h l xs c Hl) as (h' & l' & Hrun & Hl' & Hgone & _).
    exists c, h', l'. rewrite Z.min_r by lia.
    replace (Z.to_nat (Z.of_nat (length (xs ++ [c])) - 1)) with (length xs + 0)%nat
      by (rewrite length_app; simpl; lia).
    split; [by rewrite lookup_app_r, Nat.add_0_r, Nat.sub_diag by lia|].
    split; [by rewrite (bind_Ok _ _ _ _ _ Hrun)|]. split; [|done].
    rewrite delete_take_drop, take_app_length', drop_ge; [by rewrite app_nil_r| |lia].
    rewrite length_app. simpl. lia. }
  rewrite Z.min_l by lia.
  destruct (lookup_lt_is_Some_2 cells (Z.to_nat at_)) as [c Hc]; [lia|].
  pose proof (atNode_is_list _ _ _ _ _ Hl Hat0 Hc) as HatNode.
  destruct (is_list_middle _ _ _ _ _ Hl Hc) as (Ecells & Hndm & Hdm).
  destruct (unlink_dseg h _ c _ Hndm Hdm) as (h1 & Hun & Hd1 & Hc1 & Hframe).
  pose proof (dseg_middle _ _ _ _ _ _ Hdm) as Hnode.
  assert (length cells =
          (length (take (Z.to_nat at_) cells) + S (length (drop (S (Z.to_nat at_)) cells)))%nat)
    as Hsplit.
  { rewrite Ecells at 1. by rewrite length_app. }
  apply NoDup_middle in Hndm as (Hndx & Hndy & Hcx & Hcy & Hxy).
  exists c. eexists _, _. split; [done|]. split; [|split].
  - rewrite (bind_Ok _ _ _ _ _ HatNode). do 2 mstep.
    rewrite (bind_Ok _ _ _ _ _ Hun). mstep. reflexivity.
  - rewrite delete_take_drop. split_is_list.
    + rewrite fmap_app. apply NoDup_app. done.
    + rewrite length_app. lia.
    + rewrite length_app. lia.
    + rewrite Hhd. rewrite Ecells at 1. rewrite !first_ptr_app.
      destruct (take (Z.to_nat at_) cells) eqn:Et; [|done].
      apply (f_equal length) in Et. rewrite length_take in Et. simpl in Et. lia.
    + rewrite Htl. rewrite Ecells at 1. rewrite !last_ptr_app, last_ptr_cons.
      destruct (drop (S (Z.to_nat at_)) cells) eqn:Ed; [|by rewrite !last_ptr_cons].
      apply (f_equal length) in Ed. rewrite length_drop in Ed. simpl in Ed. lia.
    + apply dseg_delete_fresh; [|done].
      rewrite fmap_app. by apply not_elem_of_app.
  - apply lookup_delete_eq.
Qed.
End insert_remove.


Section stream_facts.
Import Streams.
Context {T : Type} `{Streamable T}.
Implicit Types (h : gmap positive (Node T)) (cells xs ys : list (addr * T)) (c : addr * T).

Lemma stream_insert_loop_dseg h pp cells fuel out :
  dseg h pp cells None → (length cells ≤ fuel)%nat →
  stream_insert_loop fuel out (first_ptr cells None) h =
  Ok (out ++ concat (map (λ x, [","; " "]%char ++ put_value x) cells.*2), h).
Proof.
  revert pp fuel out. induction cells as [|c rest IH]; intros pp fuel out Hd Hf.
  { destruct fuel; simpl; by rewrite app_nil_r. }
  destruct fuel as [|fuel]; [simpl in Hf; lia|].
  destruct Hd as [Hc Hrest]. cbn [stream_insert_loop first_ptr]. do 2 mstep.
  erewrite IH; [|done|simpl in Hf; lia].
  rewrite fmap_cons. cbn [map concat fst snd]. by rewrite <- !app_assoc.
Qed.

Lemma stream_insert_is_list h l cells fuel out :
  is_list h l cells → (length cells ≤ fuel)%nat →
  stream_insert fuel out l h = Ok (out ++ render cells.*2, h).
Proof.
  intros (Hnd & Hlen & Hlt & Hhd & Htl & Hd) Hf.
  unfold stream_insert, len, front, render. rewrite Hlen, Hhd.
  destruct cells as [|c rest].
  { simpl. mstep. unfold mret, M_ret, ret. by rewrite <- app_assoc. }
  destruct (Z.gtb_spec (Z.of_nat (length (c :: rest))) 0) as [_|Hle];
    [|simpl in Hle; lia].
  destruct Hd as [Hc Hrest]. cbn [first_ptr]. repeat mstep.
  rewrite (bind_Ok _ _ _ _ _
             (stream_insert_loop_dseg h (Some c.1) rest fuel _ Hrest ltac:(simpl in Hf; lia))).
  unfold mret, M_ret, ret. rewrite fmap_cons. cbn [fst snd].
  by rewrite <- !app_assoc.
Qed.

Lemma skipws_plain ch s : isspace ch = false → skipws (ch :: s) = ch :: s.
Proof. intros E. simpl. by rewrite E. Qed.

Lemma stream_extract_render h v vs ch rest fuel :
  put_value v = ch :: rest →
  isspace ch = false → ch ≠ ","%char → ch ≠ "]"%char →
  ∃ i', stream_extract fuel (mkIstream (render (v :: vs)) false false) List_new h =
        Ok ((i', List_new), h).
Proof.
  intros Hput Hsp Hcomma Hclose.
  unfold stream_extract, render. rewrite Hput.
  cbn [app]. unfold get_char at 1. cbn [good eofbit failbit negb andb buf].
  rewrite skipws_plain by done. cbn [fail failbit orb].
  change (Ascii.eqb "[" "[") with true. cbn [negb].
  unfold get_char at 1. cbn [good eofbit failbit negb andb buf].
  rewrite skipws_plain by done. cbn [fail failbit orb].
  destruct (Ascii.eqb_spec ch "]") as [|_]; [done|].
  assert (∀ i, stream_extract_loop fuel ch i List_new h = Ok ((ch, i, List_new), h))
    as Hloop.
  { intros i. assert (Ascii.eqb ch "," = false) as E by (by apply Ascii.eqb_neq).
    destruct fuel; simpl; by rewrite E. }
  rewrite (bind_Ok _ _ _ _ _ (Hloop _)).
  destruct (get_char ch _) as [ch' i4].
  destruct (fail i4 || negb (Ascii.eqb ch' "[")); eauto.
Qed.

Lemma stream_extract_empty h fuel :
  stream_extract fuel (mkIstream (render []) false false) List_new h =
  Ok ((mkIstream [] false false, List_new), h).
Proof. reflexivity. Qed.
End stream_facts.


Section invariant_facts.
Context {T : Type}.
Implicit Types (h : gmap positive (Node T)) (cells xs ys : list (addr * T)) (c : addr * T).

Lemma invariant_head_allocated h l a :
  invariant h l → head l = Some a → is_Some (h !! a).
Proof.
  intros (cells & Hnd & Hlen & Hlt & Hhd & Htl & Hd) Ha.
  rewrite Ha in Hhd. destruct cells as [|c rest]; [done|].
  simpl in Hhd. inversion Hhd; subst a. destruct Hd as [Hc _]. eauto.
Qed.

Lemma invariant_tail_allocated h l a :
  invariant h l → tail l = Some a → is_Some (h !! a).
Proof.
  intros (cells & Hnd & Hlen & Hlt & Hhd & Htl & Hd) Ha.
  rewrite Ha in Htl. destruct cells as [|c rest _] using rev_ind; [done|].
  rewrite last_ptr_snoc in Htl. inversion Htl; subst a.
  apply dseg_snoc in Hd as [_ Hc]. eauto.
Qed.

Lemma invariant_tail_absent h l : invariant h l → tail l = None → _len l = 0.
Proof.
  intros (cells & Hnd & Hlen & Hlt & Hhd & Htl & Hd) Ha.
  rewrite Ha in Htl. destruct cells as [|c rest _] using rev_ind; [done|].
  by rewrite last_ptr_snoc in Htl.
Qed.

(** Walking [next] from a node reads off the cells: two chains that start
    at the same node and both end with [next] absent are the same chain. *)
Lemma dseg_functional h pp pp' xs ys :
  dseg h pp xs None → dseg h pp' ys None →
  first_ptr xs None = first_ptr ys None → xs = ys.
Proof.
  revert pp pp' ys. induction xs as [|x xs IH]; intros pp pp' ys Hx Hy Hfirst.
  { by destruct ys. }
  destruct ys as [|y ys]; [done|].
  destruct Hx as [Hx Hxs], Hy as [Hy Hys].
  simpl in Hfirst. inversion Hfirst as [E]. rewrite E, Hy in Hx.
  inversion Hx as [[Ev Epp Enext]].
  rewrite (IH _ _ ys Hxs Hys) by done.
  f_equal. destruct x, y; simpl in *; congruence.
Qed.
End invariant_facts.


Section models.
Context {T : Type}.
Implicit Types (h : gmap positive (Node T)) (cells xs ys : list (addr * T)) (c : addr * T).

Lemma store_of_lookup_fresh pp cells a :
  a ∉ cells.*1 → store_of pp cells !! a = None.
Proof.
  revert pp. induction cells as [|c rest IH]; intros pp Ha; [done|].
  rewrite fmap_cons in Ha. apply not_elem_of_cons in Ha as [Hac Ha].
  simpl. rewrite lookup_insert_ne by done. by apply IH.
Qed.

Lemma store_of_dseg pp cells :
  NoDup cells.*1 → dseg (store_of pp cells) pp cells None.
Proof.
  revert pp. induction cells as [|c rest IH]; intros pp Hnd; [done|].
  rewrite fmap_cons in Hnd. apply NoDup_cons in Hnd as [Hc Hnd].
  cbn [store_of dseg]. split; [apply lookup_insert_eq|].
  apply dseg_insert_fresh; [done|]. by apply IH.
Qed.

Lemma store_of_is_list cells :
  NoDup cells.*1 → Z.of_nat (length cells) < usize_modulus →
  is_list (store_of None cells) (list_of cells) cells.
Proof.
  intros Hnd Hlt. split_is_list; try done. by apply store_of_dseg.
Qed.

(** A list stays well-formed when the store grows or changes away from
    its cells. *)
Lemma is_list_ext h h' l cells :
  (∀ a, a ∈ cells.*1 → h' !! a = h !! a) → is_list h l cells → is_list h' l cells.
Proof.
  intros Hext (Hnd & Hlen & Hlt & Hhd & Htl & Hd).
  split_is_list; try done. by apply dseg_ext with h.
Qed.

Lemma is_list_union_l h1 h2 l cells :
  is_list h1 l cells → is_list (h1 ∪ h2) l cells.
Proof.
  intros Hl. apply is_list_ext with h1; [|done].
  intros a Ha. destruct Hl as (_ & _ & _ & _ & _ & Hd).
  destruct (dseg_is_Some _ _ _ _ _ Hd Ha) as [n Hn].
  rewrite Hn. by apply lookup_union_Some_l.
Qed.

Lemma is_list_union_r h1 h2 l cells :
  (∀ a, a ∈ cells.*1 → h1 !! a = None) →
  is_list h2 l cells → is_list (h1 ∪ h2) l cells.
Proof.
  intros Hfree Hl. apply is_list_ext with h2; [|done].
  intros a Ha. by apply lookup_union_r, Hfree.
Qed.
End models.


Section filter_facts.
Context {T : Type}.
Implicit Types (h : gmap positive (Node T)) (cells xs ys ks rs : list (addr * T)).
Implicit Types (c : addr * T) (p : T → bool).

Lemma wrap_pred_sub a k : wrap (wrap (a - 1) - k) = wrap (a - (1 + k)).
Proof. unfold wrap. rewrite Zminus_mod_idemp_l. f_equal. lia. Qed.

Lemma removeIf_loop_dseg p h l ks rs fuel :
  NoDup (ks ++ rs).*1 → dseg h None (ks ++ rs) None → (length rs ≤ fuel)%nat →
  0 ≤ _len l < usize_modulus →
  ∃ h',
    removeIf_loop fuel p l (first_ptr rs None) h =
      Ok (mkList (wrap (_len l - Z.of_nat (length (removed p rs)))) (head l) (tail l), h') ∧
    dseg h' None (ks ++ kept p rs) None ∧
    (∀ c, c ∈ rs → p c.2 = true → h' !! c.1 = None) ∧
    (∀ a, a ∉ ks.*1 → a ∉ rs.*1 → h' !! a = h !! a).
Proof.
  revert h l ks fuel. induction rs as [|c rs IH]; intros h l ks fuel Hnd Hd Hf Hlen.
  { exists h. split; [|split; [done|split; [|done]]].
    - destruct fuel; simpl; rewrite Z.sub_0_r, wrap_small by done; by destruct l.
    - intros c Hc. by apply elem_of_nil in Hc. }
  destruct fuel as [|fuel]; [simpl in Hf; lia|].
  pose proof (dseg_middle _ _ _ _ _ _ Hd) as Hc.
  cbn [removeIf_loop first_ptr]. mstep.
  unfold removed, kept. cbn [List.filter].
  destruct (p c.2) eqn:Hp; cbn [negb].
  - (* the node is unlinked and deleted *)
    destruct (unlink_dseg h ks c rs Hnd Hd) as (h1 & Hun & Hd1 & Hc1 & Hfr1).
    apply NoDup_middle in Hnd as (Hndk & Hndr & Hck & Hcr & Hkr).
    destruct (IH (delete c.1 h1) (mkList (wrap (_len l - 1)) (head l) (tail l)) ks fuel)
      as (h' & Hrun & Hd' & Hgone & Hfr').
    { rewrite fmap_app. apply NoDup_app. done. }
    { apply dseg_delete_fresh; [|done]. rewrite fmap_app. by apply not_elem_of_app. }
    { simpl in Hf. lia. }
    { apply wrap_range. }
    exists h'. split; [|split; [|split]].
    + mstep. rewrite (bind_Ok _ _ _ _ _ Hun). mstep. rewrite Hrun.
      cbn [_len head tail length]. rewrite wrap_pred_sub. unfold removed. do 4 f_equal. lia.
    + done.
    + intros c' Hc' Hp'. apply elem_of_cons in Hc' as [->|Hc']; [|by apply Hgone].
      rewrite Hfr' by done. apply lookup_delete_eq.
    + intros a Hak Ha. rewrite fmap_cons in Ha. apply not_elem_of_cons in Ha as [Hac Ha].
      rewrite Hfr' by done. rewrite lookup_delete_ne by done.
      apply Hfr1. by apply not_elem_of_middle.
  - (* the node stays *)
    destruct (IH h l (ks ++ [c]) fuel) as (h' & Hrun & Hd' & Hgone & Hfr').
    { by rewrite <- app_assoc. }
    { by rewrite <- app_assoc. }
    { simpl in Hf. lia. }
    { done. }
    exists h'. split; [|split; [|split]].
    + mstep. exact Hrun.
    + by rewrite <- app_assoc in Hd'.
    + intros c' Hc' Hp'. apply elem_of_cons in Hc' as [->|Hc']; [congruence|by apply Hgone].
    + intros a Hak Ha. rewrite fmap_cons in Ha. apply not_elem_of_cons in Ha as [Hac Ha].
      apply Hfr'; [|done]. rewrite fmap_app. apply not_elem_of_app. split; [done|].
      apply not_elem_of_cons. split; [done|]. apply not_elem_of_nil.
Qed.

Lemma removed_kept_length p cells :
  (length (removed p cells) + length (kept p cells))%nat = length cells.
Proof.
  unfold removed, kept. induction cells as [|c rest IH]; [done|].
  cbn [List.filter]. destruct (p c.2); simpl; lia.
Qed.

Lemma kept_subset p cells a : a ∈ (kept p cells).*1 → a ∈ cells.*1.
Proof.
  unfold kept. induction cells as [|c rest IH]; [done|].
  cbn [List.filter]. rewrite fmap_cons.
  destruct (p c.2); simpl; rewrite ?fmap_cons, ?elem_of_cons; intros Ha.
  - right. by apply IH.
  - destruct Ha as [->|Ha]; [by left|right; by apply IH].
Qed.

Lemma kept_NoDup p cells : NoDup cells.*1 → NoDup (kept p cells).*1.
Proof.
  induction cells as [|c rest IH]; [done|].
  rewrite fmap_cons. intros [Hc Hnd]%NoDup_cons.
  unfold kept. cbn [List.filter]. destruct (p c.2); simpl; [by apply IH|].
  rewrite ?fmap_cons. apply NoDup_cons. split; [|by apply IH].
  intros Hin. by apply Hc, (kept_subset p).
Qed.

Lemma kept_snoc p xs c : kept p (xs ++ [c]) = kept p xs ++ (if p c.2 then [] else [c]).
Proof. unfold kept. rewrite List.filter_app. simpl. by destruct (p c.2). Qed.

Lemma removeIf_is_list p h l cells fuel :
  is_list h l cells → (length cells ≤ fuel)%nat →
  ∃ h' l',
    removeIf fuel p l h = Ok ((Z.of_nat (length (removed p cells)), l'), h') ∧
    _len l' = Z.of_nat (length (kept p cells)) ∧
    head l' = head l ∧ tail l' = tail l ∧
    NoDup (kept p cells).*1 ∧
    dseg h' None (kept p cells) None ∧
    (∀ c, c ∈ cells → p c.2 = true → h' !! c.1 = None) ∧
    (∀ a, a ∉ cells.*1 → h' !! a = h !! a).
Proof.
  intros (Hnd & Hlen & Hlt & Hhd & Htl & Hd) Hf.
  destruct (removeIf_loop_dseg p h l [] cells fuel) as (h' & Hrun & Hd' & Hgone & Hfr);
    [done|done|done|lia|].
  pose proof (removed_kept_length p cells) as Hsum.
  eexists _, _. split; [|split; [|split; [|split; [|split; [|split; [|split]]]]]].
  - unfold removeIf. rewrite Hhd, (bind_Ok _ _ _ _ _ Hrun).
    unfold mret, M_ret, ret. cbn [_len]. do 3 f_equal.
    rewrite Hlen.
    rewrite (wrap_small (Z.of_nat (length cells) - Z.of_nat (length (removed p cells)))) by lia.
    rewrite wrap_small; lia.
  - cbn [_len]. rewrite Hlen, wrap_small; lia.
  - done.
  - done.
  - by apply kept_NoDup.
  - done.
  - done.
  - intros a Ha. apply Hfr; [apply not_elem_of_nil|done].
Qed.

(** When neither end of the list is removed, the list is well-formed
    afterwards. *)
Lemma removeIf_ends_kept p h l cells fuel :
  is_list h l cells → (length cells ≤ fuel)%nat →
  (∀ c, cells !! 0%nat = Some c → p c.2 = false) →
  (∀ c, last cells = Some c → p c.2 = false) →
  ∃ h' l',
    removeIf fuel p l h = Ok ((Z.of_nat (length (removed p cells)), l'), h') ∧
    is_list h' l' (kept p cells).
Proof.
  intros Hl Hf Hfirst Hlast.
  destruct (removeIf_is_list p h l cells fuel Hl Hf)
    as (h' & l' & Hrun & Hlen' & Hhd' & Htl' & Hnd' & Hd' & _).
  destruct Hl as (Hnd & Hlen & Hlt & Hhd & Htl & Hd).
  pose proof (removed_kept_length p cells) as Hsum.
  exists h', l'. split; [done|].
  repeat split; try done.
  - lia.
  - rewrite Hhd', Hhd. destruct cells as [|c rest]; [done|].
    unfold kept. cbn [List.filter]. by rewrite (Hfirst c eq_refl).
  - rewrite Htl', Htl. destruct cells as [|c rest _] using rev_ind; [done|].
    rewrite kept_snoc, (Hlast c) by apply last_snoc. by rewrite !last_ptr_snoc.
Qed.

(** When the first or the last node is removed, [head] or [tail] is left
    pointing at the deleted node. *)
Lemma removeIf_end_removed p h l cells fuel c :
  is_list h l cells → (length cells ≤ fuel)%nat →
  cells !! 0%nat = Some c ∨ last cells = Some c → p c.2 = true →
  ∃ h' l',
    removeIf fuel p l h = Ok ((Z.of_nat (length (removed p cells)), l'), h') ∧
    (head l' = Some c.1 ∨ tail l' = Some c.1) ∧
    h' !! c.1 = None ∧
    ¬ invariant h' l'.
Proof.
  intros Hl Hf Hend Hp.
  destruct (removeIf_is_list p h l cells fuel Hl Hf)
    as (h' & l' & Hrun & Hlen' & Hhd' & Htl' & Hnd' & Hd' & Hgone & _).
  destruct Hl as (Hnd & Hlen & Hlt & Hhd & Htl & Hd).
  assert (c ∈ cells) as Hin.
  { destruct Hend as [H0|Hl].
    - by eapply list_elem_of_lookup_2.
    - apply last_Some in Hl as [xs ->]. apply elem_of_app. right. by left. }
  pose proof (Hgone c Hin Hp) as Hc.
  assert (head l' = Some c.1 ∨ tail l' = Some c.1) as Hptr.
  { destruct Hend as [H0|Hl].
    - left. rewrite Hhd', Hhd. by apply first_ptr_lookup.
    - right. rewrite Htl', Htl. unfold last_ptr. by rewrite Hl. }
  exists h', l'. split; [done|]. split; [done|]. split; [done|].
  intros Hinv. destruct Hptr as [Hh|Ht].
  - destruct (invariant_head_allocated _ _ _ Hinv Hh) as [n Hn]. congruence.
  - destruct (invariant_tail_allocated _ _ _ Hinv Ht) as [n Hn]. congruence.
Qed.
End filter_facts.


Section retain_facts.
Context {T : Type}.
Implicit Types (h : gmap positive (Node T)) (cells xs ys ks rs : list (addr * T)).
Implicit Types (c : addr * T) (f : T → bool).

Lemma retainIf_loop_dseg f h l ks rs fuel :
  NoDup (ks ++ rs).*1 → dseg h None (ks ++ rs) None → (length rs ≤ fuel)%nat →
  0 ≤ _len l < usize_modulus →
  head l = first_ptr (ks ++ rs) None →
  (rs ≠ [] → tail l = last_ptr rs None) →
  ∃ h' l',
    retainIf_loop fuel f l (first_ptr rs None) h = Ok (l', h') ∧
    _len l' = wrap (_len l - Z.of_nat (length (removed (λ v, negb (f v)) rs))) ∧
    head l' = first_ptr (ks ++ kept (λ v, negb (f v)) rs) None ∧
    tail l' = retained_tail f rs (tail l) ∧
    dseg h' None (ks ++ kept (λ v, negb (f v)) rs) None ∧
    (∀ c, c ∈ rs → f c.2 = false → h' !! c.1 = None) ∧
    (∀ a, a ∉ ks.*1 → a ∉ rs.*1 → h' !! a = h !! a).
Proof.
  revert h l ks fuel.
  induction rs as [|c rs IH]; intros h l ks fuel Hnd Hd Hf Hlen Hhd Htl.
  { exists h, l. split; [by destruct fuel|]. split; [|split; [done|split; [done|]]].
    - simpl. rewrite Z.sub_0_r, wrap_small; done.
    - split; [done|]. split; [|done]. intros c Hc. by apply elem_of_nil in Hc. }
  destruct fuel as [|fuel]; [simpl in Hf; lia|].
  pose proof (dseg_middle _ _ _ _ _ _ Hd) as Hc.
  specialize (Htl ltac:(done)).
  cbn [retainIf_loop first_ptr]. mstep.
  unfold removed, kept, retained_tail. cbn [List.filter].
  destruct (f c.2) eqn:Hfc; cbn [negb].
  - (* the node stays *)
    destruct (IH h l (ks ++ [c]) fuel) as (h' & l' & Hrun & Hlen' & Hhd' & Htl' & Hd' & Hgone & Hfr').
    { by rewrite <- app_assoc. }
    { by rewrite <- app_assoc. }
    { simpl in Hf. lia. }
    { done. }
    { by rewrite <- app_assoc. }
    { intros Hne. rewrite Htl, last_ptr_cons. by apply last_ptr_nonempty. }
    exists h', l'. split; [|split; [|split; [|split; [|split; [|split]]]]].
    + mstep. exact Hrun.
    + done.
    + by rewrite <- app_assoc in Hhd'.
    + rewrite Htl'. unfold retained_tail.
      destruct rs as [|r rs' _] using rev_ind.
      * simpl. by rewrite Hfc, Htl.
      * by rewrite app_comm_cons, !last_snoc.
    + by rewrite <- app_assoc in Hd'.
    + intros c' Hc' Hp'. apply elem_of_cons in Hc' as [->|Hc']; [congruence|by apply Hgone].
    + intros a Hak Ha. rewrite fmap_cons in Ha. apply not_elem_of_cons in Ha as [Hac Ha].
      apply Hfr'; [|done]. rewrite fmap_app. apply not_elem_of_app. split; [done|].
      apply not_elem_of_cons. split; [done|]. apply not_elem_of_nil.
  - (* the node is unlinked and deleted *)
    destruct (unlink_dseg h ks c rs Hnd Hd) as (h1 & Hun & Hd1 & Hc1 & Hfr1).
    apply NoDup_middle in Hnd as (Hndk & Hndr & Hck & Hcr & Hkr).
    set (l1 := mkList (wrap (_len l - 1)) (head l) (tail l)).
    set (l2 := if decide (Some c.1 = head l1)
               then mkList (_len l1) (first_ptr rs None) (tail l1) else l1).
    set (l3 := if decide (Some c.1 = tail l2)
               then mkList (_len l2) (head l2) (first_ptr rs None) else l2).
    assert (_len l3 = wrap (_len l - 1)) as Hlen3.
    { unfold l3, l2. by repeat case_decide. }
    assert (head l3 = first_ptr (ks ++ rs) None) as Hhd3.
    { assert (head l2 = first_ptr (ks ++ rs) None) as Hhd2.
      { unfold l2. case_decide as E; cbn [head l1] in *.
        - rewrite Hhd in E. destruct ks as [|k ks']; [done|].
          simpl in E. inversion E as [E']. rewrite fmap_cons in Hck.
          apply not_elem_of_cons in Hck as [Hck _]. congruence.
        - rewrite Hhd in E |- *. destruct ks as [|k ks']; [done|]. done. }
      unfold l3. by case_decide. }
    assert (tail l2 = tail l) as Htl2 by (unfold l2; by case_decide).
    assert (rs ≠ [] → tail l3 = last_ptr rs None) as Htl3.
    { intros Hne. unfold l3. case_decide as E; cbn [tail]; rewrite Htl2, Htl in *.
      - destruct rs as [|r rs' _] using rev_ind; [done|].
        rewrite app_comm_cons, last_ptr_snoc in E. inversion E as [E'].
        rewrite fmap_app in Hcr. apply not_elem_of_app in Hcr as [_ Hcr].
        exfalso. apply Hcr. rewrite E'. by left.
      - rewrite last_ptr_cons. by apply last_ptr_nonempty. }
    assert (rs = [] → tail l3 = None) as Htl3'.
    { intros ->. unfold l3. rewrite Htl2, Htl. simpl. by case_decide. }
    destruct (IH (delete c.1 h1) l3 ks fuel)
      as (h' & l' & Hrun & Hlen' & Hhd' & Htl' & Hd' & Hgone & Hfr').
    { rewrite fmap_app. apply NoDup_app. done. }
    { apply dseg_delete_fresh; [|done]. rewrite fmap_app. by apply not_elem_of_app. }
    { simpl in Hf. lia. }
    { rewrite Hlen3. apply wrap_range. }
    { done. }
    { done. }
    exists h', l'. split; [|split; [|split; [|split; [|split; [|split]]]]].
    + mstep. rewrite (bind_Ok _ _ _ _ _ Hun). mstep. exact Hrun.
    + rewrite Hlen', Hlen3. cbn [length]. rewrite wrap_pred_sub. unfold removed.
      f_equal. lia.
    + done.
    + rewrite Htl'. unfold retained_tail.
      destruct rs as [|r rs' _] using rev_ind.
      * simpl. rewrite Hfc. by apply Htl3'.
      * by rewrite app_comm_cons, !last_snoc.
    + done.
    + intros c' Hc' Hp'. apply elem_of_cons in Hc' as [->|Hc']; [|by apply Hgone].
      rewrite Hfr' by done. apply lookup_delete_eq.
    + intros a Hak Ha. rewrite fmap_cons in Ha. apply not_elem_of_cons in Ha as [Hac Ha].
      rewrite Hfr' by done. rewrite lookup_delete_ne by done.
      apply Hfr1. by apply not_elem_of_middle.
Qed.

Lemma retainIf_is_list f h l cells fuel :
  is_list h l cells → (length cells ≤ fuel)%nat →
  ∃ h' l',
    retainIf fuel f l h =
      Ok ((Z.of_nat (length (removed (λ v, negb (f v)) cells)), l'), h') ∧
    _len l' = Z.of_nat (length (kept (λ v, negb (f v)) cells)) ∧
    head l' = first_ptr (kept (λ v, negb (f v)) cells) None ∧
    tail l' = retained_tail f cells None ∧
    NoDup (kept (λ v, negb (f v)) cells).*1 ∧
    dseg h' None (kept (λ v, negb (f v)) cells) None ∧
    (∀ c, c ∈ cells → f c.2 = false → h' !! c.1 = None) ∧
    (∀ a, a ∉ cells.*1 → h' !! a = h !! a).
Proof.
  intros (Hnd & Hlen & Hlt & Hhd & Htl & Hd) Hf.
  destruct (retainIf_loop_dseg f h l [] cells fuel)
    as (h' & l' & Hrun & Hlen' & Hhd' & Htl' & Hd' & Hgone & Hfr);
    [done|done|done|lia|done|done|].
  pose proof (removed_kept_length (λ v, negb (f v)) cells) as Hsum.
  assert (_len l' = Z.of_nat (length (kept (λ v, negb (f v)) cells))) as Hlen''.
  { rewrite Hlen', Hlen, wrap_small; lia. }
  exists h', l'. split; [|split; [|split; [|split; [|split; [|split; [|split]]]]]].
  - unfold retainIf. rewrite Hhd, (bind_Ok _ _ _ _ _ Hrun).
    unfold mret, M_ret, ret. do 3 f_equal.
    rewrite Hlen'', Hlen. rewrite wrap_small; lia.
  - done.
  - done.
  - rewrite Htl'. unfold retained_tail. destruct (last cells) eqn:E; [done|].
    apply last_None in E. subst cells. done.
  - by apply kept_NoDup.
  - done.
  - done.
  - intros a Ha. apply Hfr; [apply not_elem_of_nil|done].
Qed.

(** When the last node stays, the list is well-formed afterwards. *)
Lemma retainIf_last_kept f h l cells fuel :
  is_list h l cells → (length cells ≤ fuel)%nat →
  (∀ c, last cells = Some c → f c.2 = true) →
  ∃ h' l',
    retainIf fuel f l h =
      Ok ((Z.of_nat (length (removed (λ v, negb (f v)) cells)), l'), h') ∧
    is_list h' l' (kept (λ v, negb (f v)) cells).
Proof.
  intros Hl Hf Hlast.
  destruct (retainIf_is_list f h l cells fuel Hl Hf)
    as (h' & l' & Hrun & Hlen' & Hhd' & Htl' & Hnd' & Hd' & _).
  destruct Hl as (Hnd & Hlen & Hlt & Hhd & Htl & Hd).
  pose proof (removed_kept_length (λ v, negb (f v)) cells) as Hsum.
  exists h', l'. split; [done|].
  repeat split; try done.
  - lia.
  - rewrite Htl'. unfold retained_tail.
    destruct cells as [|c rest _] using rev_ind; [done|].
    rewrite last_snoc, kept_snoc, (Hlast c) by apply last_snoc.
    cbn [negb]. by rewrite last_ptr_snoc.
Qed.

(** When the last node is removed and some node stays, [tail] is left
    absent on a list that is not empty. *)
Lemma retainIf_last_removed f h l cells fuel c :
  is_list h l cells → (length cells ≤ fuel)%nat →
  last cells = Some c → f c.2 = false →
  kept (λ v, negb (f v)) cells ≠ [] →
  ∃ h' l',
    retainIf fuel f l h =
      Ok ((Z.of_nat (length (removed (λ v, negb (f v)) cells)), l'), h') ∧
    tail l' = None ∧ 0 < _len l' ∧
    ¬ invariant h' l'.
Proof.
  intros Hl Hf Hlast Hfc Hne.
  destruct (retainIf_is_list f h l cells fuel Hl Hf)
    as (h' & l' & Hrun & Hlen' & Hhd' & Htl' & Hnd' & Hd' & _).
  assert (tail l' = None) as Ht.
  { rewrite Htl'. unfold retained_tail. by rewrite Hlast, Hfc. }
  assert (0 < _len l') as Hpos.
  { rewrite Hlen'. destruct (kept _ cells); [done|simpl; lia]. }
  exists h', l'. split; [done|]. split; [done|]. split; [done|].
  intros Hinv. pose proof (invariant_tail_absent _ _ Hinv Ht). lia.
Qed.
End retain_facts.


Section slice_facts.
Context {T : Type}.
Implicit Types (h : gmap positive (Node T)) (cells xs ys mid : list (addr * T)).
Implicit Types (c : addr * T).

(** The two writes that join what precedes a range to what follows it. *)
Lemma bridge_dseg h xs ys q1 p2 :
  NoDup (xs ++ ys).*1 → dseg h None xs q1 → dseg h p2 ys None →
  ∃ h2,
    (∀ (B : Type) (k : unit → M (gmap positive (Node T)) B),
        (match last_ptr xs None with
         | Some b => setNext b (first_ptr ys None)
         | None => mret tt
         end ≫= λ _,
         match first_ptr ys None with
         | Some n => setBack n (last_ptr xs None)
         | None => mret tt
         end ≫= k) h = k tt h2) ∧
    dseg h2 None (xs ++ ys) None ∧
    (∀ a, a ∉ (xs ++ ys).*1 → h2 !! a = h !! a).
Proof.
  intros Hnd Hx Hy.
  rewrite fmap_app in Hnd. apply NoDup_app in Hnd as (Hndx & Hxy & Hndy).
  destruct xs as [|p xs' _] using rev_ind; destruct ys as [|y ys'].
  - exists h. split; [|done]. intros B k. rewrite last_ptr_nil. cbn [first_ptr].
    by do 2 mstep.
  - destruct Hy as [Hy Hys]. rewrite fmap_cons in Hndy. apply NoDup_cons in Hndy as [Hy_nin _].
    eexists. split; [|split].
    + intros B k. rewrite last_ptr_nil. cbn [first_ptr]. do 2 mstep. reflexivity.
    + cbn [app dseg]. split; [apply lookup_insert_eq|]. by apply dseg_insert_fresh.
    + intros a Ha. cbn [app] in Ha. rewrite fmap_cons in Ha.
      apply not_elem_of_cons in Ha as [Ha _]. by rewrite lookup_insert_ne.
  - apply dseg_snoc in Hx as [Hxs Hp].
    rewrite fmap_app in Hndx. apply NoDup_app in Hndx as (_ & Hp_xs & _).
    assert (p.1 ∉ xs'.*1) as Hp_nin.
    { intros Hin. apply (Hp_xs _ Hin). by left. }
    eexists. split; [|split].
    + intros B k. rewrite last_ptr_snoc. cbn [first_ptr]. do 2 mstep. reflexivity.
    + rewrite app_nil_r. apply dseg_snoc. split; [by apply dseg_insert_fresh|].
      apply lookup_insert_eq.
    + intros a Ha. rewrite app_nil_r, fmap_app in Ha. apply not_elem_of_app in Ha as [_ Ha].
      apply not_elem_of_cons in Ha as [Ha _]. by rewrite lookup_insert_ne.
  - apply dseg_snoc in Hx as [Hxs Hp]. destruct Hy as [Hy Hys].
    rewrite fmap_app in Hndx. apply NoDup_app in Hndx as (_ & Hp_xs & _).
    assert (p.1 ∉ xs'.*1) as Hp_nin.
    { intros Hin. apply (Hp_xs _ Hin). by left. }
    rewrite fmap_cons in Hndy. apply NoDup_cons in Hndy as [Hy_nin _].
    assert (p.1 ≠ y.1) as Hpy.
    { intros E. apply (Hxy p.1); [rewrite fmap_app; apply elem_of_app; right; by left|].
      rewrite E, fmap_cons. by left. }
    assert (y.1 ∉ xs'.*1) as Hy_xs.
    { intros Hin. apply (Hxy y.1); [rewrite fmap_app; apply elem_of_app; by left|].
      rewrite fmap_cons. by left. }
    assert (p.1 ∉ ys'.*1) as Hp_ys.
    { intros Hin. apply (Hxy p.1); [rewrite fmap_app; apply elem_of_app; right; by left|].
      rewrite fmap_cons. by right. }
    eexists. split; [|split].
    + intros B k. rewrite last_ptr_snoc. cbn [first_ptr]. do 2 mstep. reflexivity.
    + apply dseg_app. rewrite last_ptr_snoc. cbn [first_ptr]. split.
      * apply dseg_snoc. split; [do 2 (apply dseg_insert_fresh; [done|]); done|]. lookup_store.
      * cbn [dseg]. split; [lookup_store|]. do 2 (apply dseg_insert_fresh; [done|]); done.
    + intros a Ha. rewrite !fmap_app, fmap_cons in Ha.
      apply not_elem_of_app in Ha as [Ha1 Ha2].
      apply not_elem_of_app in Ha1 as [_ Ha1].
      apply not_elem_of_cons in Ha1 as [Ha1 _]. apply not_elem_of_cons in Ha2 as [Ha2 _].
      by rewrite !lookup_insert_ne.
Qed.

(** The two writes that close a range at both ends. *)
Lemma cut_ends_dseg h mid pp qn s e :
  NoDup mid.*1 → dseg h pp mid qn →
  first_ptr mid None = Some s → last_ptr mid None = Some e →
  ∃ h4,
    (∀ (B : Type) (k : unit → M (gmap positive (Node T)) B),
        (setBack s None ≫= λ _, setNext e None ≫= k) h = k tt h4) ∧
    dseg h4 None mid None ∧
    (∀ a, a ∉ mid.*1 → h4 !! a = h !! a).
Proof.
  intros Hnd Hd Hs He.
  destruct mid as [|m mid']; [done|]. cbn [first_ptr] in Hs. inversion Hs; subst s.
  destruct mid' as [|m2 mid'' _] using rev_ind.
  - cbn [last_ptr last] in He. inversion He; subst e. destruct Hd as [Hm _].
    eexists. split; [|split].
    + intros B k. do 2 mstep. reflexivity.
    + cbn [dseg first_ptr]. split; [lookup_store|done].
    + intros a Ha. rewrite fmap_cons in Ha. apply not_elem_of_cons in Ha as [Ha _].
      by rewrite !lookup_insert_ne.
  - rewrite app_comm_cons, last_ptr_snoc in He. inversion He; subst e.
    rewrite app_comm_cons in Hd. apply dseg_snoc in Hd as [Hd Hm2].
    rewrite last_ptr_cons in Hm2.
    pose proof Hd as [Hm Hd'].
    rewrite fmap_cons, fmap_app in Hnd. apply NoDup_cons in Hnd as [Hm_nin Hnd].
    apply not_elem_of_app in Hm_nin as [Hm_mid Hm_m2].
    apply not_elem_of_cons in Hm_m2 as [Hmm2 _].
    apply NoDup_app in Hnd as (_ & Hmid_m2 & _).
    assert (m2.1 ∉ mid''.*1) as Hm2_nin.
    { intros Hin. apply (Hmid_m2 _ Hin). by left. }
    eexists. split; [|split].
    + intros B k. do 2 mstep. reflexivity.
    + rewrite app_comm_cons. apply dseg_snoc. rewrite last_ptr_cons. split.
      * cbn [dseg]. split; [lookup_store|]. do 2 (apply dseg_insert_fresh; [done|]); done.
      * lookup_store.
    + intros a Ha. rewrite fmap_cons, fmap_app in Ha.
      apply not_elem_of_cons in Ha as [Ha1 Ha]. apply not_elem_of_app in Ha as [_ Ha].
      apply not_elem_of_cons in Ha as [Ha2 _]. by rewrite !lookup_insert_ne.
Qed.

Lemma slice_split {A} (l : list A) (s e : nat) :
  (s ≤ e)%nat →
  l = take s l ++ take (e - s) (drop s l) ++ drop e l.
Proof.
  intros Hse. rewrite <- (take_drop s l) at 1. f_equal.
  rewrite <- (take_drop (e - s) (drop s l)) at 1. f_equal.
  rewrite drop_drop. f_equal. lia.
Qed.

Lemma sliceOff_is_list h l cells start end_ :
  is_list h l cells → 0 ≤ start → 0 ≤ end_ →
  (Z.to_nat (Z.min start (_len l)) < Z.to_nat (Z.min end_ (_len l)))%nat →
  ∃ h' ex,
    sliceOff l start end_ h = Ok ((ex, l), h') ∧
    is_list h' ex
      (take (Z.to_nat (Z.min end_ (_len l)) - Z.to_nat (Z.min start (_len l)))
         (drop (Z.to_nat (Z.min start (_len l))) cells)) ∧
    NoDup (take (Z.to_nat (Z.min start (_len l))) cells ++
           drop (Z.to_nat (Z.min end_ (_len l))) cells).*1 ∧
    dseg h' None
      (take (Z.to_nat (Z.min start (_len l))) cells ++
       drop (Z.to_nat (Z.min end_ (_len l))) cells) None ∧
    (∀ a, a ∉ cells.*1 → h' !! a = h !! a).
Proof.
  intros Hl Hs0 He0 Hlt.
  pose proof Hl as (Hnd & Hlen & Hbound & Hhd & Htl & Hd).
  set (s := Z.to_nat (Z.min start (_len l))) in *.
  set (e := Z.to_nat (Z.min end_ (_len l))) in *.
  assert (start < _len l) as Hstart by lia.
  assert (Z.of_nat s = start) as Hs by lia.
  assert (Z.of_nat e = Z.min end_ (_len l)) as He by lia.
  assert (e ≤ length cells)%nat as Hele by lia.
  pose proof (slice_split cells s e ltac:(lia)) as Ecells.
  remember (take s cells) as xs eqn:Exs.
  remember (take (e - s) (drop s cells)) as mid eqn:Emid.
  remember (drop e cells) as ys eqn:Eys.
  assert (length xs = s) as Hlxs by (subst xs; rewrite length_take; lia).
  assert (length mid = (e - s)%nat) as Hlmid.
  { subst mid. rewrite length_take, length_drop. lia. }
  (* the first and the last cell of the range *)
  destruct mid as [|m mid']; [simpl in Hlmid; lia|].
  assert (∃ init z, m :: mid' = init ++ [z]) as (init & z & Emz).
  { destruct mid' as [|z init _] using rev_ind.
    - by exists [], m.
    - exists (m :: init), z. done. }
  assert (cells !! s = Some m) as Hm_at.
  { rewrite Ecells, lookup_app_r by lia. by rewrite Hlxs, Nat.sub_diag. }
  assert (cells !! (e - 1)%nat = Some z) as Hz_at.
  { rewrite Ecells, lookup_app_r by lia. rewrite Emz, Hlxs.
    assert (length init = (e - s - 1)%nat) as Hli.
    { apply (f_equal length) in Emz. rewrite length_app in Emz. simpl in Emz, Hlmid. lia. }
    rewrite lookup_app_l by (rewrite length_app; simpl; lia).
    rewrite lookup_app_r by lia.
    replace (e - 1 - s - length init)%nat with 0%nat by lia. done. }
  pose proof (atNode_is_list h l cells start m Hl Hs0) as HatS.
  rewrite <- Hs, Nat2Z.id in HatS. specialize (HatS Hm_at). rewrite Hs in HatS.
  pose proof (atNode_is_list h l cells (Z.of_nat e - 1) z Hl ltac:(lia)) as HatE.
  replace (Z.to_nat (Z.of_nat e - 1)) with (e - 1)%nat in HatE by lia.
  specialize (HatE Hz_at).
  (* the three pieces of the chain *)
  rewrite Ecells in Hd, Hnd.
  apply dseg_app in Hd as [Hdx Hdmy]. apply dseg_app in Hdmy as [Hdm Hdy].
  pose proof Hdm as [Hm _].
  pose proof Hdm as Hdm'. rewrite Emz in Hdm'. apply dseg_snoc in Hdm' as [_ Hz].
  rewrite !fmap_app in Hnd. apply NoDup_app in Hnd as (Hndx & Hx_my & Hndmy).
  apply NoDup_app in Hndmy as (Hndm & Hm_y & Hndy).
  assert (NoDup (xs ++ ys).*1) as Hndxy.
  { rewrite fmap_app. apply NoDup_app. split; [done|]. split; [|done].
    intros a Ha Hin. apply (Hx_my a Ha). apply elem_of_app. by right. }
  destruct (bridge_dseg h xs ys _ _ Hndxy Hdx Hdy) as (h2 & Hrun2 & Hd2 & Hfr2).
  assert (dseg h2 (last_ptr xs None) (m :: mid') (first_ptr ys None)) as Hdm2.
  { apply dseg_ext with h; [|done]. intros a Ha. apply Hfr2.
    rewrite fmap_app. apply not_elem_of_app. split.
    - intros Hin. apply (Hx_my a Hin). apply elem_of_app. by left.
    - by apply Hm_y. }
  destruct (cut_ends_dseg h2 (m :: mid') _ _ m.1 z.1 Hndm Hdm2) as (h4 & Hrun4 & Hd4 & Hfr4).
  { done. }
  { by rewrite Emz, last_ptr_snoc. }
  exists h4. eexists. split; [|split; [|split; [|split]]].
  - unfold sliceOff.
    destruct (Z.geb_spec start (_len l)) as [|_]; [lia|].
    replace (if end_ >? _len l then _len l else end_) with (Z.of_nat e)
      by (rewrite He; destruct (Z.gtb_spec end_ (_len l)); lia).
    destruct (Z.geb_spec start (Z.of_nat e)) as [|_]; [lia|].
    rewrite (wrap_small (Z.of_nat e - 1)) by lia.
    rewrite (bind_Ok _ _ _ _ _ HatS), (bind_Ok _ _ _ _ _ HatE).
    mstep. rewrite (bind_Ok _ _ _ _ _ (back_Ok _ _ _ Hm)). mstep.
    rewrite (bind_Ok _ _ _ _ _ (next_Ok _ _ _ Hz)). cbn [_back _next].
    rewrite Hrun2, Hrun4. reflexivity.
  - split_is_list.
    + done.
    + rewrite wrap_small by lia. rewrite Hlmid. lia.
    + lia.
    + done.
    + by rewrite Emz, last_ptr_snoc.
    + done.
  - done.
  - apply dseg_ext with h2; [|done]. intros a Ha. apply Hfr4.
    rewrite fmap_app in Ha. apply elem_of_app in Ha as [Ha|Ha].
    + intros Hin. apply (Hx_my a Ha). apply elem_of_app. by left.
    + intros Hin. by apply (Hm_y a Hin).
  - intros a Ha. rewrite Ecells, !fmap_app in Ha.
    apply not_elem_of_app in Ha as [Hax Ha]. apply not_elem_of_app in Ha as [Ham Hay].
    rewrite Hfr4 by done. apply Hfr2. rewrite fmap_app. by apply not_elem_of_app.
Qed.

(** [sliceOff] with nothing to extract changes nothing. *)
Lemma sliceOff_empty h l start end_ :
  (if start >=? _len l then _len l else start) >=?
    (if end_ >? _len l then _len l else end_) = true →
  sliceOff l start end_ h = Ok ((List_new, l), h).
Proof. intros Hge. unfold sliceOff. by rewrite Hge. Qed.

(** After a slice that takes some but not all cells, [this] is no list any
    more: its length still counts the cells that left. *)
Lemma sliceOff_this_stale h l cells start end_ h' ex :
  is_list h l cells → 0 ≤ start → 0 ≤ end_ →
  (Z.to_nat (Z.min start (_len l)) < Z.to_nat (Z.min end_ (_len l)))%nat →
  sliceOff l start end_ h = Ok ((ex, l), h') →
  ¬ is_list h' l
      (take (Z.to_nat (Z.min start (_len l))) cells ++
       drop (Z.to_nat (Z.min end_ (_len l))) cells) ∧
  (0 < start ∨ end_ < _len l → ¬ invariant h' l).
Proof.
  intros Hl Hs0 He0 Hlt Hrun.
  destruct (sliceOff_is_list h l cells start end_ Hl Hs0 He0 Hlt)
    as (h'' & ex' & Hrun' & Hex & Hndr & Hdr & _).
  rewrite Hrun in Hrun'. inversion Hrun'; subst h'' ex'. clear Hrun'.
  pose proof Hl as (Hnd & Hlen & Hbound & Hhd & Htl & Hd).
  set (s := Z.to_nat (Z.min start (_len l))) in *.
  set (e := Z.to_nat (Z.min end_ (_len l))) in *.
  assert (length (take s cells ++ drop e cells) = (length cells - (e - s))%nat) as Hlr.
  { rewrite length_app, length_take, length_drop. lia. }
  split.
  - intros (_ & Hlen' & _). rewrite Hlen', Hlr in Hlen. lia.
  - intros Hpart (cells' & Hnd' & Hlen' & _ & Hhd' & _ & Hd').
    destruct (decide (s = 0%nat)) as [Hs|Hs].
    + (* the chain from [head] is the extracted one *)
      destruct Hex as (_ & Hlenx & _ & Hhdx & _ & Hdx).
      assert (cells' = take (e - s) (drop s cells)) as ->.
      { apply (dseg_functional h' None None); [done|done|].
        rewrite <- Hhd', Hhd. rewrite Hs, drop_0, Nat.sub_0_r.
        destruct cells as [|c rest]; [simpl in *; lia|].
        destruct e; [lia|]. done. }
      rewrite length_take, length_drop in Hlen'. lia.
    + (* the chain from [head] is what the slice left *)
      assert (cells' = take s cells ++ drop e cells) as ->.
      { apply (dseg_functional h' None None); [done|done|].
        rewrite <- Hhd', Hhd. rewrite first_ptr_app.
        destruct cells as [|c rest]; [simpl in *; lia|].
        destruct s; [lia|]. done. }
      rewrite Hlr in Hlen'. lia.
Qed.
End slice_facts.


Section clear_assign.
Context {T : Type}.
Implicit Types (h : gmap positive (Node T)) (cells xs ys bs rs : list (addr * T)).
Implicit Types (c : addr * T).

Lemma clear_loop_dseg h pp cells fuel :
  NoDup cells.*1 → dseg h pp cells None → (length cells ≤ fuel)%nat →
  ∃ h', clear_loop fuel (first_ptr cells None) h = Ok (tt, h') ∧
        (∀ a, a ∈ cells.*1 → h' !! a = None) ∧
        (∀ a, a ∉ cells.*1 → h' !! a = h !! a).
Proof.
  revert h pp fuel. induction cells as [|c rest IH]; intros h pp fuel Hnd Hd Hf.
  { exists h. split; [by destruct fuel|]. split; [|done].
    intros a Ha. by apply elem_of_nil in Ha. }
  destruct fuel as [|fuel]; [simpl in Hf; lia|].
  destruct Hd as [Hc Hrest]. rewrite fmap_cons in Hnd. apply NoDup_cons in Hnd as [Hc_nin Hnd].
  destruct (IH (delete c.1 h) (Some c.1) fuel) as (h' & Hrun & Hgone & Hfr).
  { done. }
  { by apply dseg_delete_fresh. }
  { simpl in Hf. lia. }
  exists h'. split; [|split].
  - cbn [clear_loop first_ptr]. do 2 mstep. exact Hrun.
  - intros a Ha. rewrite fmap_cons in Ha. apply elem_of_cons in Ha as [->|Ha]; [|by apply Hgone].
    rewrite Hfr by done. apply lookup_delete_eq.
  - intros a Ha. rewrite fmap_cons in Ha. apply not_elem_of_cons in Ha as [Hac Ha].
    rewrite Hfr by done. by apply lookup_delete_ne.
Qed.

Lemma clear_is_list h l cells fuel :
  is_list h l cells → (length cells ≤ fuel)%nat →
  ∃ h', clear fuel l h = Ok (List_new, h') ∧
        is_list h' List_new [] ∧
        (∀ a, a ∈ cells.*1 → h' !! a = None) ∧
        (∀ a, a ∉ cells.*1 → h' !! a = h !! a).
Proof.
  intros (Hnd & Hlen & Hlt & Hhd & Htl & Hd) Hf.
  destruct (clear_loop_dseg h None cells fuel Hnd Hd Hf) as (h' & Hrun & Hgone & Hfr).
  exists h'. split; [|split; [|done]].
  - unfold clear. rewrite Hhd. by rewrite (bind_Ok _ _ _ _ _ Hrun).
  - by apply is_list_nil_iff.
Qed.

Lemma swap_is_list h this other cs co :
  is_list h this cs → is_list h other co →
  is_list h (swap this other).1 co ∧ is_list h (swap this other).2 cs.
Proof. intros Ht Ho. unfold swap. by destruct this, other. Qed.

Lemma assign_loop_dseg h this bs rs ppo fuel :
  NoDup bs.*1 → dseg h None bs None →
  dseg h ppo rs None → (∀ a, a ∈ bs.*1 → a ∉ rs.*1) →
  (length rs ≤ fuel)%nat →
  (bs ≠ [] → head this = first_ptr bs None) →
  ∃ h' l' bs',
    assign_loop fuel this (last_ptr bs None) (first_ptr rs None) h =
      Ok ((l', last_ptr (bs ++ bs') None), h') ∧
    NoDup (bs ++ bs').*1 ∧ dseg h' None (bs ++ bs') None ∧
    bs'.*2 = rs.*2 ∧
    _len l' = _len this ∧ tail l' = tail this ∧
    head l' = first_ptr (bs ++ bs') (head this) ∧
    (∀ a, a ∈ bs'.*1 → h !! a = None) ∧
    (∀ a, a ∉ (bs ++ bs').*1 → h' !! a = h !! a).
Proof.
  revert h this bs ppo fuel.
  induction rs as [|r rs IH]; intros h this bs ppo fuel Hndb Hdb Hdr Hdisj Hf Hhead.
  { exists h, this, []. rewrite app_nil_r. split; [by destruct fuel|].
    repeat split; try done.
    - destruct bs; [done|]. by apply Hhead.
    - intros a Ha. by apply elem_of_nil in Ha. }
  destruct fuel as [|fuel]; [simpl in Hf; lia|].
  destruct Hdr as [Hr Hdr].
  pose proof (fresh_not_in_cells _ _ _ _ Hdb) as Hn_bs.
  assert (unused h ≠ r.1) as Hn_r.
  { intros E. rewrite <- E, unused_lookup in Hr. done. }
  assert (unused h ∉ rs.*1) as Hn_rs by apply (fresh_not_in_cells _ _ _ _ Hdr).
  remember (unused h) as n eqn:En.
  assert (h !! n = None) as Hn_free by (subst n; apply unused_lookup).
  assert (∀ a, a ∈ bs.*1 → a ≠ r.1 ∧ a ∉ rs.*1) as Hdisj'.
  { intros a Ha. specialize (Hdisj a Ha). rewrite fmap_cons in Hdisj.
    by apply not_elem_of_cons in Hdisj. }
  assert (NoDup (bs ++ [(n, r.2)]).*1) as Hnd1.
  { rewrite fmap_app. apply NoDup_app. split; [done|]. split; [|apply NoDup_singleton].
    intros a Ha Hin. apply list_elem_of_singleton in Hin. simpl in Hin. by subst a. }
  assert (∀ a, a ∈ (bs ++ [(n, r.2)]).*1 → a ∉ rs.*1) as Hdisj1.
  { intros a Ha. rewrite fmap_app in Ha. apply elem_of_app in Ha as [Ha|Ha].
    - by apply Hdisj'.
    - apply list_elem_of_singleton in Ha. simpl in Ha. by subst a. }
  cbn [assign_loop first_ptr]. do 2 mstep. rewrite <- En.
  destruct bs as [|p bs0 _] using rev_ind.
  - (* the first copy becomes the head *)
    rewrite last_ptr_nil. do 2 mstep.
    destruct (IH (<[n := mkNode r.2 None None]> h)
                (mkList (_len this) (Some n) (tail this)) [(n, r.2)] (Some r.1) fuel)
      as (h' & l' & bs' & Hrun & Hnd' & Hd' & Hvals & Hlen' & Htl' & Hhd' & Hnew & Hfr).
    { done. }
    { cbn [dseg first_ptr]. split; [apply lookup_insert_eq|done]. }
    { by apply dseg_insert_fresh. }
    { done. }
    { simpl in Hf. lia. }
    { done. }
    exists h', l', ((n, r.2) :: bs').
    split; [done|]. split; [done|]. split; [done|].
    split; [by rewrite !fmap_cons, Hvals|].
    split; [done|]. split; [done|]. split; [done|]. split.
    + intros a Ha. rewrite fmap_cons in Ha. apply elem_of_cons in Ha as [->|Ha]; [done|].
      specialize (Hnew a Ha). rewrite lookup_insert_ne in Hnew; [done|].
      intros <-. by rewrite lookup_insert_eq in Hnew.
    + intros a Ha. rewrite Hfr by done. apply lookup_insert_ne.
      intros <-. apply Ha. cbn [app]. rewrite fmap_cons. by left.
  - (* a later copy is linked after the previous one *)
    rewrite last_ptr_snoc. apply dseg_snoc in Hdb as [Hdb0 Hp].
    destruct (Hdisj' p.1) as [Hp_r Hp_rs].
    { rewrite fmap_app. apply elem_of_app. right. by left. }
    rewrite fmap_app in Hn_bs. apply not_elem_of_app in Hn_bs as [Hn_bs0 Hn_p].
    apply not_elem_of_cons in Hn_p as [Hn_p _].
    rewrite fmap_app in Hndb. apply NoDup_app in Hndb as (_ & Hp_bs0 & _).
    assert (p.1 ∉ bs0.*1) as Hp_nin.
    { intros Hin. apply (Hp_bs0 _ Hin). by left. }
    do 5 mstep.
    specialize (Hhead ltac:(by destruct bs0)).
    destruct (IH (<[p.1 := mkNode p.2 (last_ptr bs0 None) (Some n)]>
                    (<[n := mkNode r.2 (Some p.1) None]>
                       (<[n := mkNode r.2 None None]> h)))
                this ((bs0 ++ [p]) ++ [(n, r.2)]) (Some r.1) fuel)
      as (h' & l' & bs' & Hrun & Hnd' & Hd' & Hvals & Hlen' & Htl' & Hhd' & Hnew & Hfr).
    { done. }
    { apply dseg_snoc. rewrite last_ptr_snoc. split.
      - apply dseg_snoc. split; [|apply lookup_insert_eq].
        do 3 (apply dseg_insert_fresh; [done|]). done.
      - cbn [fst snd]. lookup_store. }
    { do 3 (apply dseg_insert_fresh; [done|]). done. }
    { done. }
    { simpl in Hf. lia. }
    { intros _. rewrite Hhead. by rewrite !first_ptr_app. }
    exists h', l', ((n, r.2) :: bs').
    replace ((bs0 ++ [p]) ++ (n, r.2) :: bs') with (((bs0 ++ [p]) ++ [(n, r.2)]) ++ bs')
      by (by rewrite <- !app_assoc).
    split. { mstep. rewrite ?last_ptr_snoc in Hrun. exact Hrun. }
    split; [done|]. split; [done|].
    split; [by rewrite !fmap_cons, Hvals|].
    split; [done|]. split; [done|].
    split; [rewrite Hhd', <- !app_assoc; by destruct bs0|]. split.
    + intros a Ha. rewrite fmap_cons in Ha. apply elem_of_cons in Ha as [->|Ha]; [done|].
      specialize (Hnew a Ha).
      destruct (decide (a = p.1)) as [->|Hap]; [by rewrite lookup_insert_eq in Hnew|].
      destruct (decide (a = n)) as [->|Han]; [done|].
      by rewrite !lookup_insert_ne in Hnew.
    + intros a Ha. rewrite Hfr by done.
      rewrite !fmap_app in Ha. apply not_elem_of_app in Ha as [Ha _].
      apply not_elem_of_app in Ha as [Ha1 Ha2]. apply not_elem_of_app in Ha1 as [_ Ha1].
      apply not_elem_of_cons in Ha1 as [Ha1 _]. apply not_elem_of_cons in Ha2 as [Ha2 _].
      by rewrite !lookup_insert_ne.
Qed.

Lemma assign_is_list h this other ct co fuel :
  is_list h this ct → is_list h other co →
  (∀ a, a ∈ ct.*1 → a ∉ co.*1) →
  (length ct ≤ fuel)%nat → (length co ≤ fuel)%nat →
  ∃ h' l' cells',
    assign fuel this other h = Ok (l', h') ∧
    is_list h' l' cells' ∧ cells'.*2 = co.*2 ∧
    is_list h' other co ∧
    (∀ a, a ∈ cells'.*1 → a ∉ co.*1).
Proof.
  intros Ht Ho Hdisj Hft Hfo.
  destruct (clear_is_list h this ct fuel Ht Hft) as (h0 & Hclear & _ & Hgone & Hfr0).
  destruct Ho as (Hndo & Hleno & Hlto & Hhdo & Htlo & Hdo).
  assert (dseg h0 None co None) as Hdo0.
  { apply dseg_ext with h; [|done]. intros a Ha. apply Hfr0. intros Hin.
    by apply (Hdisj a). }
  destruct (assign_loop_dseg h0 (mkList (_len other) None None) [] co None fuel)
    as (h' & l' & bs' & Hrun & Hnd' & Hd' & Hvals & Hlen' & Htl' & Hhd' & Hnew & Hfr);
    [apply NoDup_nil_2|done|done| |done|done|].
  { intros a Ha. by apply elem_of_nil in Ha. }
  cbn [app] in *. rewrite last_ptr_nil in Hrun.
  assert (∀ a, a ∈ bs'.*1 → a ∉ co.*1) as Hsep.
  { intros a Ha Hin. destruct (dseg_is_Some _ _ _ _ _ Hdo0 Hin) as [n Hn].
    rewrite (Hnew a Ha) in Hn. done. }
  exists h', (mkList (_len l') (head l') (last_ptr bs' None)), bs'.
  split; [|split; [|split; [|split]]].
  - unfold assign. rewrite (bind_Ok _ _ _ _ _ Hclear). cbn [head tail List_new].
    rewrite <- Hhdo in Hrun. by rewrite (bind_Ok _ _ _ _ _ Hrun).
  - split_is_list; try done.
    + rewrite Hlen'. cbn [_len]. rewrite Hleno.
      apply (f_equal length) in Hvals. rewrite !length_fmap in Hvals. lia.
    + apply (f_equal length) in Hvals. rewrite !length_fmap in Hvals. lia.
  - done.
  - split_is_list; try done.
    apply dseg_ext with h0; [|done]. intros a Ha. apply Hfr. intros Hin.
    by apply (Hsep a).
  - done.
Qed.
End clear_assign.


Section slice_append.
Context {T : Type}.
Implicit Types (h : gmap positive (Node T)) (cells xs ys : list (addr * T)).
Implicit Types (c : addr * T).

Lemma wrap_add_neq n k :
  0 < k → k ≤ n → n < usize_modulus → wrap (n + k) ≠ n.
Proof.
  intros Hk Hkn Hn. unfold wrap.
  destruct (Z.lt_ge_cases (n + k) usize_modulus) as [Hlt|Hge].
  - rewrite Z.mod_small by lia. lia.
  - replace (n + k) with ((n + k - usize_modulus) + 1 * usize_modulus) by lia.
    rewrite Z.mod_add by (unfold usize_modulus; lia).
    rewrite Z.mod_small by lia. lia.
Qed.

Lemma equals_len_differs `{EqDecision T} h fuel this other :
  _len this ≠ _len other → equals fuel this other h = Ok (false, h).
Proof.
  intros Hne. unfold equals. by destruct (Z.eqb_spec (_len this) (_len other)).
Qed.
End slice_append.


Section sample_facts.
Import Samples.

Lemma NoDup_abc : NoDup cells_abc.*1.
Proof. by apply (bool_decide_unpack _). Qed.

Lemma NoDup_de : NoDup cells_de.*1.
Proof. by apply (bool_decide_unpack _). Qed.

Lemma abc_is_list : is_list (store_of None cells_abc) (list_of cells_abc) cells_abc.
Proof. apply store_of_is_list; [apply NoDup_abc|done]. Qed.

Lemma abc_is_list_both : is_list store_abc_de (list_of cells_abc) cells_abc.
Proof. apply is_list_union_l, abc_is_list. Qed.

Lemma de_is_list_both : is_list store_abc_de (list_of cells_de) cells_de.
Proof.
  apply is_list_union_r.
  - intros a Ha. apply store_of_lookup_fresh. intros Hin.
    revert Ha Hin. unfold cells_abc, cells_de. set_solver.
  - apply store_of_is_list; [apply NoDup_de|done].
Qed.

Lemma AC_is_list : is_list (store_of None cells_AC) (list_of cells_AC) cells_AC.
Proof. apply store_of_is_list; [by apply (bool_decide_unpack _)|done]. Qed.

Lemma chars_is_list : is_list (store_of None cells_chars) (list_of cells_chars) cells_chars.
Proof. apply store_of_is_list; [by apply (bool_decide_unpack _)|done]. Qed.
End sample_facts.


Section by_value.
Context {T : Type}.
Implicit Types (h : gmap positive (Node T)) (cells xs ys new : list (addr * T)).
Implicit Types (c : addr * T).

Lemma clear_empty h fuel : clear fuel (@List_new) h = Ok (List_new, h).
Proof. by destruct fuel. Qed.

(** The copy constructor makes its copy in nodes that were not in use and
    changes no node that existed. *)
Lemma List_copy_fresh h other co fuel :
  is_list h other co → (length co ≤ fuel)%nat →
  ∃ h' l' new,
    List_copy fuel other h = Ok (l', h') ∧
    is_list h' l' new ∧ new.*2 = co.*2 ∧
    (∀ a, a ∈ new.*1 → h !! a = None) ∧
    (∀ a, a ∉ new.*1 → h' !! a = h !! a).
Proof.
  intros (Hndo & Hleno & Hlto & Hhdo & Htlo & Hdo) Hfo.
  destruct (assign_loop_dseg h (mkList (_len other) None None) [] co None fuel)
    as (h' & l' & bs' & Hrun & Hnd' & Hd' & Hvals & Hlen' & Htl' & Hhd' & Hnew & Hfr);
    [apply NoDup_nil_2|done|done| |done|done|].
  { intros a Ha. by apply elem_of_nil in Ha. }
  cbn [app] in *. rewrite last_ptr_nil in Hrun.
  exists h', (mkList (_len l') (head l') (last_ptr bs' None)), bs'.
  split; [|split; [|split; [done|split; done]]].
  - unfold List_copy, assign. rewrite (bind_Ok _ _ _ _ _ (clear_empty h fuel)).
    cbn [head tail List_new].
    rewrite <- Hhdo in Hrun. by rewrite (bind_Ok _ _ _ _ _ Hrun).
  - split_is_list; try done.
    + rewrite Hlen'. cbn [_len]. rewrite Hleno.
      apply (f_equal length) in Hvals. rewrite !length_fmap in Hvals. lia.
    + apply (f_equal length) in Hvals. rewrite !length_fmap in Hvals. lia.
Qed.

Lemma lookup_clash h (a : addr) (n : Node T) : h !! a = Some n → h !! a = None → False.
Proof. intros E1 E2. rewrite E1 in E2. done. Qed.

(** What a slice that is not empty leaves behind, with the result returned
    by value: a copy of the range in nodes that were not in use, the nodes
    of the range deleted, the other nodes of the list linked to each
    other, and the list object as it was. *)
Lemma sliceOff_by_value_is_list h l cells start end_ fuel :
  is_list h l cells → 0 ≤ start → 0 ≤ end_ →
  (clamp start (_len l) < clamp end_ (_len l))%nat →
  (length cells ≤ fuel)%nat →
  ∃ h' ex new,
    sliceOff_by_value fuel l start end_ h = Ok ((ex, l), h') ∧
    is_list h' ex new ∧
    new.*2 = (take (clamp end_ (_len l) - clamp start (_len l))
                (drop (clamp start (_len l)) cells)).*2 ∧
    (∀ a, a ∈ new.*1 → h !! a = None) ∧
    (∀ c, c ∈ take (clamp end_ (_len l) - clamp start (_len l))
                (drop (clamp start (_len l)) cells) → h' !! c.1 = None) ∧
    NoDup (take (clamp start (_len l)) cells ++ drop (clamp end_ (_len l)) cells).*1 ∧
    dseg h' None
      (take (clamp start (_len l)) cells ++ drop (clamp end_ (_len l)) cells) None ∧
    (∀ a, a ∉ cells.*1 → a ∉ new.*1 → h' !! a = h !! a).
Proof.
  intros Hl Hs0 He0 Hlt Hfuel. unfold clamp in *.
  pose proof Hl as (Hnd & Hlen & Hbound & Hhd & Htl & Hd).
  destruct (sliceOff_is_list h l cells start end_ Hl Hs0 He0 Hlt)
    as (h1 & ex1 & Hrun & Hex & Hndr & Hdr & Hframe1).
  set (s := Z.to_nat (Z.min start (_len l))) in *.
  set (e := Z.to_nat (Z.min end_ (_len l))) in *.
  set (mid := take (e - s) (drop s cells)) in *.
  set (rest := take s cells ++ drop e cells) in *.
  assert (cells = take s cells ++ mid ++ drop e cells) as Hsplit
    by (apply slice_split; lia).
  assert (∀ a, a ∈ mid.*1 → a ∉ rest.*1) as Hmid_rest.
  { assert (NoDup (take s cells ++ mid ++ drop e cells).*1) as Hnd3 by (by rewrite <- Hsplit).
    intros a Ha Hin. subst rest.
    rewrite !fmap_app in Hnd3. rewrite fmap_app in Hin.
    apply NoDup_app in Hnd3 as (_ & Hsep1 & Hnd2).
    apply NoDup_app in Hnd2 as (_ & Hsep2 & _).
    apply elem_of_app in Hin as [Hin|Hin].
    - apply (Hsep1 a Hin). apply elem_of_app. by left.
    - by apply (Hsep2 a Ha). }
  assert (length mid ≤ fuel)%nat as Hfmid.
  { subst mid. rewrite length_take, length_drop. lia. }
  pose proof Hex as (_ & _ & _ & _ & _ & Hdmid).
  destruct (List_copy_fresh h1 ex1 mid fuel Hex Hfmid)
    as (h2 & l2 & new & Hcopy & Hl2 & Hvals & Hfresh & Hframe2).
  assert (∀ a, is_Some (h1 !! a) → h2 !! a = h1 !! a) as Hold.
  { intros a [n Hn]. apply Hframe2. intros Hin. by apply (lookup_clash h1 a n), Hfresh. }
  assert (is_list h2 ex1 mid) as Hex2.
  { apply (is_list_ext h1); [|done]. intros a Ha. apply Hold.
    by apply (dseg_is_Some _ _ _ _ _ Hdmid). }
  destruct (clear_is_list h2 ex1 mid fuel Hex2 Hfmid) as (h3 & Hclear & _ & Hgone & Hframe3).
  assert (∀ a, a ∈ new.*1 → a ∉ mid.*1) as Hnew_mid.
  { intros a Ha Hin. destruct (dseg_is_Some _ _ _ _ _ Hdmid Hin) as [n Hn].
    by apply (lookup_clash h1 a n), Hfresh. }
  assert (∀ a, a ∈ cells.*1 → is_Some (h1 !! a)) as Hcells1.
  { intros a Ha. assert (a ∈ (take s cells ++ mid ++ drop e cells).*1) as Ha' by (by rewrite <- Hsplit).
    clear Ha. rename Ha' into Ha. rewrite !fmap_app in Ha.
    apply elem_of_app in Ha as [Ha|Ha]; [|apply elem_of_app in Ha as [Ha|Ha]].
    - apply (dseg_is_Some _ _ _ _ _ Hdr). subst rest. rewrite fmap_app.
      apply elem_of_app. by left.
    - by apply (dseg_is_Some _ _ _ _ _ Hdmid).
    - apply (dseg_is_Some _ _ _ _ _ Hdr). subst rest. rewrite fmap_app.
      apply elem_of_app. by right. }
  exists h3, l2, new.
  split; [|split; [|split; [done|split; [|split; [|split; [done|split]]]]]].
  - unfold sliceOff_by_value.
    destruct (Z.geb_spec (if start >=? _len l then _len l else start)
                (if end_ >? _len l then _len l else end_)) as [Hge|_].
    { exfalso. destruct (Z.geb_spec start (_len l)), (Z.gtb_spec end_ (_len l)); lia. }
    rewrite (bind_Ok _ _ _ _ _ Hrun). cbv beta iota.
    rewrite (bind_Ok _ _ _ _ _ Hcopy).
    by rewrite (bind_Ok _ _ _ _ _ Hclear).
  - apply (is_list_ext h2); [|done]. intros a Ha. apply Hframe3. by apply Hnew_mid.
  - intros a Ha. destruct (h !! a) as [n|] eqn:Hn; [|done]. exfalso.
    destruct (decide (a ∈ cells.*1)) as [Hin|Hnin].
    + destruct (Hcells1 a Hin) as [n1 Hn1]. by apply (lookup_clash h1 a n1), Hfresh.
    + rewrite <- (Hframe1 a Hnin) in Hn. by apply (lookup_clash h1 a n), Hfresh.
  - intros c Hc. apply Hgone. apply list_elem_of_fmap. by exists c.
  - apply (dseg_ext h2).
    + intros a Ha. apply Hframe3. intros Hin. by apply (Hmid_rest a).
    + apply (dseg_ext h1); [|done]. intros a Ha. apply Hold.
      by apply (dseg_is_Some _ _ _ _ _ Hdr).
  - intros a Ha Hnew.
    assert (a ∉ mid.*1) as Hnmid.
    { intros Hin. apply Ha.
      assert (a ∈ (take s cells ++ mid ++ drop e cells).*1) as Ha';
        [|by rewrite <- Hsplit in Ha'].
      rewrite !fmap_app. apply elem_of_app. right. apply elem_of_app. by left. }
    rewrite Hframe3 by done. rewrite Hframe2 by done. by apply Hframe1.
Qed.

(** After such a call the list object is out of step with the store. *)
Lemma sliceOff_by_value_stale h l cells start end_ fuel h' ex :
  is_list h l cells → 0 ≤ start → 0 ≤ end_ →
  (clamp start (_len l) < clamp end_ (_len l))%nat →
  (length cells ≤ fuel)%nat →
  sliceOff_by_value fuel l start end_ h = Ok ((ex, l), h') →
  ¬ is_list h' l
      (take (clamp start (_len l)) cells ++ drop (clamp end_ (_len l)) cells) ∧
  ¬ invariant h' l.
Proof.
  intros Hl Hs0 He0 Hlt Hfuel Hrun.
  destruct (sliceOff_by_value_is_list h l cells start end_ fuel Hl Hs0 He0 Hlt Hfuel)
    as (h'' & ex' & new & Hrun' & Hex & Hvals & Hfresh & Hgone & Hndr & Hdr & Hframe).
  rewrite Hrun in Hrun'. inversion Hrun'; subst h'' ex'. clear Hrun'.
  pose proof Hl as (Hnd & Hlen & Hbound & Hhd & Htl & Hd).
  unfold clamp in *.
  set (s := Z.to_nat (Z.min start (_len l))) in *.
  set (e := Z.to_nat (Z.min end_ (_len l))) in *.
  assert (length (take s cells ++ drop e cells) = (length cells - (e - s))%nat) as Hlr.
  { rewrite length_app, length_take, length_drop. lia. }
  split.
  - intros (_ & Hlen' & _). rewrite Hlen', Hlr in Hlen. lia.
  - intros Hinv. destruct (decide (s = 0%nat)) as [Hs|Hs].
    + (* [head] is a node of the range, which is deleted *)
      destruct (lookup_lt_is_Some_2 cells 0) as [c0 Hc0]; [lia|].
      assert (head l = Some c0.1) as Hhead by (by rewrite Hhd, (first_ptr_lookup _ _ c0)).
      destruct (invariant_head_allocated _ _ _ Hinv Hhead) as [n Hn].
      apply (lookup_clash h' c0.1 n Hn). apply Hgone.
      apply list_elem_of_lookup. exists 0%nat.
      rewrite lookup_take_lt by lia. rewrite lookup_drop, Hs. done.
    + (* the chain from [head] is shorter than [_len] says *)
      destruct Hinv as (cells' & Hnd' & Hlen' & _ & Hhd' & _ & Hd').
      assert (cells' = take s cells ++ drop e cells) as ->.
      { apply (dseg_functional h' None None); [done|done|].
        rewrite <- Hhd', Hhd. rewrite first_ptr_app.
        destruct (lookup_lt_is_Some_2 cells 0) as [c0 Hc0]; [lia|].
        rewrite (first_ptr_lookup cells None c0 Hc0).
        by rewrite (first_ptr_lookup (take s cells) _ c0) by (rewrite lookup_take_lt; [done|lia]). }
      rewrite Hlen', Hlr in Hlen. lia.
Qed.

Lemma setNext_missing {B} h (p : addr) (q : ptr) (k : unit → M (gmap positive (Node T)) B) :
  h !! p = None → (setNext p q ≫= k) h = Undefined.
Proof. intros E. unfold setNext, load, mbind, M_bind, bind. by rewrite E. Qed.

(** [append] of the returned slice to the list it came from. *)
Lemma sliceOff_by_value_append h l cells a b fuel :
  is_list h l cells → 0 ≤ a → a < b → b ≤ _len l → (length cells ≤ fuel)%nat →
  ∃ ex h1,
    sliceOff_by_value fuel l a b h = Ok ((ex, l), h1) ∧
    (b = _len l → append l ex h1 = Undefined) ∧
    (b < _len l →
       ∃ l1 h2, append l ex h1 = Ok ((l1, List_new), h2) ∧
                _len l1 = wrap (_len l + (b - a)) ∧ _len l1 ≠ _len l).
Proof.
  intros Hl Ha Hab Hb Hfuel.
  pose proof Hl as (Hnd & Hlen & Hbound & Hhd & Htl & Hd).
  assert (clamp a (_len l) = Z.to_nat a) as Ea by (unfold clamp; lia).
  assert (clamp b (_len l) = Z.to_nat b) as Eb by (unfold clamp; lia).
  destruct (sliceOff_by_value_is_list h l cells a b fuel Hl) as
    (h1 & ex & new & Hrun & Hex & Hvals & Hfresh & Hgone & Hndr & Hdr & Hframe);
    [lia|lia|lia|done|].
  rewrite Ea, Eb in *.
  assert (length new = (Z.to_nat b - Z.to_nat a)%nat) as Hlnew.
  { rewrite <- (length_fmap snd new), Hvals, length_fmap, length_take, length_drop. lia. }
  destruct Hex as (Hndx & Hlenx & _ & Hhdx & Htlx & Hdx).
  destruct (lookup_lt_is_Some_2 cells (length cells - 1)) as [cl Hcl]; [lia|].
  assert (tail l = Some cl.1) as Htail by (by rewrite Htl, (last_ptr_lookup _ _ cl)).
  assert (empty ex = false) as Hne.
  { unfold empty. rewrite Hlenx. apply Z.eqb_neq. lia. }
  assert ((_len l =? 0) = false) as Hl0 by (apply Z.eqb_neq; lia).
  exists ex, h1. split; [done|]. split.
  - (* the last node of the list went with the range *)
    intros Hbl. unfold append. rewrite Hne, Hl0. cbn [_len head tail].
    rewrite Htail. mstep. apply setNext_missing.
    apply (Hgone cl). apply list_elem_of_lookup.
    exists (Z.to_nat b - Z.to_nat a - 1)%nat.
    rewrite lookup_take_lt by lia. rewrite lookup_drop, <- Hcl. f_equal. lia.
  - (* the last node of the list stayed *)
    intros Hbl.
    assert (is_Some (h1 !! cl.1)) as [nt Hnt].
    { apply (dseg_is_Some _ _ _ _ _ Hdr).
      apply list_elem_of_fmap. exists cl. split; [done|].
      apply elem_of_app. right. apply list_elem_of_lookup.
      exists (length cells - 1 - Z.to_nat b)%nat. rewrite lookup_drop, <- Hcl. f_equal. lia. }
    destruct new as [|m new']; [simpl in Hlnew; lia|].
    cbn [first_ptr] in Hhdx. destruct Hdx as [Hm _].
    assert (is_Some (<[cl.1 := mkNode (_value nt) (_back nt) (head ex)]> h1 !! m.1))
      as [nm Hnm].
    { destruct (decide (cl.1 = m.1)) as [->|Hdiff].
      - rewrite lookup_insert_eq. eauto.
      - rewrite lookup_insert_ne by done. eauto. }
    eexists _, _. split; [|split].
    + unfold append. rewrite Hne, Hl0. cbn [_len head tail]. rewrite Htail, Hhdx. mstep.
      rewrite (bind_Ok _ _ _ _ _ (setNext_Ok _ _ _ _ Hnt)). mstep.
      rewrite Hhdx in Hnm.
      rewrite (bind_Ok _ _ _ _ _ (setBack_Ok _ _ _ _ Hnm)). reflexivity.
    + cbn [_len]. rewrite Hlenx, Hlnew. f_equal. lia.
    + cbn [_len]. rewrite Hlenx, Hlnew.
      replace (Z.of_nat (Z.to_nat b - Z.to_nat a)) with (b - a) by lia.
      apply wrap_add_neq; lia.
Qed.
End by_value.

Section stack_pops.
Context {T : Type}.
Implicit Types (h : gmap positive (Node T)) (xs ys : list (addr * T)) (s : Stack.Stack).

(** Popping as many times as there are cells on top. *)
Lemma stack_pop_n_is_list h s xs ys :
  is_list h (Stack.container s) (xs ++ ys) →
  ∃ h' s', stack_pop_n (length ys) s h = Ok (((rev ys).*2, s'), h') ∧
           is_list h' (Stack.container s') xs.
Proof.
  revert h s. induction ys as [|c ys IH] using rev_ind; intros h s Hl.
  { exists h, s. by rewrite app_nil_r in Hl. }
  rewrite app_assoc in Hl.
  destruct (popBack_is_list h (Stack.container s) (xs ++ ys) c Hl)
    as (h1 & l1 & Hpop & Hl1 & _).
  destruct (IH h1 (Stack.mkStack l1) Hl1) as (h' & s' & Hrec & Hl').
  exists h', s'. split; [|done].
  rewrite length_app, Nat.add_comm. cbn [length Nat.add stack_pop_n].
  unfold Stack.pop, mbind, M_bind, bind, mret, M_ret, ret.
  rewrite Hpop. cbv beta iota. rewrite Hrec.
  by rewrite rev_app_distr.
Qed.
End stack_pops.


Section the_invariant.
Import Samples.

(** C1 (the claim fails on the code): the claim wants every mutating
    operation of List to keep the head/tail/length invariants.  On the
    code, pushFront, pushBack, insert, popFront, popBack, remove, reverse,
    clear, swap, append and assignment do keep them (first four parts).
    removeIf does not whenever it removes the first or the last node, as it
    never writes head or tail; retainIf does not when it removes the last
    node and keeps another, as it writes the removed node's next, which is
    absent, to tail; and sliceOff never writes this list's length, head or
    tail, so a slice that takes some but not all nodes leaves this list
    broken (next three parts).  The last part runs removeIf(even) on the
    list [2, 1]. *)
Theorem mutators_and_invariant :
  (∀ (T : Type) (h : gmap positive (Node T)) l (v : T),
      invariant h l → _len l + 1 < usize_modulus →
      (∃ h' l', pushFront l v h = Ok (l', h') ∧ invariant h' l') ∧
      (∃ h' l', pushBack l v h = Ok (l', h') ∧ invariant h' l') ∧
      (∀ at_ backwarded, 0 ≤ at_ →
         ∃ h' l', insert l v at_ backwarded h = Ok (l', h') ∧ invariant h' l')) ∧
  (∀ (T : Type) (h : gmap positive (Node T)) l,
      invariant h l → _len l ≠ 0 →
      (∃ v h' l', popFront l h = Ok ((v, l'), h') ∧ invariant h' l') ∧
      (∃ v h' l', popBack l h = Ok ((v, l'), h') ∧ invariant h' l') ∧
      (∀ at_, 0 ≤ at_ →
         ∃ r h' l', remove l at_ h = Ok ((r, l'), h') ∧ invariant h' l')) ∧
  (∀ (T : Type) (h : gmap positive (Node T)) l fuel,
      invariant h l → (Z.to_nat (_len l) ≤ fuel)%nat →
      (∃ h' l', OwnList.reverse fuel l h = Ok (l', h') ∧ invariant h' l') ∧
      (∃ h' l', clear fuel l h = Ok (l', h') ∧ invariant h' l')) ∧
  (∀ (T : Type) (h : gmap positive (Node T)) this other cs co,
      is_list h this cs → is_list h other co → (∀ a, a ∈ cs.*1 → a ∉ co.*1) →
      (invariant h (swap this other).1 ∧ invariant h (swap this other).2) ∧
      (Z.of_nat (length cs + length co) < usize_modulus →
         ∃ h' this' other', append this other h = Ok ((this', other'), h') ∧
                            invariant h' this' ∧ invariant h' other') ∧
      (∀ fuel, (length cs ≤ fuel)%nat → (length co ≤ fuel)%nat →
         ∃ h' this', assign fuel this other h = Ok (this', h') ∧
                     invariant h' this' ∧ invariant h' other)) ∧
  (∀ (T : Type) (p : T → bool) (h : gmap positive (Node T)) l cells fuel c,
      is_list h l cells → (length cells ≤ fuel)%nat →
      cells !! 0%nat = Some c ∨ last cells = Some c → p c.2 = true →
      ∃ n h' l', removeIf fuel p l h = Ok ((n, l'), h') ∧ ¬ invariant h' l') ∧
  (∀ (T : Type) (f : T → bool) (h : gmap positive (Node T)) l cells fuel c,
      is_list h l cells → (length cells ≤ fuel)%nat →
      last cells = Some c → f c.2 = false → kept (λ v, negb (f v)) cells ≠ [] →
      ∃ n h' l', retainIf fuel f l h = Ok ((n, l'), h') ∧ ¬ invariant h' l') ∧
  (∀ (T : Type) (h : gmap positive (Node T)) l cells start end_,
      is_list h l cells → 0 ≤ start → 0 ≤ end_ →
      (clamp start (_len l) < clamp end_ (_len l))%nat →
      0 < start ∨ end_ < _len l →
      ∃ ex h', sliceOff l start end_ h = Ok ((ex, l), h') ∧ ¬ invariant h' l) ∧
  (∃ l0 h0 n l1 h1,
      pushBack_all List_new [2; 1] ∅ = Ok (l0, h0) ∧ invariant h0 l0 ∧
      removeIf 2 Z.even l0 h0 = Ok ((n, l1), h1) ∧ ¬ invariant h1 l1).
Proof.
  split; [|split; [|split; [|split; [|split; [|split; [|split]]]]]].
  - intros T h l v (cells & Hl) Hroom.
    pose proof Hl as (_ & Hlen & _). rewrite Hlen in Hroom.
    split; [|split].
    + destruct (pushFront_is_list h l cells v Hl Hroom) as (h' & l' & Hrun & Hl' & _).
      exists h', l'. split; [done|]. by eexists.
    + destruct (pushBack_is_list h l cells v Hl Hroom) as (h' & l' & Hrun & Hl' & _).
      exists h', l'. split; [done|]. by eexists.
    + intros at_ backwarded Hat.
      destruct (insert_is_list h l cells v at_ backwarded Hl Hroom Hat)
        as (h' & l' & Hrun & Hl' & _).
      exists h', l'. split; [done|]. by eexists.
  - intros T h l (cells & Hl) Hne.
    pose proof Hl as (_ & Hlen & _).
    assert (cells ≠ []) as Hcells by (intros ->; by apply Hne).
    split; [|split].
    + destruct cells as [|c ys]; [done|].
      destruct (popFront_is_list h l c ys Hl) as (h' & l' & Hrun & Hl' & _).
      exists c.2, h', l'. split; [done|]. by eexists.
    + destruct cells as [|c xs _] using rev_ind; [done|].
      destruct (popBack_is_list h l xs c Hl) as (h' & l' & Hrun & Hl' & _).
      exists c.2, h', l'. split; [done|]. by eexists.
    + intros at_ Hat.
      destruct (remove_is_list h l cells at_ Hl Hcells Hat)
        as (c & h' & l' & _ & Hrun & Hl' & _).
      eexists _, h', l'. split; [done|]. by eexists.
  - intros T h l fuel (cells & Hl) Hfuel.
    pose proof Hl as (_ & Hlen & _). rewrite Hlen, Nat2Z.id in Hfuel.
    split.
    + destruct (reverse_is_list h l cells fuel Hl Hfuel) as (h' & l' & Hrun & Hl' & _).
      exists h', l'. split; [done|]. by eexists.
    + destruct (clear_is_list h l cells fuel Hl Hfuel) as (h' & Hrun & Hl' & _).
      exists h', List_new. split; [done|]. by eexists.
  - intros T h this other cs co Ht Ho Hdisj. split; [|split].
    + destruct (swap_is_list h this other cs co Ht Ho). split; by eexists.
    + intros Hroom.
      destruct (append_is_list h this other cs co Ht Ho Hdisj Hroom)
        as (h' & t' & o' & Hrun & Ht' & Ho' & _).
      exists h', t', o'. split; [done|]. split; by eexists.
    + intros fuel Hft Hfo.
      destruct (assign_is_list h this other cs co fuel Ht Ho Hdisj Hft Hfo)
        as (h' & l' & cells' & Hrun & Hl' & _ & Ho' & _).
      exists h', l'. split; [done|]. split; by eexists.
  - intros T p h l cells fuel c Hl Hfuel Hend Hp.
    destruct (removeIf_end_removed p h l cells fuel c Hl Hfuel Hend Hp)
      as (h' & l' & Hrun & _ & _ & Hbroken).
    by eexists _, h', l'.
  - intros T f h l cells fuel c Hl Hfuel Hlast Hf Hkept.
    destruct (retainIf_last_removed f h l cells fuel c Hl Hfuel Hlast Hf Hkept)
      as (h' & l' & Hrun & _ & _ & Hbroken).
    by eexists _, h', l'.
  - intros T h l cells start end_ Hl Hs He Hlt Hpart. unfold clamp in Hlt.
    destruct (sliceOff_is_list h l cells start end_ Hl Hs He Hlt) as (h' & ex & Hrun & _).
    exists ex, h'. split; [done|].
    by apply (sliceOff_this_stale h l cells start end_ h' ex).
  - eexists _, _, _, _, _. split; [by vm_compute|]. split; [|split; [by vm_compute|]].
    + exists [(1%positive, 2); (2%positive, 1)]. split_is_list; try done.
      by apply (bool_decide_unpack _).
    + intros Hinv. destruct (invariant_head_allocated _ _ 1%positive Hinv) as [n Hn]; [done|].
      by vm_compute in Hn.
Qed.
End the_invariant.


Section remove_claim.
Import Samples.
Context {T : Type}.
Implicit Types (h : gmap positive (Node T)) (cells : list (addr * T)).

(** C2 (the claim fails on the code): on a list that is not empty,
    remove(at) deletes the cell at position min(at, length - 1) - the first
    one for at = 0, the last one for at >= length - 1, the one at [at]
    otherwise - and leaves a well-formed list of the other cells.  It hands
    the removed value back only in the third case: the first two call
    popFront / popBack, drop what they return and leave through a bare
    [return;], so the caller gets no value, where the claim (and the
    header's own comment) promise the removed element. *)
Theorem remove_spec h l cells at_ :
  is_list h l cells → cells ≠ [] → 0 ≤ at_ →
  ∃ c h' l',
    cells !! Z.to_nat (Z.min at_ (_len l - 1)) = Some c ∧
    remove l at_ h =
      Ok ((if (at_ =? 0) || (at_ >=? _len l - 1) then None else Some c.2, l'), h') ∧
    is_list h' l' (delete (Z.to_nat (Z.min at_ (_len l - 1))) cells) ∧
    h' !! c.1 = None.
Proof. apply remove_is_list. Qed.
End remove_claim.

Section remove_witness.
Import Samples.

Lemma remove_spec_witness :
  ∃ c h' l',
    cells_abc !! 0%nat = Some c ∧
    remove (list_of cells_abc) 0 (store_of None cells_abc) = Ok ((None, l'), h') ∧
    is_list h' l' [(2%positive, 20); (3%positive, 30)] ∧
    h' !! c.1 = None.
Proof.
  destruct (remove_spec (store_of None cells_abc) (list_of cells_abc) cells_abc 0)
    as (c & h' & l' & Hc & Hrun & Hl' & Hgone);
    [exact abc_is_list | done | lia |].
  exists c, h', l'. done.
Defined.
End remove_witness.

Section stream_claim.
Import Samples Streams.

(** C3 (the claim fails on the code): operator<< writes a well-formed list
    as [[v1, v2, ..., vn]], as the claim says.  Reading that text back with
    operator>> does not rebuild the list: after the opening bracket the
    reader takes the first character of the first element as its separator,
    finds that it is no comma, runs its loop zero times and leaves the
    target list empty.  This holds for every list that is not empty and
    every element type whose text starts with a character that is not
    white space, a comma or a closing bracket. *)
Theorem stream_round_trip_fails {T : Type} `{Streamable T}
    (h : gmap positive (Node T)) l cells v vs ch rest fuel fuel' :
  is_list h l cells → cells.*2 = v :: vs → (length cells ≤ fuel)%nat →
  put_value v = ch :: rest → isspace ch = false → ch ≠ ","%char → ch ≠ "]"%char →
  stream_insert fuel [] l h = Ok (render (v :: vs), h) ∧
  ∃ i', stream_extract fuel' (mkIstream (render (v :: vs)) false false) List_new h =
        Ok ((i', List_new), h).
Proof.
  intros Hl Hvs Hfuel Hput Hsp Hcomma Hclose. split.
  - rewrite <- Hvs. by apply (stream_insert_is_list h l cells fuel []).
  - by apply stream_extract_render with ch rest.
Qed.

Lemma stream_round_trip_fails_witness :
  stream_insert 3 [] (list_of cells_chars) (store_of None cells_chars) =
    Ok (["["; "a"; ","; " "; "b"; ","; " "; "c"; "]"]%char, store_of None cells_chars) ∧
  ∃ i', stream_extract 3
          (mkIstream ["["; "a"; ","; " "; "b"; ","; " "; "c"; "]"]%char false false)
          List_new (store_of None cells_chars) =
        Ok ((i', List_new), store_of None cells_chars).
Proof.
  refine (stream_round_trip_fails (store_of None cells_chars) (list_of cells_chars)
            cells_chars "a"%char ["b"; "c"]%char "a"%char [] 3%nat 3%nat _ _ _ _ _ _ _).
  - exact chars_is_list.
  - reflexivity.
  - simpl. lia.
  - reflexivity.
  - reflexivity.
  - by vm_compute.
  - by vm_compute.
Defined.
End stream_claim.

Section filter_claim.
Import Samples.
Context {T : Type}.
Implicit Types (h : gmap positive (Node T)) (cells : list (addr * T)).

(** C4 (the claim fails on the code): in one pass removeIf(p) unlinks and
    deletes exactly the nodes whose value satisfies p, counts the list's
    length down once for each and returns how many it removed; what stays
    is linked in the old order.  It never writes head or tail: they are
    what they were, so the list is well-formed afterwards exactly when the
    old head and tail are still the first and the last node that stay.
    retainIf(f) removes exactly the nodes that fail f and does move head,
    but it sets tail to the removed node's next: tail is absent whenever
    the last node was removed.  The claim's re-pointing of head and tail
    fails; its example (removeIf(even) on [1, 2, 3, 4, 5]) removes no end
    node and holds. *)
Theorem removeIf_retainIf_spec (p : T → bool) h l cells fuel :
  is_list h l cells → (length cells ≤ fuel)%nat →
  (∃ h' l',
      removeIf fuel p l h = Ok ((Z.of_nat (length (removed p cells)), l'), h') ∧
      _len l' = Z.of_nat (length (kept p cells)) ∧
      dseg h' None (kept p cells) None ∧
      (∀ c, c ∈ cells → p c.2 = true → h' !! c.1 = None) ∧
      head l' = head l ∧ tail l' = tail l ∧
      (is_list h' l' (kept p cells) ↔
       head l = first_ptr (kept p cells) None ∧ tail l = last_ptr (kept p cells) None)) ∧
  (∃ h' l',
      retainIf fuel p l h =
        Ok ((Z.of_nat (length (removed (λ v, negb (p v)) cells)), l'), h') ∧
      _len l' = Z.of_nat (length (kept (λ v, negb (p v)) cells)) ∧
      dseg h' None (kept (λ v, negb (p v)) cells) None ∧
      (∀ c, c ∈ cells → p c.2 = false → h' !! c.1 = None) ∧
      head l' = first_ptr (kept (λ v, negb (p v)) cells) None ∧
      tail l' = retained_tail p cells None ∧
      (is_list h' l' (kept (λ v, negb (p v)) cells) ↔
       retained_tail p cells None = last_ptr (kept (λ v, negb (p v)) cells) None)).
Proof.
  intros Hl Hfuel. pose proof Hl as (Hnd & Hlen & Hlt & Hhd & Htl & Hd). split.
  - destruct (removeIf_is_list p h l cells fuel Hl Hfuel)
      as (h' & l' & Hrun & Hlen' & Hhd' & Htl' & Hnd' & Hd' & Hgone & _).
    pose proof (removed_kept_length p cells) as Hsum.
    exists h', l'. repeat (split; [done|]). split.
    + intros (_ & _ & _ & Hh & Ht & _). by rewrite <- Hhd', <- Htl'.
    + intros [Hh Ht]. split_is_list; try done; [lia|congruence|congruence].
  - destruct (retainIf_is_list p h l cells fuel Hl Hfuel)
      as (h' & l' & Hrun & Hlen' & Hhd' & Htl' & Hnd' & Hd' & Hgone & _).
    pose proof (removed_kept_length (λ v, negb (p v)) cells) as Hsum.
    exists h', l'. repeat (split; [done|]). split.
    + intros (_ & _ & _ & _ & Ht & _). by rewrite <- Htl'.
    + intros Ht. split_is_list; try done; [lia|congruence].
Qed.
End filter_claim.

Section filter_witness.
Import Samples.

Lemma NoDup_12345 : NoDup cells_12345.*1.
Proof. by apply (bool_decide_unpack _). Qed.

Lemma removeIf_retainIf_spec_witness :
  ∃ h' l',
    removeIf 5 Z.even (list_of cells_12345) (store_of None cells_12345) = Ok ((2, l'), h') ∧
    is_list h' l' [(1%positive, 1); (3%positive, 3); (5%positive, 5)].
Proof.
  destruct (removeIf_retainIf_spec Z.even (store_of None cells_12345) (list_of cells_12345)
              cells_12345 5)
    as [(h' & l' & Hrun & _ & _ & _ & _ & _ & Hiff) _].
  - apply store_of_is_list; [exact NoDup_12345 | by vm_compute].
  - simpl. lia.
  - exists h', l'. split; [exact Hrun|]. apply Hiff. split; reflexivity.
Defined.
End filter_witness.


Section sliceOff_claim.
Context {T : Type}.
Implicit Types (h : gmap positive (Node T)) (cells : list (addr * T)).

(** C5 (the claim fails on the code): sliceOff(start, end) clamps both
    indices to the length.  When the clamped start is not below the clamped
    end it returns an empty list and writes nothing.  Otherwise, with
    enough fuel, the caller receives a well-formed list that holds the
    values of [start, end) in order in nodes of its own, which were not in
    use before (the return copies the local list and then destroys it);
    the nodes of the range are deleted, and the nodes before and after
    the range are linked to each other.  But the method never updates this
    list's own fields: length still counts the elements that left, and
    head and tail are what they were, also where they were nodes of the
    range.  So this list is not the well-formed list of the remaining
    cells, and it is well-formed for no contents at all: the range is not
    detached from this list as the claim says. *)
Theorem sliceOff_spec h l cells start end_ fuel :
  is_list h l cells → 0 ≤ start → 0 ≤ end_ → (length cells ≤ fuel)%nat →
  ((clamp end_ (_len l) ≤ clamp start (_len l))%nat →
     sliceOff_by_value fuel l start end_ h = Ok ((List_new, l), h)) ∧
  ((clamp start (_len l) < clamp end_ (_len l))%nat →
     ∃ h' ex new,
       sliceOff_by_value fuel l start end_ h = Ok ((ex, l), h') ∧
       is_list h' ex new ∧
       new.*2 = (take (clamp end_ (_len l) - clamp start (_len l))
                   (drop (clamp start (_len l)) cells)).*2 ∧
       (∀ a, a ∈ new.*1 → h !! a = None) ∧
       (∀ c, c ∈ take (clamp end_ (_len l) - clamp start (_len l))
                   (drop (clamp start (_len l)) cells) → h' !! c.1 = None) ∧
       dseg h' None
         (take (clamp start (_len l)) cells ++ drop (clamp end_ (_len l)) cells) None ∧
       ¬ is_list h' l
           (take (clamp start (_len l)) cells ++ drop (clamp end_ (_len l)) cells) ∧
       ¬ invariant h' l).
Proof.
  intros Hl Hs0 He0 Hfuel. pose proof Hl as (_ & Hlen & _). split.
  - intros Hle. unfold clamp in Hle. unfold sliceOff_by_value.
    destruct (Z.geb_spec (if start >=? _len l then _len l else start)
                (if end_ >? _len l then _len l else end_)) as [_|Hlt]; [done|].
    exfalso. destruct (Z.geb_spec start (_len l)), (Z.gtb_spec end_ (_len l)); lia.
  - intros Hlt.
    destruct (sliceOff_by_value_is_list h l cells start end_ fuel Hl Hs0 He0 Hlt Hfuel)
      as (h' & ex & new & Hrun & Hex & Hvals & Hfresh & Hgone & _ & Hrest & _).
    destruct (sliceOff_by_value_stale h l cells start end_ fuel h' ex Hl Hs0 He0 Hlt Hfuel Hrun)
      as [Hstale Hbroken].
    by exists h', ex, new.
Qed.
End sliceOff_claim.

Section sliceOff_witness.
Import Samples.

Lemma sliceOff_spec_witness :
  ∃ h' ex new,
    sliceOff_by_value 3 (list_of cells_abc) 0 1 (store_of None cells_abc) =
      Ok ((ex, list_of cells_abc), h') ∧
    is_list h' ex new ∧
    new.*2 = [10] ∧
    h' !! 1%positive = None ∧
    dseg h' None [(2%positive, 20); (3%positive, 30)] None ∧
    ¬ invariant h' (list_of cells_abc).
Proof.
  destruct (sliceOff_spec (store_of None cells_abc) (list_of cells_abc) cells_abc 0 1 3)
    as [_ Hcut]; [exact abc_is_list | lia | lia | simpl; lia |].
  destruct Hcut as (h' & ex & new & Hrun & Hex & Hvals & _ & Hgone & Hrest & _ & Hbroken);
    [by vm_compute|].
  exists h', ex, new. split; [exact Hrun|]. split; [exact Hex|]. split; [exact Hvals|].
  split; [|split; [exact Hrest | exact Hbroken]].
  apply (Hgone (1%positive, 10)). by constructor.
Defined.
End sliceOff_witness.

Section at_claim.
Context {T : Type}.
Implicit Types (h : gmap positive (Node T)) (cells : list (addr * T)).

End at_claim.

Section at_witness.
Import Samples.

End at_witness.

Section sliceOff_append_claim.
Context {T : Type} `{EqDecision T}.
Implicit Types (h : gmap positive (Node T)) (cells : list (addr * T)).

(** C7 (the claim fails on the code): take a well-formed list L1 and
    indices 0 <= a < b <= length, L2 = L1.sliceOff(a, b) and then
    L1.append(L2), with append read as the definition reads it (as written
    it calls the undeclared isEmpty() and cannot be instantiated).  When
    the slice reaches the end of the list (b = length, the one case in
    which an append at the tail could put the range back in its place),
    tail of L1 still points to the last node of the range, which the
    return of sliceOff has deleted: append assigns through that pointer,
    which is undefined behaviour.  When it does not, append returns and
    leaves L2 empty, but sliceOff left the length of L1 as it was and
    append adds the length of L2 to it: L1 now claims length + (b - a)
    elements, and equals() against any list of the original length
    answers false. *)
Theorem sliceOff_then_append h l cells a b fuel :
  is_list h l cells → 0 ≤ a → a < b → b ≤ _len l → (length cells ≤ fuel)%nat →
  ∃ ex h1,
    sliceOff_by_value fuel l a b h = Ok ((ex, l), h1) ∧
    (b = _len l → append l ex h1 = Undefined) ∧
    (b < _len l →
       ∃ l1 h2,
         append l ex h1 = Ok ((l1, List_new), h2) ∧
         _len l1 = wrap (_len l + (b - a)) ∧
         _len l1 ≠ _len l ∧
         (∀ fuel' orig, _len orig = _len l → equals fuel' l1 orig h2 = Ok (false, h2))).
Proof.
  intros Hl Ha Hab Hb Hfuel.
  destruct (sliceOff_by_value_append h l cells a b fuel Hl Ha Hab Hb Hfuel)
    as (ex & h1 & Hcut & Hend & Hmid).
  exists ex, h1. split; [done|]. split; [done|].
  intros Hlt. destruct (Hmid Hlt) as (l1 & h2 & Happ & Hlen1 & Hne).
  exists l1, h2. split; [done|]. split; [done|]. split; [done|].
  intros fuel' orig Horig. apply equals_len_differs. by rewrite Horig.
Qed.
End sliceOff_append_claim.

Section sliceOff_append_witness.
Import Samples.

Lemma sliceOff_then_append_witness :
  (∃ ex h1,
     sliceOff_by_value 3 (list_of cells_abc) 1 3 (store_of None cells_abc) =
       Ok ((ex, list_of cells_abc), h1) ∧
     append (list_of cells_abc) ex h1 = Undefined) ∧
  (∃ ex h1 l1 h2,
     sliceOff_by_value 3 (list_of cells_abc) 1 2 (store_of None cells_abc) =
       Ok ((ex, list_of cells_abc), h1) ∧
     append (list_of cells_abc) ex h1 = Ok ((l1, List_new), h2) ∧
     _len l1 = 4 ∧
     equals 4 l1 (list_of cells_abc) h2 = Ok (false, h2)).
Proof.
  split.
  - destruct (sliceOff_then_append (store_of None cells_abc) (list_of cells_abc) cells_abc
                1 3 3)
      as (ex & h1 & Hcut & Hend & _);
      [exact abc_is_list | lia | lia | simpl; lia | simpl; lia |].
    exists ex, h1. split; [exact Hcut|]. by apply Hend.
  - destruct (sliceOff_then_append (store_of None cells_abc) (list_of cells_abc) cells_abc
                1 2 3)
      as (ex & h1 & Hcut & _ & Hmid);
      [exact abc_is_list | lia | lia | simpl; lia | simpl; lia |].
    destruct Hmid as (l1 & h2 & Happ & Hlen1 & _ & Hneq); [simpl; lia|].
    exists ex, h1, l1, h2. split; [exact Hcut|]. split; [exact Happ|].
    split; [exact Hlen1|]. by apply Hneq.
Defined.
End sliceOff_append_witness.

Section insert_claim.
Import Samples.

(** C8, the claim as the spec states it, fails: on the list [A, C] built
    with pushBack, insertForward(B, 1) yields [A, C, B], not [A, B, C]. *)
Lemma insertForward_counterexample :
  ∃ l0 h0 l1 h1,
    pushBack_all List_new ["A"; "C"]%char ∅ = Ok (l0, h0) ∧
    insertForward l0 "B"%char 1 h0 = Ok (l1, h1) ∧
    to_values 3 l1 h1 = Ok (["A"; "C"; "B"]%char, h1) ∧
    to_values 3 l1 h1 ≠ Ok (["A"; "B"; "C"]%char, h1).
Proof.
  eexists _, _, _, _. split; [by vm_compute|]. split; [by vm_compute|].
  split; [by vm_compute|]. by vm_compute.
Qed.

(** C8 (amended): on a two-element list [A, C], insertForward(B, 1) takes
    the pushBack route (index length - 1, forward) and produces [A, C, B];
    insertBackward(B, 1) links the new node before C and produces
    [A, B, C].  Both results are well-formed lists. *)
Theorem insert_between_two {T : Type} (h : gmap positive (Node T)) l a1 a2 (A B C : T) :
  is_list h l [(a1, A); (a2, C)] →
  (∃ h' l', insertForward l B 1 h = Ok (l', h') ∧
            is_list h' l' [(a1, A); (a2, C); (unused h, B)]) ∧
  (∃ h' l', insertBackward l B 1 h = Ok (l', h') ∧
            is_list h' l' [(a1, A); (unused h, B); (a2, C)]).
Proof.
  intros Hl. pose proof Hl as (_ & Hlen & _).
  split.
  - destruct (insert_is_list h l _ B 1 false Hl) as (h' & l' & Hrun & Hl' & _);
      [by vm_compute|lia|].
    exists h', l'. split; [done|]. by rewrite Hlen in Hl'.
  - destruct (insert_is_list h l _ B 1 true Hl) as (h' & l' & Hrun & Hl' & _);
      [by vm_compute|lia|].
    exists h', l'. split; [done|]. by rewrite Hlen in Hl'.
Qed.

Lemma insert_between_two_witness :
  is_list (store_of None cells_AC) (list_of cells_AC) cells_AC ∧
  (∃ h' l', insertForward (list_of cells_AC) "B"%char 1 (store_of None cells_AC) = Ok (l', h') ∧
            is_list h' l' [(1%positive, "A"%char); (2%positive, "C"%char);
                           (unused (store_of None cells_AC), "B"%char)]) ∧
  (∃ h' l', insertBackward (list_of cells_AC) "B"%char 1 (store_of None cells_AC) = Ok (l', h') ∧
            is_list h' l' [(1%positive, "A"%char); (unused (store_of None cells_AC), "B"%char);
                           (2%positive, "C"%char)]).
Proof.
  split; [exact AC_is_list|].
  apply (insert_between_two (store_of None cells_AC) (list_of cells_AC)
           1%positive 2%positive "A"%char "B"%char "C"%char).
  exact AC_is_list.
Defined.
End insert_claim.

Section stack_claim.
Context {T : Type}.
Implicit Types (h : gmap positive (Node T)) (cells : list (addr * T)).

(** C9 (the claim fails on the code): Stack::append calls List::reverse
    and List::append, and both call isEmpty(), which class List does not
    declare: as written, s.append(t) cannot be instantiated for any s and
    t.  With that call read as empty(), which is how the definitions read
    it, the method does this: for two well-formed stacks s and t that
    share no node (the top of a stack is the back of its list), with
    enough fuel for t's reversal, it returns; s then holds its own cells
    followed by t's cells in reversed order, t is left empty, and both are
    well-formed.  The top of the combined stack is the element that was at
    the bottom of t: as many pops as t had elements return t's elements
    bottom first, the opposite of the order in which t would have popped
    them, and leave the cells s had before. *)
Theorem Stack_append_spec h (s t : Stack.Stack) cs ct fuel :
  is_list h (Stack.container s) cs →
  is_list h (Stack.container t) ct →
  (∀ a, a ∈ cs.*1 → a ∉ ct.*1) →
  Z.of_nat (length cs + length ct) < usize_modulus →
  (length ct ≤ fuel)%nat →
  ∃ h' s' t',
    Stack.append fuel s t h = Ok ((s', t'), h') ∧
    is_list h' (Stack.container s') (cs ++ rev ct) ∧
    is_list h' (Stack.container t') [] ∧
    Stack.empty t' = true ∧
    (∀ c, ct !! 0%nat = Some c → Stack.top s' h' = Ok (c.2, h')) ∧
    (∃ h2 s2, stack_pop_n (length ct) s' h' = Ok ((ct.*2, s2), h2) ∧
              is_list h2 (Stack.container s2) cs).
Proof.
  intros Hs Ht Hdisj Hsum Hfuel.
  destruct (reverse_is_list _ _ _ _ Ht Hfuel) as (h1 & t1 & Hrev & Ht1 & Hframe).
  assert (is_list h1 (Stack.container s) cs) as Hs1.
  { destruct Hs as (? & ? & ? & ? & ? & Hd). repeat split; try done.
    eapply dseg_ext; [|exact Hd]. intros a Ha. apply Hframe. intros Hin.
    by apply (Hdisj a). }
  destruct (append_is_list h1 _ _ _ _ Hs1 Ht1) as (h2 & s2 & t2 & Happ & Hs2 & Ht2 & _).
  { intros a Ha. rewrite fmap_rev, elem_of_rev. by apply Hdisj. }
  { by rewrite length_rev. }
  exists h2, (Stack.mkStack s2), (Stack.mkStack t2).
  split; [|split; [|split; [|split; [|split]]]].
  - unfold Stack.append, Stack.reverse, mbind, M_bind, bind, mret, M_ret, ret.
    rewrite Hrev. simpl. by rewrite Happ.
  - done.
  - done.
  - apply is_list_nil_iff in Ht2. simpl in Ht2. by rewrite Ht2.
  - intros c Hc. unfold Stack.top. simpl. eapply back_is_list; [exact Hs2|].
    destruct ct as [|c0 rest]; [done|]. simpl in Hc. inversion Hc; subst c0.
    simpl rev. by rewrite app_assoc, last_snoc.
  - destruct (stack_pop_n_is_list h2 (Stack.mkStack s2) cs (rev ct) Hs2)
      as (h3 & s3 & Hpops & Hs3).
    exists h3, s3. split; [|done].
    by rewrite length_rev, rev_involutive in Hpops.
Qed.
End stack_claim.

Section stack_witness.
Import Samples.

Lemma Stack_append_spec_witness :
  ∃ h' s' t',
    Stack.append 2 (Stack.mkStack (list_of cells_abc)) (Stack.mkStack (list_of cells_de))
      store_abc_de = Ok ((s', t'), h') ∧
    is_list h' (Stack.container s') (cells_abc ++ rev cells_de) ∧
    is_list h' (Stack.container t') [] ∧
    Stack.empty t' = true ∧
    (∀ c, cells_de !! 0%nat = Some c → Stack.top s' h' = Ok (c.2, h')) ∧
    (∃ h2 s2, stack_pop_n 2 s' h' = Ok (([30; 10], s2), h2) ∧
              is_list h2 (Stack.container s2) cells_abc).
Proof.
  apply (Stack_append_spec store_abc_de (Stack.mkStack (list_of cells_abc))
           (Stack.mkStack (list_of cells_de)) cells_abc cells_de 2).
  - exact abc_is_list_both.
  - exact de_is_list_both.
  - intros a Ha Hin. revert Ha Hin. unfold cells_abc, cells_de. set_solver.
  - by vm_compute.
  - simpl. lia.
Defined.
End stack_witness.

Section contains_claim.
Context {T : Type} `{EqDecision T}.
Implicit Types (h : gmap positive (Node T)) (cells : list (addr * T)).

(** C10: for two well-formed lists A and B and enough fuel for both walks,
    A.contains(B) returns, leaves the store as it was, and answers true
    exactly when every value of B is a value of A, whatever the order and
    the number of occurrences; when B is empty the answer is true. *)
Theorem contains_spec h A B cellsA cellsB fuel :
  is_list h A cellsA → is_list h B cellsB →
  (length cellsA ≤ fuel)%nat → (length cellsB ≤ fuel)%nat →
  ∃ b, contains fuel A B h = Ok (b, h) ∧
       (b = true ↔ ∀ v, v ∈ cellsB.*2 → v ∈ cellsA.*2) ∧
       (cellsB = [] → b = true).
Proof.
  intros HA HB HfA HfB.
  exists (forallb (λ c, bool_decide (c.2 ∈ cellsA.*2)) cellsB). split; [|split].
  - unfold contains. destruct HB as (_ & _ & _ & -> & _ & Hd).
    by apply contains_loop_dseg with None.
  - rewrite forallb_forall. split.
    + intros Hall v Hv. apply list_elem_of_fmap in Hv as [c [-> Hc]].
      apply list_elem_of_In, Hall in Hc. by apply bool_decide_eq_true_1 in Hc.
    + intros Hall c Hc. apply bool_decide_eq_true_2, Hall.
      apply list_elem_of_fmap. exists c. split; [done|]. by apply list_elem_of_In.
  - by intros ->.
Qed.
End contains_claim.

Section contains_witness.
Import Samples.

Lemma contains_spec_witness :
  ∃ b, contains 3 (list_of cells_abc) (list_of cells_de) store_abc_de = Ok (b, store_abc_de) ∧
       (b = true ↔ ∀ v, v ∈ cells_de.*2 → v ∈ cells_abc.*2) ∧
       (cells_de = [] → b = true).
Proof.
  apply (contains_spec store_abc_de (list_of cells_abc) (list_of cells_de)
           cells_abc cells_de 3);
    [exact abc_is_list_both | exact de_is_list_both | simpl; lia | simpl; lia].
Defined.
End contains_witness.


Section same_cells.
Context {T : Type}.
Implicit Types (h : gmap positive (Node T)) (cells xs ys : list (addr * T)) (c : addr * T).

Lemma front_is_list h l cells c :
  is_list h l cells → cells !! 0%nat = Some c → front l h = Ok (c.2, h).
Proof.
  intros (Hnd & Hlen & Hlt & Hhd & Htl & Hd) Hc.
  destruct cells as [|x xs]; [done|]. inversion Hc; subst x.
  destruct Hd as [Hx _]. unfold front. rewrite Hhd. cbn [first_ptr]. mstep.
  by rewrite (value_Ok _ _ _ Hx).
Qed.

(** Two stores that hold the same chain agree on its nodes. *)
Lemma dseg_agree h h' pp cells qn a :
  dseg h pp cells qn → dseg h' pp cells qn → a ∈ cells.*1 → h' !! a = h !! a.
Proof.
  revert pp. induction cells as [|c cells IH]; intros pp Hd Hd' Ha.
  - by apply elem_of_nil in Ha.
  - destruct Hd as [Hc Hd], Hd' as [Hc' Hd']. rewrite fmap_cons in Ha.
    apply elem_of_cons in Ha as [->|Ha]; [by rewrite Hc, Hc'|].
    by apply (IH (Some c.1)).
Qed.

(** A list object is determined by its cells. *)
Lemma is_list_object h h' l l' cells : is_list h l cells → is_list h' l' cells → l' = l.
Proof.
  intros (_ & Hlen & _ & Hhd & Htl & _) (_ & Hlen' & _ & Hhd' & Htl' & _).
  destruct l, l'. simpl in *. congruence.
Qed.

(** The same list of the same cells, and nothing else touched: the same
    store. *)
Lemma is_list_store h h' l l' cells :
  is_list h l cells → is_list h' l' cells →
  (∀ a, a ∉ cells.*1 → h' !! a = h !! a) →
  h' = h ∧ l' = l.
Proof.
  intros Hl Hl' Hframe. split; [|by eapply is_list_object].
  apply map_eq. intros a. destruct (decide (a ∈ cells.*1)) as [Ha|Ha].
  - destruct Hl as (_ & _ & _ & _ & _ & Hd), Hl' as (_ & _ & _ & _ & _ & Hd').
    by eapply dseg_agree.
  - by apply Hframe.
Qed.

Lemma pushBack_popBack_restore h l cells v :
  is_list h l cells → Z.of_nat (length cells) + 1 < usize_modulus →
  ∃ h1 l1, pushBack l v h = Ok (l1, h1) ∧
           is_list h1 l1 (cells ++ [(unused h, v)]) ∧
           popBack l1 h1 = Ok ((v, l), h).
Proof.
  intros Hl Hroom.
  destruct (pushBack_is_list h l cells v Hl Hroom) as (h1 & l1 & Hrun & Hl1 & Hframe).
  destruct (popBack_is_list h1 l1 cells (unused h, v) Hl1)
    as (h2 & l2 & Hpop & Hl2 & Hgone & Hframe2).
  exists h1, l1. split; [done|]. split; [done|].
  destruct (is_list_store h h2 l l2 cells Hl Hl2) as [-> ->]; [|done].
  intros a Ha. destruct (decide (a = unused h)) as [->|Hne].
  - by rewrite unused_lookup.
  - rewrite Hframe2; [by apply Hframe|].
    rewrite fmap_app. intros Hin. apply elem_of_app in Hin as [Hin|Hin]; [done|].
    simpl in Hin. by apply list_elem_of_singleton in Hin.
Qed.

Lemma pushFront_popFront_restore h l cells v :
  is_list h l cells → Z.of_nat (length cells) + 1 < usize_modulus →
  ∃ h1 l1, pushFront l v h = Ok (l1, h1) ∧
           is_list h1 l1 ((unused h, v) :: cells) ∧
           popFront l1 h1 = Ok ((v, l), h).
Proof.
  intros Hl Hroom.
  destruct (pushFront_is_list h l cells v Hl Hroom) as (h1 & l1 & Hrun & Hl1 & Hframe).
  destruct (popFront_is_list h1 l1 (unused h, v) cells Hl1)
    as (h2 & l2 & Hpop & Hl2 & Hgone & Hframe2).
  exists h1, l1. split; [done|]. split; [done|].
  destruct (is_list_store h h2 l l2 cells Hl Hl2) as [-> ->]; [|done].
  intros a Ha. destruct (decide (a = unused h)) as [->|Hne].
  - by rewrite unused_lookup.
  - rewrite Hframe2; [by apply Hframe|].
    rewrite fmap_cons. intros Hin. apply elem_of_cons in Hin as [Hin|Hin]; done.
Qed.
End same_cells.

Section ends.
Context {T : Type}.
Implicit Types (h : gmap positive (Node T)) (cells xs ys : list (addr * T)) (c : addr * T).

(** X1: on a well-formed list with room for one more element, pushBack
    returns; the list is then the old cells followed by one new node that
    holds the value, at an address that was not in use; back() returns the
    value, the length is one more, and no node outside the list changes.
    pushFront does the same at the other end. *)
Theorem push_spec h l cells v :
  is_list h l cells → Z.of_nat (length cells) + 1 < usize_modulus →
  (∃ h' l', pushBack l v h = Ok (l', h') ∧
            is_list h' l' (cells ++ [(unused h, v)]) ∧
            len l' = len l + 1 ∧
            back l' h' = Ok (v, h') ∧
            (∀ a, a ≠ unused h → a ∉ cells.*1 → h' !! a = h !! a)) ∧
  (∃ h' l', pushFront l v h = Ok (l', h') ∧
            is_list h' l' ((unused h, v) :: cells) ∧
            len l' = len l + 1 ∧
            front l' h' = Ok (v, h') ∧
            (∀ a, a ≠ unused h → a ∉ cells.*1 → h' !! a = h !! a)).
Proof.
  intros Hl Hroom. pose proof Hl as (_ & Hlen & _). split.
  - destruct (pushBack_is_list h l cells v Hl Hroom) as (h' & l' & Hrun & Hl' & Hframe).
    exists h', l'. split; [done|]. split; [done|]. split; [|split; [|done]].
    + destruct Hl' as (_ & Hlen' & _). unfold len. rewrite Hlen', Hlen, length_app. simpl. lia.
    + apply (back_is_list h' l' _ (unused h, v) Hl'). by rewrite last_snoc.
  - destruct (pushFront_is_list h l cells v Hl Hroom) as (h' & l' & Hrun & Hl' & Hframe).
    exists h', l'. split; [done|]. split; [done|]. split; [|split; [|done]].
    + destruct Hl' as (_ & Hlen' & _). unfold len. rewrite Hlen', Hlen. simpl length. lia.
    + by apply (front_is_list h' l' _ (unused h, v) Hl').
Qed.

(** X2: on a well-formed list that is not empty, popFront returns the
    first value and popBack the last one; the list is then the other cells
    in their order, the removed node is deleted and no node outside the
    list changes.  On an empty list both dereference a null pointer. *)
Theorem pop_spec h l cells :
  is_list h l cells →
  (cells = [] → popFront l h = Undefined ∧ popBack l h = Undefined) ∧
  (∀ c ys, cells = c :: ys →
     ∃ h' l', popFront l h = Ok ((c.2, l'), h') ∧
              is_list h' l' ys ∧ h' !! c.1 = None ∧
              (∀ a, a ∉ cells.*1 → h' !! a = h !! a)) ∧
  (∀ xs c, cells = xs ++ [c] →
     ∃ h' l', popBack l h = Ok ((c.2, l'), h') ∧
              is_list h' l' xs ∧ h' !! c.1 = None ∧
              (∀ a, a ∉ cells.*1 → h' !! a = h !! a)).
Proof.
  intros Hl. split; [|split].
  - intros ->. apply is_list_nil_iff in Hl. by subst l.
  - intros c ys ->. apply (popFront_is_list h l c ys Hl).
  - intros xs c ->. apply (popBack_is_list h l xs c Hl).
Qed.

(** X3: on a well-formed list, front() returns the value of the first
    cell and back() the value of the last one, without changing the store;
    on an empty list both dereference a null pointer. *)
Theorem front_back_spec h l cells :
  is_list h l cells →
  (cells = [] → front l h = Undefined ∧ back l h = Undefined) ∧
  (∀ c, cells !! 0%nat = Some c → front l h = Ok (c.2, h)) ∧
  (∀ c, last cells = Some c → back l h = Ok (c.2, h)).
Proof.
  intros Hl. split; [|split].
  - intros ->. apply is_list_nil_iff in Hl. by subst l.
  - intros c Hc. by apply (front_is_list h l cells).
  - intros c Hc. by apply (back_is_list h l cells).
Qed.

(** X4: a push followed by the pop at the same end returns the pushed
    value and restores the list object and the whole store exactly as they
    were: pushBack then popBack, and pushFront then popFront. *)
Theorem push_pop_round_trip h l cells v :
  is_list h l cells → Z.of_nat (length cells) + 1 < usize_modulus →
  (∃ h1 l1, pushBack l v h = Ok (l1, h1) ∧ popBack l1 h1 = Ok ((v, l), h)) ∧
  (∃ h1 l1, pushFront l v h = Ok (l1, h1) ∧ popFront l1 h1 = Ok ((v, l), h)).
Proof.
  intros Hl Hroom. split.
  - destruct (pushBack_popBack_restore h l cells v Hl Hroom) as (h1 & l1 & Hpush & _ & Hpop).
    by exists h1, l1.
  - destruct (pushFront_popFront_restore h l cells v Hl Hroom) as (h1 & l1 & Hpush & _ & Hpop).
    by exists h1, l1.
Qed.
End ends.

Section ends_witnesses.
Import Samples.

Lemma push_spec_witness :
  (∃ h' l', pushBack (list_of cells_abc) 40 (store_of None cells_abc) = Ok (l', h') ∧
            is_list h' l' (cells_abc ++ [(unused (store_of None cells_abc), 40)]) ∧
            len l' = 4 ∧ back l' h' = Ok (40, h')) ∧
  (∃ h' l', pushFront (list_of cells_abc) 40 (store_of None cells_abc) = Ok (l', h') ∧
            is_list h' l' ((unused (store_of None cells_abc), 40) :: cells_abc) ∧
            len l' = 4 ∧ front l' h' = Ok (40, h')).
Proof.
  destruct (push_spec (store_of None cells_abc) (list_of cells_abc) cells_abc 40)
    as [(h1 & l1 & Hb1 & Hb2 & Hb3 & Hb4 & _) (h2 & l2 & Hf1 & Hf2 & Hf3 & Hf4 & _)];
    [exact abc_is_list | by vm_compute |].
  split; [exists h1, l1 | exists h2, l2]; done.
Defined.

Lemma pop_spec_witness :
  (∃ h' l', popFront (list_of cells_abc) (store_of None cells_abc) = Ok ((10, l'), h') ∧
            is_list h' l' [(2%positive, 20); (3%positive, 30)]) ∧
  (∃ h' l', popBack (list_of cells_abc) (store_of None cells_abc) = Ok ((30, l'), h') ∧
            is_list h' l' [(1%positive, 10); (2%positive, 20)]).
Proof.
  destruct (pop_spec (store_of None cells_abc) (list_of cells_abc) cells_abc)
    as (_ & Hfront & Hback); [exact abc_is_list|].
  split.
  - destruct (Hfront (1%positive, 10) [(2%positive, 20); (3%positive, 30)] eq_refl)
      as (h' & l' & Hrun & Hl' & _).
    by exists h', l'.
  - destruct (Hback [(1%positive, 10); (2%positive, 20)] (3%positive, 30) eq_refl)
      as (h' & l' & Hrun & Hl' & _).
    by exists h', l'.
Defined.

Lemma front_back_spec_witness :
  front (list_of cells_abc) (store_of None cells_abc) = Ok (10, store_of None cells_abc) ∧
  back (list_of cells_abc) (store_of None cells_abc) = Ok (30, store_of None cells_abc).
Proof.
  destruct (front_back_spec (store_of None cells_abc) (list_of cells_abc) cells_abc)
    as (_ & Hfront & Hback); [exact abc_is_list|].
  split.
  - exact (Hfront (1%positive, 10) eq_refl).
  - exact (Hback (3%positive, 30) eq_refl).
Defined.

Lemma push_pop_round_trip_witness :
  (∃ h1 l1, pushBack (list_of cells_abc) 40 (store_of None cells_abc) = Ok (l1, h1) ∧
            popBack l1 h1 = Ok ((40, list_of cells_abc), store_of None cells_abc)) ∧
  (∃ h1 l1, pushFront (list_of cells_abc) 40 (store_of None cells_abc) = Ok (l1, h1) ∧
            popFront l1 h1 = Ok ((40, list_of cells_abc), store_of None cells_abc)).
Proof.
  apply (push_pop_round_trip (store_of None cells_abc) (list_of cells_abc) cells_abc 40);
    [exact abc_is_list | by vm_compute].
Defined.
End ends_witnesses.


Section whole_list.
Context {T : Type}.
Implicit Types (h : gmap positive (Node T)) (cells xs ys : list (addr * T)) (c : addr * T).

(** X7: on a well-formed list, clear() with enough fuel returns the
    empty list; every node of the list is deleted and no other node
    changes. *)
Theorem clear_spec h l cells fuel :
  is_list h l cells → (length cells ≤ fuel)%nat →
  ∃ h', clear fuel l h = Ok (List_new, h') ∧
        is_list h' List_new [] ∧
        (∀ a, a ∈ cells.*1 → h' !! a = None) ∧
        (∀ a, a ∉ cells.*1 → h' !! a = h !! a).
Proof. apply clear_is_list. Qed.

(** X8: for two distinct well-formed lists that share no node, the
    assignment this = other returns with enough fuel; this list then holds
    the values of other in the same order in nodes of its own, and other
    is as it was.  The copy constructor, which assigns to a new empty
    list, gives such a copy of any well-formed list. *)
Theorem assign_spec h this other ct co fuel :
  is_list h this ct → is_list h other co →
  (∀ a, a ∈ ct.*1 → a ∉ co.*1) →
  (length ct ≤ fuel)%nat → (length co ≤ fuel)%nat →
  (∃ h' l' cells',
      assign fuel this other h = Ok (l', h') ∧
      is_list h' l' cells' ∧ cells'.*2 = co.*2 ∧
      is_list h' other co ∧
      (∀ a, a ∈ cells'.*1 → a ∉ co.*1)) ∧
  (∃ h' l' cells',
      List_copy fuel other h = Ok (l', h') ∧
      is_list h' l' cells' ∧ cells'.*2 = co.*2 ∧
      is_list h' other co ∧
      (∀ a, a ∈ cells'.*1 → a ∉ co.*1)).
Proof.
  intros Ht Ho Hdisj Hft Hfo. split.
  - by apply assign_is_list with ct.
  - unfold List_copy. apply assign_is_list with [].
    + by apply is_list_nil_iff.
    + done.
    + intros a Ha. by apply elem_of_nil in Ha.
    + simpl. lia.
    + done.
Qed.
End whole_list.

Section whole_list_witnesses.
Import Samples.

Lemma disjoint_abc_de : ∀ a, a ∈ cells_abc.*1 → a ∉ cells_de.*1.
Proof. intros a Ha Hin. revert Ha Hin. unfold cells_abc, cells_de. set_solver. Qed.

Lemma clear_spec_witness :
  ∃ h', clear 3 (list_of cells_abc) store_abc_de = Ok (List_new, h') ∧
        h' !! 1%positive = None ∧ h' !! 3%positive = None ∧
        h' !! 4%positive = store_abc_de !! 4%positive.
Proof.
  destruct (clear_spec store_abc_de (list_of cells_abc) cells_abc 3)
    as (h' & Hrun & _ & Hgone & Hframe); [exact abc_is_list_both | simpl; lia |].
  exists h'. split; [exact Hrun|]. split; [|split].
  - apply Hgone. unfold cells_abc. set_solver.
  - apply Hgone. unfold cells_abc. set_solver.
  - apply Hframe. unfold cells_abc. set_solver.
Defined.

Lemma assign_spec_witness :
  (∃ h' l' cells',
      assign 3 (list_of cells_abc) (list_of cells_de) store_abc_de = Ok (l', h') ∧
      is_list h' l' cells' ∧ cells'.*2 = [30; 10] ∧
      is_list h' (list_of cells_de) cells_de) ∧
  (∃ h' l' cells',
      List_copy 3 (list_of cells_de) store_abc_de = Ok (l', h') ∧
      is_list h' l' cells' ∧ cells'.*2 = [30; 10] ∧
      is_list h' (list_of cells_de) cells_de).
Proof.
  destruct (assign_spec store_abc_de (list_of cells_abc) (list_of cells_de) cells_abc cells_de 3)
    as [(h1 & l1 & c1 & Ha1 & Ha2 & Ha3 & Ha4 & _) (h2 & l2 & c2 & Hc1 & Hc2 & Hc3 & Hc4 & _)];
    [exact abc_is_list_both | exact de_is_list_both | exact disjoint_abc_de
    | simpl; lia | simpl; lia |].
  split; [exists h1, l1, c1 | exists h2, l2, c2]; done.
Defined.
End whole_list_witnesses.


Section reading.
Context {T : Type}.
Implicit Types (h : gmap positive (Node T)) (cells xs ys : list (addr * T)) (c : addr * T).

Lemma NO_POS_value : NO_POS = usize_modulus - 1.
Proof. reflexivity. Qed.

Lemma usize_modulus_pos : 0 < usize_modulus.
Proof. reflexivity. Qed.

Lemma wrap_negative z : - usize_modulus ≤ z < 0 → wrap z = z + usize_modulus.
Proof.
  intros Hz. unfold wrap. pose proof usize_modulus_pos.
  replace z with ((z + usize_modulus) + (-1) * usize_modulus) at 1 by lia.
  rewrite Z.mod_add by lia. apply Z.mod_small. lia.
Qed.

Lemma dseg_drop h cells k :
  dseg h None cells None → dseg h (last_ptr (take k cells) None) (drop k cells) None.
Proof.
  intros Hd. rewrite <- (take_drop k cells) in Hd at 1.
  by apply dseg_app in Hd as [_ Hd].
Qed.

Lemma at_is_list h l cells i c :
  is_list h l cells → 0 ≤ i → cells !! Z.to_nat i = Some c →
  at_ l i h = Ok (c.2, h) ∧ op_subscript l i h = Ok (c.2, h).
Proof.
  intros Hl Hi Hc. pose proof Hl as (_ & Hlen & _ & _ & _ & Hd).
  pose proof (lookup_lt_Some _ _ _ Hc) as Hbound.
  pose proof (atNode_is_list _ _ _ _ _ Hl Hi Hc) as Hat.
  pose proof (dseg_lookup _ _ _ _ _ _ Hd Hc) as Hnode.
  assert (op_subscript l i h = Ok (c.2, h)) as Hsub.
  { unfold op_subscript. rewrite (bind_Ok _ _ _ _ _ Hat). simpl deref.
    unfold mbind at 1, M_bind, bind, ret.
    by rewrite (value_Ok _ _ _ Hnode). }
  split; [|done]. unfold at_.
  destruct (Z.geb_spec i (_len l)) as [Hge|_]; [lia|]. exact Hsub.
Qed.

(** Walking back from the last node by more hops than there are nodes
    leaves the chain; by exactly as many, it ends on the null pointer. *)
Lemma retreat_loop_exact h cells qn :
  dseg h None cells qn →
  retreat_loop (length cells) (last_ptr cells None) h = Ok (None, h).
Proof.
  revert qn. induction cells as [|c xs IH] using rev_ind; intros qn Hd; [done|].
  apply dseg_snoc in Hd as [Hxs Hc].
  rewrite length_app, Nat.add_comm, last_ptr_snoc. simpl. mstep.
  rewrite (bind_Ok _ _ _ _ _ (back_Ok _ _ _ Hc)). simpl. by apply IH with (Some c.1).
Qed.

Lemma retreat_loop_overshoot h cells qn n :
  dseg h None cells qn → (length cells < n)%nat →
  retreat_loop n (last_ptr cells None) h = Undefined.
Proof.
  revert qn n. induction cells as [|c xs IH] using rev_ind; intros qn n Hd Hn.
  - destruct n; [simpl in Hn; lia|]. done.
  - apply dseg_snoc in Hd as [Hxs Hc].
    rewrite length_app in Hn. simpl in Hn. destruct n as [|n]; [lia|].
    rewrite last_ptr_snoc. simpl. mstep.
    rewrite (bind_Ok _ _ _ _ _ (back_Ok _ _ _ Hc)). simpl.
    apply IH with (Some c.1); [done|lia].
Qed.

(** X9: on a well-formed list, operator[] returns the value at a
    position that exists, as at() does, and leaves the store as it is.
    For an index from the length on it never returns an element: every
    such call dereferences a null pointer. *)
Theorem op_subscript_spec h l cells i :
  is_list h l cells → 0 ≤ i < usize_modulus →
  (∀ c, cells !! Z.to_nat i = Some c →
     op_subscript l i h = Ok (c.2, h) ∧ at_ l i h = Ok (c.2, h)) ∧
  (_len l ≤ i → op_subscript l i h = Undefined).
Proof.
  intros Hl [Hi0 Hi1]. split.
  { intros c Hc. destruct (at_is_list h l cells i c Hl Hi0 Hc). done. }
  intros Hout. pose proof Hl as (_ & Hlen & Hbound & Hhd & Htl & Hd).
  pose proof usize_modulus_pos as Hpos.
  unfold op_subscript, atNode.
  destruct cells as [|c0 cells0 _] using rev_ind.
  - (* the empty list *)
    simpl in Hlen. rewrite Hlen, Hhd, Htl. simpl first_ptr. rewrite last_ptr_nil.
    destruct (Z.eqb_spec i 0); [done|].
    destruct (i =? _); [done|]. by destruct (i <=? _).
  - rewrite length_app in Hlen, Hbound. simpl in Hlen, Hbound.
    destruct (Z.eqb_spec i 0); [lia|].
    rewrite (wrap_small (_len l - 1)) by lia.
    destruct (Z.eqb_spec i (_len l - 1)); [lia|].
    destruct (Z.leb_spec i (_len l / 2)) as [Hhalf|_].
    { assert (_len l / 2 < _len l) by (apply Z.div_lt; lia). lia. }
    rewrite Htl, last_ptr_snoc. do 2 mstep. unfold retreat.
    set (hops := Z.to_nat (wrap (wrap (_len l - i) - 1))).
    assert (length (cells0 ++ [c0]) ≤ hops)%nat as Hn.
    { subst hops. rewrite length_app. simpl.
      destruct (decide (i = _len l)) as [->|Hne].
      - rewrite Z.sub_diag, (wrap_small 0) by lia.
        rewrite wrap_negative by lia. lia.
      - rewrite (wrap_negative (_len l - i)) by lia.
        rewrite wrap_small by lia. lia. }
    rewrite <- (last_ptr_snoc cells0 c0 None).
    destruct (decide (hops = length (cells0 ++ [c0]))) as [->|Hgt].
    + by rewrite (bind_Ok _ _ _ _ _ (retreat_loop_exact _ _ _ Hd)).
    + unfold mbind, M_bind, bind.
      rewrite (retreat_loop_overshoot h _ None hops Hd) by lia. done.
Qed.

(** X10: on a well-formed list with room for one more element,
    insertBackward(value, at) returns with the new node at position
    min(at, length), and insertForward(value, at) with the new node at
    position min(at + 1, length); the other cells keep their order, and
    at() at that position then returns the value. *)
Theorem insert_spec h l cells v i :
  is_list h l cells → Z.of_nat (length cells) + 1 < usize_modulus → 0 ≤ i →
  (∃ h' l', insertBackward l v i h = Ok (l', h') ∧
            is_list h' l' (insert_at (clamp i (_len l)) (unused h, v) cells) ∧
            at_ l' (Z.min i (_len l)) h' = Ok (v, h')) ∧
  (∃ h' l', insertForward l v i h = Ok (l', h') ∧
            is_list h' l' (insert_at (clamp (i + 1) (_len l)) (unused h, v) cells) ∧
            at_ l' (Z.min (i + 1) (_len l)) h' = Ok (v, h')).
Proof.
  intros Hl Hroom Hi. pose proof Hl as (_ & Hlen & _).
  assert (∀ k : Z, 0 ≤ k ≤ _len l →
            insert_at (Z.to_nat k) (unused h, v) cells !! Z.to_nat k = Some (unused h, v))
    as Hat.
  { intros k Hk. unfold insert_at. rewrite lookup_app_r; rewrite length_take; [|lia].
    replace (Z.to_nat k - Z.to_nat k `min` length cells)%nat with 0%nat by lia. done. }
  split.
  - destruct (insert_is_list h l cells v i true Hl Hroom Hi) as (h' & l' & Hrun & Hl' & _).
    assert (insert_position true i (_len l) = Z.min i (_len l)) as Hpos.
    { unfold insert_position. destruct (Z.geb_spec i (_len l)); lia. }
    rewrite Hpos in Hl'. exists h', l'. split; [done|]. split; [done|].
    apply (at_is_list h' l' _ _ (unused h, v) Hl'); [lia|]. apply Hat. lia.
  - destruct (insert_is_list h l cells v i false Hl Hroom Hi) as (h' & l' & Hrun & Hl' & _).
    assert (insert_position false i (_len l) = Z.min (i + 1) (_len l)) as Hpos.
    { unfold insert_position. destruct (Z.geb_spec i (_len l)); lia. }
    rewrite Hpos in Hl'. exists h', l'. split; [done|]. split; [done|].
    apply (at_is_list h' l' _ _ (unused h, v) Hl'); [lia|]. apply Hat. lia.
Qed.

Lemma fold_loop_dseg {B} h pp cells fuel (action : T → B → B) init :
  dseg h pp cells None → (length cells ≤ fuel)%nat →
  fold_loop fuel action init (first_ptr cells None) h =
    Ok (foldl (λ acc v, action v acc) init cells.*2, h).
Proof.
  revert pp fuel init. induction cells as [|c rest IH]; intros pp fuel init Hd Hf.
  { by destruct fuel. }
  destruct fuel as [|fuel]; [simpl in Hf; lia|].
  destruct Hd as [Hc Hrest]. simpl. do 2 mstep.
  apply IH with (Some c.1); [done|simpl in Hf; lia].
Qed.

Lemma foldl_snoc_values (acc vs : list T) : foldl (λ acc v, acc ++ [v]) acc vs = acc ++ vs.
Proof.
  revert acc. induction vs as [|v vs IH]; intros acc; simpl.
  - by rewrite app_nil_r.
  - by rewrite IH, <- app_assoc.
Qed.

(** X11: on a well-formed list, fold(action, initial) with enough fuel
    returns the accumulator after the action has been applied to every
    value once, front to back, and leaves the store as it is; collecting
    the values this way gives the values of the cells in order. *)
Theorem fold_spec {B} h l cells fuel (action : T → B → B) init :
  is_list h l cells → (length cells ≤ fuel)%nat →
  fold fuel action init l h = Ok (foldl (λ acc v, action v acc) init cells.*2, h) ∧
  to_values fuel l h = Ok (cells.*2, h).
Proof.
  intros (_ & _ & _ & Hhd & _ & Hd) Hfuel. unfold to_values, fold. rewrite Hhd. split.
  - by apply fold_loop_dseg with None.
  - rewrite (fold_loop_dseg h None cells fuel _ [] Hd Hfuel). by rewrite foldl_snoc_values.
Qed.
End reading.

Section searching.
Context {T : Type} `{EqDecision T}.
Implicit Types (h : gmap positive (Node T)) (cells xs ys : list (addr * T)) (c : addr * T).

Lemma find_skip_is_list h l cells fuel v skip :
  is_list h l cells → (length cells ≤ fuel)%nat → 0 ≤ skip →
  find fuel l v skip h = Ok (find_result v (drop (Z.to_nat skip) cells) skip, h).
Proof.
  intros (Hnd & Hlen & Hlt & Hhd & Htl & Hd) Hf Hskip.
  unfold find. destruct (Z.geb_spec skip (_len l)) as [Hge|Hin].
  { rewrite drop_ge by lia. done. }
  destruct (lookup_lt_is_Some_2 cells (Z.to_nat skip)) as [c Hc]; [lia|].
  destruct (lookup_lt_is_Some_2 cells 0) as [c0 Hc0]; [lia|].
  pose proof (first_ptr_lookup cells None c0 Hc0) as Hfirst.
  rewrite Hhd, Hfirst. mstep. unfold advance. rewrite <- Hfirst.
  rewrite (bind_Ok _ _ _ _ _ (advance_loop_dseg _ _ _ _ _ _ Hd Hc)).
  assert (Some c.1 = first_ptr (drop (Z.to_nat skip) cells) None) as ->.
  { by rewrite (drop_S _ _ _ Hc). }
  eapply find_loop_dseg.
  - by apply dseg_drop.
  - rewrite length_drop. lia.
  - lia.
Qed.

(** X12: on a well-formed list, find(value, skip) with enough fuel
    returns, leaving the store as it is, the first position from skip on
    that holds the value, and NO_POS exactly when there is none (also when
    skip is beyond the list); contains(value) is true exactly when the
    value occurs in the list. *)
Theorem find_spec h l cells fuel v skip :
  is_list h l cells → (length cells ≤ fuel)%nat → 0 ≤ skip →
  ∃ r, find fuel l v skip h = Ok (r, h) ∧
       (r = NO_POS ↔ ∀ j, skip ≤ j → cells.*2 !! Z.to_nat j ≠ Some v) ∧
       (r ≠ NO_POS →
          skip ≤ r ∧ cells.*2 !! Z.to_nat r = Some v ∧
          ∀ j, skip ≤ j < r → cells.*2 !! Z.to_nat j ≠ Some v) ∧
       contains_value fuel l v h = Ok (bool_decide (v ∈ cells.*2), h).
Proof.
  intros Hl Hfuel Hskip. pose proof Hl as (_ & Hlen & Hbound & _).
  eexists. split; [by apply find_skip_is_list|].
  split; [|split; [|by apply contains_value_is_list]].
  - unfold find_result.
    destruct (list_find _ (drop (Z.to_nat skip) cells)) as [[i x]|] eqn:Hf.
    + apply list_find_Some in Hf as (Hi & Hx & _).
      pose proof (lookup_lt_Some _ _ _ Hi) as Hlt. rewrite length_drop in Hlt.
      rewrite lookup_drop in Hi. rewrite wrap_small by lia. split.
      * rewrite NO_POS_value. lia.
      * intros Hnone. exfalso. apply (Hnone (skip + Z.of_nat i)); [lia|].
        rewrite list_lookup_fmap.
        replace (Z.to_nat (skip + Z.of_nat i)) with (Z.to_nat skip + i)%nat by lia.
        by rewrite Hi, <- Hx.
    + split; [|done]. intros _ j Hj Hv.
      apply list_find_None in Hf. rewrite Forall_forall in Hf.
      rewrite list_lookup_fmap in Hv.
      destruct (cells !! Z.to_nat j) as [x|] eqn:Hx; [|done].
      simpl in Hv. inversion Hv as [Hxv]. apply (Hf x); [|done].
      apply list_elem_of_lookup. exists (Z.to_nat j - Z.to_nat skip)%nat.
      rewrite lookup_drop. rewrite <- Hx. f_equal. lia.
  - unfold find_result.
    destruct (list_find _ (drop (Z.to_nat skip) cells)) as [[i x]|] eqn:Hf; [|done].
    intros _. apply list_find_Some in Hf as (Hi & Hx & Hbefore).
    pose proof (lookup_lt_Some _ _ _ Hi) as Hlt. rewrite length_drop in Hlt.
    rewrite wrap_small by lia. split; [lia|]. split.
    + rewrite lookup_drop in Hi. rewrite list_lookup_fmap.
      replace (Z.to_nat (skip + Z.of_nat i)) with (Z.to_nat skip + i)%nat by lia.
      by rewrite Hi, <- Hx.
    + intros j Hj Hv. rewrite list_lookup_fmap in Hv.
      destruct (cells !! Z.to_nat j) as [y|] eqn:Hy; [|done].
      simpl in Hv. inversion Hv as [Hyv].
      apply (Hbefore (Z.to_nat j - Z.to_nat skip)%nat y); [|lia|done].
      rewrite lookup_drop. rewrite <- Hy. f_equal. lia.
Qed.

Lemma equals_loop_dseg h pa pb xs ys fuel :
  dseg h pa xs None → dseg h pb ys None → length xs = length ys →
  (length xs ≤ fuel)%nat →
  equals_loop fuel (first_ptr xs None) (first_ptr ys None) h =
    Ok (bool_decide (xs.*2 = ys.*2), h).
Proof.
  revert pa pb ys fuel.
  induction xs as [|x xs IH]; intros pa pb ys fuel Hx Hy Hlen Hf.
  { destruct ys; [|done]. by destruct fuel. }
  destruct ys as [|y ys]; [done|].
  destruct fuel as [|fuel]; [simpl in Hf; lia|].
  destruct Hx as [Hx Hxs], Hy as [Hy Hys]. cbn [equals_loop first_ptr].
  mstep. mstep.
  rewrite (bind_Ok _ _ _ _ _ (value_Ok _ _ _ Hy)). cbv beta iota zeta. cbn [_value].
  destruct (decide (x.2 = y.2)) as [Heq|Hne].
  - mstep.
    rewrite (bind_Ok _ _ _ _ _ (next_Ok _ _ _ Hy)). cbv beta iota zeta. cbn [_next].
    rewrite (IH (Some x.1) (Some y.1) ys fuel Hxs Hys); [|simpl in Hlen; lia|simpl in Hf; lia].
    do 2 f_equal. rewrite !fmap_cons.
    destruct (decide (xs.*2 = ys.*2)) as [E|E].
    + rewrite !bool_decide_eq_true_2; [done|congruence|done].
    + rewrite !bool_decide_eq_false_2; [done|congruence|done].
  - rewrite bool_decide_eq_false_2; [done|]. rewrite !fmap_cons. congruence.
Qed.

(** X13: for two well-formed lists in one store, operator== with enough
    fuel returns, leaving the store as it is, true exactly when the two
    lists hold the same values in the same order. *)
Theorem equals_spec h a b ca cb fuel :
  is_list h a ca → is_list h b cb → (length ca ≤ fuel)%nat →
  equals fuel a b h = Ok (bool_decide (ca.*2 = cb.*2), h).
Proof.
  intros (_ & Hlena & _ & Hhda & _ & Hda) (_ & Hlenb & _ & Hhdb & _ & Hdb) Hfuel.
  unfold equals. rewrite Hlena, Hlenb, Hhda, Hhdb.
  destruct (Z.eqb_spec (Z.of_nat (length ca)) (Z.of_nat (length cb))) as [Heq|Hne]; simpl.
  - apply equals_loop_dseg with None None; [done|done|lia|done].
  - rewrite bool_decide_eq_false_2; [done|].
    intros E. apply Hne. f_equal.
    by rewrite <- (length_fmap snd ca), <- (length_fmap snd cb), E.
Qed.
End searching.

Section reading_witnesses.
Import Samples.

Lemma op_subscript_spec_witness :
  op_subscript (list_of cells_abc) 2 (store_of None cells_abc) =
    Ok (30, store_of None cells_abc) ∧
  op_subscript (list_of cells_abc) 3 (store_of None cells_abc) = Undefined.
Proof.
  destruct (op_subscript_spec (store_of None cells_abc) (list_of cells_abc) cells_abc 2)
    as [Hin _]; [exact abc_is_list | by vm_compute |].
  destruct (op_subscript_spec (store_of None cells_abc) (list_of cells_abc) cells_abc 3)
    as [_ Hout]; [exact abc_is_list | by vm_compute |].
  split.
  - exact (proj1 (Hin (3%positive, 30) eq_refl)).
  - apply Hout. simpl. lia.
Defined.

Lemma insert_spec_witness :
  (∃ h' l', insertBackward (list_of cells_abc) 15 1 (store_of None cells_abc) = Ok (l', h') ∧
            is_list h' l' [(1%positive, 10); (unused (store_of None cells_abc), 15);
                           (2%positive, 20); (3%positive, 30)] ∧
            at_ l' 1 h' = Ok (15, h')) ∧
  (∃ h' l', insertForward (list_of cells_abc) 15 1 (store_of None cells_abc) = Ok (l', h') ∧
            is_list h' l' [(1%positive, 10); (2%positive, 20);
                           (unused (store_of None cells_abc), 15); (3%positive, 30)] ∧
            at_ l' 2 h' = Ok (15, h')).
Proof.
  apply (insert_spec (store_of None cells_abc) (list_of cells_abc) cells_abc 15 1);
    [exact abc_is_list | by vm_compute | lia].
Defined.

Lemma fold_spec_witness :
  fold 3 Z.add 0 (list_of cells_abc) (store_of None cells_abc) =
    Ok (60, store_of None cells_abc) ∧
  to_values 3 (list_of cells_abc) (store_of None cells_abc) =
    Ok ([10; 20; 30], store_of None cells_abc).
Proof.
  apply (fold_spec (store_of None cells_abc) (list_of cells_abc) cells_abc 3 Z.add 0);
    [exact abc_is_list | simpl; lia].
Defined.

Lemma find_spec_witness :
  ∃ r, find 3 (list_of cells_abc) 20 1 (store_of None cells_abc) =
         Ok (r, store_of None cells_abc) ∧
       (r ≠ NO_POS → 1 ≤ r ∧ cells_abc.*2 !! Z.to_nat r = Some 20) ∧
       contains_value 3 (list_of cells_abc) 20 (store_of None cells_abc) =
         Ok (true, store_of None cells_abc).
Proof.
  destruct (find_spec (store_of None cells_abc) (list_of cells_abc) cells_abc 3 20 1)
    as (r & Hrun & _ & Hfound & Hcontains); [exact abc_is_list | simpl; lia | lia |].
  exists r. split; [exact Hrun|]. split; [|exact Hcontains].
  intros Hr. destruct (Hfound Hr) as (? & ? & _). done.
Defined.

Lemma equals_spec_witness :
  equals 3 (list_of cells_abc) (list_of cells_de) store_abc_de = Ok (false, store_abc_de) ∧
  equals 3 (list_of cells_abc) (list_of cells_abc) store_abc_de = Ok (true, store_abc_de).
Proof.
  pose proof (equals_spec store_abc_de (list_of cells_abc) (list_of cells_de)
                cells_abc cells_de 3 abc_is_list_both de_is_list_both) as Hdiff.
  pose proof (equals_spec store_abc_de (list_of cells_abc) (list_of cells_abc)
                cells_abc cells_abc 3 abc_is_list_both abc_is_list_both) as Hsame.
  rewrite bool_decide_eq_false_2 in Hdiff by done.
  rewrite bool_decide_eq_true_2 in Hsame by done.
  split; [apply Hdiff | apply Hsame]; simpl; lia.
Defined.
End reading_witnesses.


Section backward_search.
Context {T : Type} `{EqDecision T}.
Implicit Types (h : gmap positive (Node T)) (cells xs ys : list (addr * T)) (c : addr * T).

Lemma rfind_result_snoc_hit (v : T) vs : rfind_result v (vs ++ [v]) = Z.of_nat (length vs).
Proof.
  unfold rfind_result. rewrite rev_app_distr. simpl.
  rewrite decide_True by done. rewrite length_app. simpl. lia.
Qed.

Lemma rfind_result_snoc_miss (v x : T) vs :
  x ≠ v → rfind_result v (vs ++ [x]) = rfind_result v vs.
Proof.
  intros Hne. unfold rfind_result. rewrite rev_app_distr. simpl.
  rewrite decide_False by done.
  destruct (list_find _ (rev vs)) as [[i y]|]; simpl; [|done].
  rewrite length_app. simpl. lia.
Qed.

Lemma rfind_loop_dseg h cells qn fuel v :
  dseg h None cells qn → (length cells ≤ fuel)%nat →
  Z.of_nat (length cells) < usize_modulus →
  rfind_loop fuel v (last_ptr cells None) (wrap (Z.of_nat (length cells) - 1)) h =
    Ok (rfind_result v cells.*2, h).
Proof.
  revert qn fuel. induction cells as [|c xs IH] using rev_ind; intros qn fuel Hd Hf Hb.
  { by destruct fuel. }
  rewrite length_app in Hf, Hb. simpl in Hf, Hb.
  destruct fuel as [|fuel]; [lia|].
  apply dseg_snoc in Hd as [Hxs Hc].
  rewrite last_ptr_snoc, fmap_app, length_app. simpl.
  rewrite (bind_Ok _ _ _ _ _ (value_Ok _ _ _ Hc)). cbn [_value].
  destruct (decide (c.2 = v)) as [<-|Hne].
  - rewrite rfind_result_snoc_hit, length_fmap. unfold mret, M_ret, ret.
    rewrite wrap_small by lia. do 3 f_equal. lia.
  - rewrite (bind_Ok _ _ _ _ _ (back_Ok _ _ _ Hc)). cbn [_back].
    rewrite rfind_result_snoc_miss by done.
    rewrite wrap_pred_sub.
    replace (Z.of_nat (length xs + 1) - (1 + 1)) with (Z.of_nat (length xs) - 1) by lia.
    apply IH with (Some c.1); [done|lia|lia].
Qed.

(** The last position of a value, read off the result. *)
Lemma rfind_result_spec (v : T) vs :
  Z.of_nat (length vs) < usize_modulus →
  (rfind_result v vs = NO_POS ↔ v ∉ vs) ∧
  (rfind_result v vs ≠ NO_POS →
     0 ≤ rfind_result v vs ∧ vs !! Z.to_nat (rfind_result v vs) = Some v ∧
     ∀ j, rfind_result v vs < j → vs !! Z.to_nat j ≠ Some v).
Proof.
  intros Hb. induction vs as [|x vs IH] using rev_ind.
  { split; [split; [intros _; apply not_elem_of_nil|done]|done]. }
  rewrite length_app in Hb. simpl in Hb.
  destruct (decide (x = v)) as [->|Hne].
  - rewrite rfind_result_snoc_hit. split.
    + split; [rewrite NO_POS_value; lia|]. intros Hn. exfalso. apply Hn.
      apply elem_of_app. right. by apply list_elem_of_singleton.
    + intros _. rewrite Nat2Z.id. split; [lia|]. split.
      * by rewrite lookup_app_r, Nat.sub_diag.
      * intros j Hj Hv. apply lookup_lt_Some in Hv. rewrite length_app in Hv. simpl in Hv. lia.
  - rewrite rfind_result_snoc_miss by done.
    destruct IH as [IH1 IH2]; [lia|]. split.
    + rewrite IH1. split.
      * intros Hn Hin. apply elem_of_app in Hin as [Hin|Hin]; [done|].
        by apply list_elem_of_singleton in Hin.
      * intros Hn Hin. apply Hn. apply elem_of_app. by left.
    + intros Hr. destruct (IH2 Hr) as (Hr0 & Hat & Hafter).
      split; [done|]. split.
      * by apply lookup_app_l_Some.
      * intros j Hj Hv.
        destruct (decide (Z.to_nat j < length vs)%nat) as [Hlt|Hge].
        -- rewrite lookup_app_l in Hv by done. by apply (Hafter j).
        -- rewrite lookup_app_r in Hv by lia.
           destruct (Z.to_nat j - length vs)%nat; simpl in Hv; [|done].
           by inversion Hv.
Qed.

(** X14: on a well-formed list, rfind(value) with enough fuel returns,
    leaving the store as it is, the last position that holds the value,
    and NO_POS exactly when the value does not occur.  With a skip from
    the length on it returns NO_POS; with a skip between 1 and length - 1
    it starts from the pointer expression tail - skip, which is no node of
    the list. *)
Theorem rfind_spec h l cells fuel v :
  is_list h l cells → (length cells ≤ fuel)%nat →
  (∃ r, rfind fuel l v 0 h = Ok (r, h) ∧
        (r = NO_POS ↔ v ∉ cells.*2) ∧
        (r ≠ NO_POS →
           0 ≤ r ∧ cells.*2 !! Z.to_nat r = Some v ∧
           ∀ j, r < j → cells.*2 !! Z.to_nat j ≠ Some v)) ∧
  (∀ skip, _len l ≤ skip → rfind fuel l v skip h = Ok (NO_POS, h)) ∧
  (∀ skip, 0 < skip < _len l → rfind fuel l v skip h = Undefined).
Proof.
  intros (_ & Hlen & Hb & _ & Htl & Hd) Hfuel. split; [|split].
  - exists (rfind_result v cells.*2).
    split; [|apply rfind_result_spec; by rewrite length_fmap].
    unfold rfind. destruct (Z.geb_spec 0 (_len l)) as [Hge|Hlt].
    + assert (cells = []) as -> by (destruct cells; [done|simpl in Hlen; lia]). done.
    + simpl. mstep. rewrite Z.sub_0_r, (wrap_small (_len l)) by lia.
      rewrite Htl, Hlen. by apply rfind_loop_dseg with None.
  - intros skip Hskip. unfold rfind. by destruct (Z.geb_spec skip (_len l)); [|lia].
  - intros skip Hskip. unfold rfind. destruct (Z.geb_spec skip (_len l)); [lia|].
    by destruct (Z.eqb_spec skip 0); [lia|].
Qed.
End backward_search.

Section all_positions.
Context {T : Type} `{EqDecision T}.
Implicit Types (h : gmap positive (Node T)) (g : gmap positive (Node Z)).
Implicit Types (cells : list (addr * T)) (ics : list (addr * Z)).

Lemma bind_on_fst_Ok {A B} (m : M (gmap positive (Node T)) A)
    (k : A → M (gmap positive (Node T) * gmap positive (Node Z)) B) h g x h' :
  m h = Ok (x, h') → (on_fst m ≫= k) (h, g) = k x (h', g).
Proof. intros E. unfold mbind, M_bind, bind, on_fst. simpl. by rewrite E. Qed.

Lemma bind_on_snd_Ok {A B} (m : M (gmap positive (Node Z)) A)
    (k : A → M (gmap positive (Node T) * gmap positive (Node Z)) B) h g x g' :
  m g = Ok (x, g') → (on_snd m ≫= k) (h, g) = k x (h, g').
Proof. intros E. unfold mbind, M_bind, bind, on_snd. simpl. by rewrite E. Qed.

Lemma bind_mret_any {S A B} (x : A) (k : A → M S B) s : (mret x ≫= k) s = k x s.
Proof. reflexivity. Qed.

Lemma findAll_loop_dseg h pp cells fuel v g indices ics at_ :
  dseg h pp cells None → (length cells ≤ fuel)%nat →
  is_list g indices ics →
  0 ≤ at_ → at_ + Z.of_nat (length cells) < usize_modulus →
  Z.of_nat (length ics + length cells) < usize_modulus →
  ∃ g' indices' ics',
    findAll_loop fuel v indices (first_ptr cells None) at_ (h, g) = Ok (indices', (h, g')) ∧
    is_list g' indices' ics' ∧
    ics'.*2 = ics.*2 ++ positions v cells.*2 at_ ∧
    (∀ a, is_Some (g !! a) → a ∉ ics.*1 → g' !! a = g !! a).
Proof.
  revert pp fuel g indices ics at_.
  induction cells as [|c rest IH]; intros pp fuel g indices ics at_ Hd Hf Hi Hat Hb Hroom.
  { exists g, indices, ics. destruct fuel; simpl; by rewrite app_nil_r. }
  destruct fuel as [|fuel]; [simpl in Hf; lia|].
  destruct Hd as [Hc Hrest]. simpl in Hf, Hb, Hroom.
  cbn [findAll_loop first_ptr].
  rewrite (bind_on_fst_Ok _ _ _ _ _ _ (value_Ok _ _ _ Hc)). cbn [_value].
  rewrite fmap_cons. cbn [positions].
  destruct (decide (c.2 = v)) as [Heq|Hne].
  - destruct (pushBack_is_list g indices ics at_ Hi) as (g1 & i1 & Hpush & Hi1 & Hframe1); [lia|].
    rewrite (bind_on_snd_Ok _ _ _ _ _ _ Hpush).
    rewrite (bind_on_fst_Ok _ _ _ _ _ _ (next_Ok _ _ _ Hc)). cbn [_next].
    rewrite wrap_small by lia.
    destruct (IH (Some c.1) fuel g1 i1 (ics ++ [(unused g, at_)]) (at_ + 1) Hrest) as (g' & i' & ics' & Hrun & Hi' & Hv & Hfr);
      [lia|done|lia|lia|rewrite length_app; simpl; lia|].
    exists g', i', ics'. split; [done|]. split; [done|]. split.
    + rewrite Hv, fmap_app. simpl. by rewrite <- app_assoc.
    + intros a Ha Hnin.
      assert (a ≠ unused g) as Hne.
      { intros ->. rewrite unused_lookup in Ha. by destruct Ha. }
      rewrite Hfr.
      * by apply Hframe1.
      * rewrite Hframe1 by done. done.
      * rewrite fmap_app. intros Hin. apply elem_of_app in Hin as [Hin|Hin]; [done|].
        simpl in Hin. by apply list_elem_of_singleton in Hin.
  - rewrite bind_mret_any.
    rewrite (bind_on_fst_Ok _ _ _ _ _ _ (next_Ok _ _ _ Hc)). cbn [_next].
    rewrite wrap_small by lia.
    destruct (IH (Some c.1) fuel g indices ics (at_ + 1) Hrest) as (g' & i' & ics' & Hrun & Hi' & Hv & Hfr);
      [lia|done|lia|lia|lia|].
    exists g', i', ics'. done.
Qed.

Lemma elem_of_positions (v : T) vs at_ i :
  i ∈ positions v vs at_ ↔ at_ ≤ i ∧ vs !! Z.to_nat (i - at_) = Some v.
Proof.
  revert at_. induction vs as [|x vs IH]; intros at_; simpl.
  { split; [intros Hin; by apply elem_of_nil in Hin|by intros [_ ?]]. }
  rewrite elem_of_app, IH. split.
  - intros [Hin|[Hle Hv]].
    + destruct (decide (x = v)) as [->|]; [|by apply elem_of_nil in Hin].
      apply list_elem_of_singleton in Hin as ->. split; [lia|].
      by rewrite Z.sub_diag.
    + split; [lia|].
      replace (Z.to_nat (i - at_)) with (S (Z.to_nat (i - (at_ + 1)))) by lia. done.
  - intros [Hle Hv]. destruct (decide (i = at_)) as [->|Hne].
    + left. rewrite Z.sub_diag in Hv. simpl in Hv. inversion Hv; subst x.
      rewrite decide_True by done. by apply list_elem_of_singleton.
    + right. split; [lia|].
      replace (Z.to_nat (i - at_)) with (S (Z.to_nat (i - (at_ + 1)))) in Hv by lia. done.
Qed.

(** X15: on a well-formed list, findAll(value) with enough fuel returns
    a new well-formed list of positions, in ascending order, that holds a
    position exactly when the value is there; the searched list and every
    list of positions that existed before are as they were. *)
Theorem findAll_spec h l cells fuel v g :
  is_list h l cells → (length cells ≤ fuel)%nat →
  ∃ g' r ics,
    findAll fuel l v (h, g) = Ok (r, (h, g')) ∧
    is_list g' r ics ∧
    ics.*2 = positions v cells.*2 0 ∧
    (∀ i, i ∈ ics.*2 ↔ 0 ≤ i ∧ cells.*2 !! Z.to_nat i = Some v) ∧
    (∀ a, is_Some (g !! a) → g' !! a = g !! a).
Proof.
  intros (_ & Hlen & Hb & Hhd & _ & Hd) Hfuel.
  destruct (findAll_loop_dseg h None cells fuel v g List_new [] 0 Hd Hfuel)
    as (g' & r & ics & Hrun & Hr & Hv & Hframe);
    [by apply is_list_nil_iff|lia|lia|simpl; lia|].
  exists g', r, ics. unfold findAll. rewrite Hhd. split; [done|]. split; [done|].
  split; [done|]. split.
  - intros i. rewrite Hv. simpl. rewrite elem_of_positions. by rewrite Z.sub_0_r.
  - intros a Ha. apply Hframe; [done|]. apply not_elem_of_nil.
Qed.
End all_positions.

Section search_witnesses.
Import Samples.

Lemma rfind_spec_witness :
  (∃ r, rfind 2 (list_of cells_de) 10 0 store_abc_de = Ok (r, store_abc_de) ∧
        (r ≠ NO_POS → cells_de.*2 !! Z.to_nat r = Some 10)) ∧
  rfind 2 (list_of cells_de) 10 2 store_abc_de = Ok (NO_POS, store_abc_de) ∧
  rfind 2 (list_of cells_de) 10 1 store_abc_de = Undefined.
Proof.
  destruct (rfind_spec store_abc_de (list_of cells_de) cells_de 2 10)
    as ((r & Hrun & _ & Hfound) & Hbeyond & Hskip); [exact de_is_list_both | simpl; lia |].
  split; [|split].
  - exists r. split; [exact Hrun|]. intros Hr. by destruct (Hfound Hr) as (_ & ? & _).
  - apply Hbeyond. simpl. lia.
  - apply Hskip. simpl. lia.
Defined.

Lemma findAll_spec_witness :
  ∃ g' r ics,
    findAll 3 (list_of cells_abc) 20 (store_of None cells_abc, ∅) =
      Ok (r, (store_of None cells_abc, g')) ∧
    is_list g' r ics ∧ ics.*2 = [1].
Proof.
  destruct (findAll_spec (store_of None cells_abc) (list_of cells_abc) cells_abc 3 20 ∅)
    as (g' & r & ics & Hrun & Hr & Hv & _); [exact abc_is_list | simpl; lia |].
  by exists g', r, ics.
Defined.
End search_witnesses.


(** Two lookups of one address that disagree. *)
Ltac clash H1 H2 := exfalso; pose proof (eq_trans (eq_sym H1) H2); done.

Section traversal.
Context {T : Type}.
Implicit Types (h : gmap positive (Node T)) (cells xs ys ks rs : list (addr * T)) (c : addr * T).

Lemma assignValue_Ok h p n v :
  h !! p = Some n → assignValue p v h = Ok (tt, <[p := mkNode v (_back n) (_next n)]> h).
Proof.
  intros E. unfold assignValue. rewrite (bind_Ok _ _ _ _ _ (load_Ok _ _ _ E)).
  by apply write_Ok with n.
Qed.

Lemma first_ptr_addresses xs ys d : xs.*1 = ys.*1 → first_ptr xs d = first_ptr ys d.
Proof. destruct xs, ys; simpl; congruence. Qed.

Lemma last_ptr_addresses xs ys d : xs.*1 = ys.*1 → last_ptr xs d = last_ptr ys d.
Proof.
  revert ys. induction xs as [|x xs IH] using rev_ind; intros ys E.
  - destruct ys; [done|]. by destruct ys.
  - destruct ys as [|y ys _] using rev_ind.
    + rewrite fmap_app in E. by destruct xs.
    + rewrite !fmap_app in E. simpl in E. apply app_inj_tail in E as [_ E].
      by rewrite !last_ptr_snoc, E.
Qed.

Lemma run_action_length {C} (action : T → C → T * C) vs ctx :
  length (run_action action vs ctx).1 = length vs.
Proof.
  revert ctx. induction vs as [|v vs IH]; intros ctx; [done|]. simpl.
  destruct (action v ctx) as [v' ctx'].
  specialize (IH ctx'). destruct (run_action action vs ctx') as [r ctx'']. simpl in *. lia.
Qed.

Lemma forEach_loop_dseg {C} h ks rs fuel (action : T → C → T * C) ctx :
  NoDup (ks ++ rs).*1 → dseg h None (ks ++ rs) None → (length rs ≤ fuel)%nat →
  ∃ h',
    forEach_loop fuel action ctx (first_ptr rs None) h =
      Ok ((run_action action rs.*2 ctx).2, h') ∧
    dseg h' None (ks ++ zip rs.*1 (run_action action rs.*2 ctx).1) None ∧
    (∀ a, a ∉ rs.*1 → h' !! a = h !! a).
Proof.
  revert h ks fuel ctx. induction rs as [|c rest IH]; intros h ks fuel ctx Hnd Hd Hf.
  { exists h. by destruct fuel. }
  destruct fuel as [|fuel]; [simpl in Hf; lia|].
  pose proof (dseg_middle _ _ _ _ _ _ Hd) as Hc.
  destruct (NoDup_middle _ _ _ Hnd) as (Hndk & Hndr & Hck & Hcr & Hkr).
  cbn [forEach_loop first_ptr]. rewrite fmap_cons. cbn [run_action].
  rewrite (bind_Ok _ _ _ _ _ (value_Ok _ _ _ Hc)). cbn [_value].
  destruct (action c.2 ctx) as [v' ctx'] eqn:Hact.
  rewrite (bind_Ok _ _ _ _ _ (assignValue_Ok _ _ _ v' Hc)). cbn [_back _next].
  set (h1 := <[c.1 := mkNode v' (last_ptr ks None) (first_ptr rest None)]> h).
  assert (h1 !! c.1 = Some (mkNode v' (last_ptr ks None) (first_ptr rest None))) as Hc1
    by apply lookup_insert_eq.
  rewrite (bind_Ok _ _ _ _ _ (next_Ok _ _ _ Hc1)). cbn [_next].
  destruct (IH h1 (ks ++ [(c.1, v')]) fuel ctx') as (h' & Hrun & Hd' & Hframe).
  - rewrite <- app_assoc. simpl. by rewrite !fmap_app, !fmap_cons in *.
  - rewrite <- app_assoc. simpl.
    apply dseg_app in Hd as [Hks [_ Hrest]].
    apply dseg_app. split; [|split].
    + apply dseg_insert_fresh; [done|]. done.
    + apply Hc1.
    + apply dseg_insert_fresh; [done|]. done.
  - simpl in Hf. lia.
  - exists h'. rewrite Hrun.
    destruct (run_action action rest.*2 ctx') as [r ctx''] eqn:Hr. simpl in *.
    split; [done|]. split.
    + by rewrite <- app_assoc in Hd'.
    + intros a Ha. apply not_elem_of_cons in Ha as [Hac Ha].
      rewrite Hframe by done. subst h1. by rewrite lookup_insert_ne.
Qed.

(** X16: on a well-formed list, forEach(action, ctx) with an action on a
    mutable element and a context visits every element once, front to
    back: with enough fuel it returns with each value replaced by what the
    action assigned to it and the context as the last call left it.  The
    list object, the nodes and their order are the same, and no node
    outside the list changes. *)
Theorem forEach_spec {C} h l cells fuel (action : T → C → T * C) ctx :
  is_list h l cells → (length cells ≤ fuel)%nat →
  ∃ h',
    forEach fuel action ctx l h = Ok ((run_action action cells.*2 ctx).2, h') ∧
    is_list h' l (zip cells.*1 (run_action action cells.*2 ctx).1) ∧
    (∀ a, a ∉ cells.*1 → h' !! a = h !! a).
Proof.
  intros (Hnd & Hlen & Hb & Hhd & Htl & Hd) Hfuel.
  destruct (forEach_loop_dseg h [] cells fuel action ctx Hnd Hd Hfuel)
    as (h' & Hrun & Hd' & Hframe).
  exists h'. unfold forEach. rewrite Hhd. split; [done|]. split; [|done].
  assert ((zip cells.*1 (run_action action cells.*2 ctx).1).*1 = cells.*1) as Haddr.
  { apply fst_zip. by rewrite run_action_length, !length_fmap. }
  split_is_list.
  - by rewrite Haddr.
  - rewrite Hlen. f_equal.
    by rewrite <- (length_fmap fst (zip _ _)), Haddr, length_fmap.
  - by rewrite <- (length_fmap fst (zip _ _)), Haddr, length_fmap.
  - rewrite Hhd. by apply first_ptr_addresses.
  - rewrite Htl. by apply last_ptr_addresses.
  - done.
Qed.

Lemma op_plus_assign_loop_dseg h pp src fuel l cells :
  dseg h pp src None → (length src ≤ fuel)%nat →
  is_list h l cells → (∀ a, a ∈ src.*1 → a ∉ cells.*1) →
  Z.of_nat (length cells + length src) < usize_modulus →
  ∃ h' l' new,
    op_plus_assign_loop fuel l (first_ptr src None) h = Ok (l', h') ∧
    is_list h' l' (cells ++ new) ∧
    new.*2 = src.*2 ∧
    (∀ a, a ∈ new.*1 → h !! a = None) ∧
    (∀ a, a ∉ cells.*1 → a ∉ new.*1 → h' !! a = h !! a).
Proof.
  revert h pp fuel l cells.
  induction src as [|c rest IH]; intros h pp fuel l cells Hd Hf Hl Hdisj Hroom.
  { exists h, l, []. destruct fuel; simpl; rewrite app_nil_r; split; try done;
      split; try done; split; try done; split; try done;
      intros a Ha; by apply elem_of_nil in Ha. }
  destruct fuel as [|fuel]; [simpl in Hf; lia|].
  destruct Hd as [Hc Hrest]. simpl in Hf, Hroom.
  cbn [op_plus_assign_loop first_ptr].
  rewrite (bind_Ok _ _ _ _ _ (value_Ok _ _ _ Hc)). cbn [_value].
  destruct (pushBack_is_list h l cells c.2 Hl) as (h1 & l1 & Hpush & Hl1 & Hframe1); [lia|].
  rewrite (bind_Ok _ _ _ _ _ Hpush).
  assert (∀ a, is_Some (h !! a) → a ≠ unused h) as Halloc.
  { intros a Ha ->. rewrite unused_lookup in Ha. by destruct Ha. }
  assert (h1 !! c.1 = h !! c.1) as Hc1.
  { apply Hframe1; [apply Halloc; by rewrite Hc|]. apply Hdisj. rewrite fmap_cons. by left. }
  rewrite Hc in Hc1.
  rewrite (bind_Ok _ _ _ _ _ (next_Ok _ _ _ Hc1)). cbn [_next].
  assert (∀ a, a ∈ rest.*1 → h1 !! a = h !! a) as Hsame.
  { intros a Ha. apply Hframe1.
    - apply Halloc. by eapply dseg_is_Some.
    - apply Hdisj. rewrite fmap_cons. by right. }
  destruct (IH h1 (Some c.1) fuel l1 (cells ++ [(unused h, c.2)]))
    as (h' & l' & new & Hrun & Hl' & Hvals & Hfresh & Hframe).
  - by apply (dseg_ext h).
  - lia.
  - done.
  - intros a Ha. rewrite fmap_app. intros Hin. apply elem_of_app in Hin as [Hin|Hin].
    + revert Hin. apply Hdisj. rewrite fmap_cons. by right.
    + simpl in Hin. apply list_elem_of_singleton in Hin as ->.
      eapply Halloc; [|done]. by eapply dseg_is_Some.
  - rewrite length_app. simpl. lia.
  - rewrite <- app_assoc in Hl'. simpl in Hl'.
    pose proof Hl' as (Hnd' & _). rewrite fmap_app, fmap_cons in Hnd'.
    apply NoDup_app in Hnd' as (_ & Hcn & Hndn). apply NoDup_cons in Hndn as [Hn_new _].
    exists h', l', ((unused h, c.2) :: new). split; [done|]. split; [done|]. split; [|split].
    + rewrite !fmap_cons. by rewrite Hvals.
    + intros a Ha. rewrite fmap_cons in Ha. apply elem_of_cons in Ha as [->|Ha].
      * apply unused_lookup.
      * rewrite <- Hframe1.
        -- by apply Hfresh.
        -- intros ->. done.
        -- intros Hin. apply (Hcn a Hin). rewrite elem_of_cons. by right.
    + intros a Ha Han. rewrite fmap_cons in Han. apply not_elem_of_cons in Han as [Hne Han].
      rewrite Hframe; [by apply Hframe1|..|done].
      rewrite fmap_app. intros Hin. apply elem_of_app in Hin as [Hin|Hin]; [done|].
      simpl in Hin. by apply list_elem_of_singleton in Hin.
Qed.

(** X17: for two well-formed lists that share no node, this += other
    with enough fuel returns; this list then holds its own cells followed
    by new nodes, at addresses that were not in use, with the values of
    other in order; other is as it was and no node outside this list
    changes. *)
Theorem op_plus_assign_spec h this other ct co fuel :
  is_list h this ct → is_list h other co →
  (∀ a, a ∈ co.*1 → a ∉ ct.*1) →
  (length co ≤ fuel)%nat →
  Z.of_nat (length ct + length co) < usize_modulus →
  ∃ h' this' new,
    op_plus_assign fuel this other h = Ok (this', h') ∧
    is_list h' this' (ct ++ new) ∧
    new.*2 = co.*2 ∧
    is_list h' other co ∧
    (∀ a, a ∈ new.*1 → h !! a = None) ∧
    (∀ a, a ∉ ct.*1 → a ∉ new.*1 → h' !! a = h !! a).
Proof.
  intros Ht Ho Hdisj Hfuel Hroom. pose proof Ho as (_ & _ & _ & Hhd & _ & Hd).
  destruct (op_plus_assign_loop_dseg h None co fuel this ct Hd Hfuel Ht Hdisj Hroom)
    as (h' & l' & new & Hrun & Hl' & Hvals & Hfresh & Hframe).
  exists h', l', new. unfold op_plus_assign. rewrite Hhd.
  split; [done|]. split; [done|]. split; [done|]. split; [|done].
  apply (is_list_ext h); [|done]. intros a Ha. apply Hframe; [by apply Hdisj|].
  intros Hin. apply Hfresh in Hin.
  destruct (dseg_is_Some _ _ _ _ _ Hd Ha) as [n Hn]. clash Hn Hin.
Qed.

(** X18: for two well-formed lists in one store (they may be the same
    list), this + other with enough fuel returns a new well-formed list
    whose values are those of this followed by those of other, in nodes at
    addresses that were not in use; both operands are as they were and no
    node that existed changes. *)
Theorem op_plus_spec h this other ct co fuel :
  is_list h this ct → is_list h other co →
  (length ct ≤ fuel)%nat → (length co ≤ fuel)%nat →
  Z.of_nat (length ct + length co) < usize_modulus →
  ∃ h' r new,
    op_plus fuel this other h = Ok (r, h') ∧
    is_list h' r new ∧
    new.*2 = ct.*2 ++ co.*2 ∧
    is_list h' this ct ∧ is_list h' other co ∧
    (∀ a, a ∈ new.*1 → h !! a = None) ∧
    (∀ a, a ∉ new.*1 → h' !! a = h !! a).
Proof.
  intros Ht Ho Hft Hfo Hroom.
  pose proof Ht as (_ & _ & _ & Hhdt & _ & Hdt).
  pose proof Ho as (_ & _ & _ & Hhdo & _ & Hdo).
  destruct (op_plus_assign_loop_dseg h None ct fuel List_new [] Hdt Hft)
    as (h1 & l1 & new1 & Hrun1 & Hl1 & Hv1 & Hfresh1 & Hframe1).
  { by apply is_list_nil_iff. }
  { intros a _. apply not_elem_of_nil. }
  { simpl. lia. }
  simpl in Hl1.
  assert (∀ a, is_Some (h !! a) → h1 !! a = h !! a) as Hold1.
  { intros a [n Hn]. apply Hframe1; [apply not_elem_of_nil|].
    intros Hin. apply Hfresh1 in Hin. clash Hn Hin. }
  assert (dseg h1 None co None) as Hdo1.
  { apply (dseg_ext h); [|done]. intros a Ha. apply Hold1. by eapply dseg_is_Some. }
  assert (length new1 = length ct) as Hlen1.
  { by rewrite <- (length_fmap snd new1), Hv1, length_fmap. }
  destruct (op_plus_assign_loop_dseg h1 None co fuel l1 new1 Hdo1 Hfo Hl1)
    as (h2 & l2 & new2 & Hrun2 & Hl2 & Hv2 & Hfresh2 & Hframe2).
  { intros a Ha Hin. apply Hfresh1 in Hin.
    destruct (dseg_is_Some _ _ _ _ _ Hdo Ha) as [n Hn]. clash Hn Hin. }
  { lia. }
  assert (∀ a, a ∈ (new1 ++ new2).*1 → h !! a = None) as Hfresh.
  { intros a Ha. rewrite fmap_app in Ha. apply elem_of_app in Ha as [Ha|Ha].
    - by apply Hfresh1.
    - destruct (h !! a) as [n|] eqn:Hn; [|done].
      assert (h1 !! a = Some n) as Hn1 by (rewrite Hold1; [done|by eexists]).
      apply Hfresh2 in Ha. clash Hn1 Ha. }
  assert (∀ a, a ∉ (new1 ++ new2).*1 → h2 !! a = h !! a) as Hframe.
  { intros a Ha. rewrite fmap_app in Ha. apply not_elem_of_app in Ha as [Ha1 Ha2].
    rewrite Hframe2 by done. apply Hframe1; [apply not_elem_of_nil|done]. }
  assert (∀ cells, dseg h None cells None → ∀ a, a ∈ cells.*1 → h2 !! a = h !! a) as Hkeep.
  { intros cells Hdc a Ha. apply Hframe. intros Hin. apply Hfresh in Hin.
    destruct (dseg_is_Some _ _ _ _ _ Hdc Ha) as [n Hn]. clash Hn Hin. }
  exists h2, l2, (new1 ++ new2). unfold op_plus. rewrite Hhdt, Hhdo.
  rewrite (bind_Ok _ _ _ _ _ Hrun1).
  split; [done|]. split; [done|]. split; [by rewrite fmap_app, Hv1, Hv2|].
  split; [by apply (is_list_ext h); [apply Hkeep|]|].
  split; [by apply (is_list_ext h); [apply Hkeep|]|]. done.
Qed.

Lemma self_append_running h l ks c rs fuel :
  is_list h l (ks ++ c :: rs) →
  Z.of_nat (length (ks ++ c :: rs) + fuel) < usize_modulus →
  op_plus_assign_loop fuel l (Some c.1) h = OutOfFuel.
Proof.
  revert h l ks c rs. induction fuel as [|fuel IH]; intros h l ks c rs Hl Hroom; [done|].
  pose proof Hl as (_ & _ & _ & _ & _ & Hd).
  pose proof (dseg_middle _ _ _ _ _ _ Hd) as Hc.
  cbn [op_plus_assign_loop].
  rewrite (bind_Ok _ _ _ _ _ (value_Ok _ _ _ Hc)). cbn [_value].
  destruct (pushBack_is_list h l _ c.2 Hl) as (h1 & l1 & Hpush & Hl1 & _); [lia|].
  rewrite (bind_Ok _ _ _ _ _ Hpush).
  rewrite <- app_assoc in Hl1. simpl in Hl1.
  pose proof Hl1 as (_ & _ & _ & _ & _ & Hd1).
  pose proof (dseg_middle _ _ _ _ _ _ Hd1) as Hc1.
  rewrite (bind_Ok _ _ _ _ _ (next_Ok _ _ _ Hc1)). cbn [_next].
  destruct rs as [|c' rs'].
  - simpl. apply (IH h1 l1 (ks ++ [c]) (unused h, c.2) []).
    + by rewrite <- app_assoc.
    + rewrite !length_app in *. simpl in *. lia.
  - simpl. apply (IH h1 l1 (ks ++ [c]) c' (rs' ++ [(unused h, c.2)])).
    + by rewrite <- app_assoc.
    + rewrite !length_app in *. simpl in *. rewrite length_app. simpl. lia.
Qed.

(** X19: appending a list to itself with += does not come to an end: on
    a well-formed list that is not empty the loop walks into the nodes it
    has just pushed, so for every bound on the number of pushes (as long
    as the length stays below 2^64) it is still running. *)
Theorem self_plus_assign_diverges h l cells fuel :
  is_list h l cells → cells ≠ [] →
  Z.of_nat (length cells + fuel) < usize_modulus →
  op_plus_assign fuel l l h = OutOfFuel.
Proof.
  intros Hl Hne Hroom. destruct cells as [|c rs]; [done|].
  pose proof Hl as (_ & _ & _ & Hhd & _). unfold op_plus_assign. rewrite Hhd.
  by apply (self_append_running h l [] c rs).
Qed.
End traversal.

Section traversal_witnesses.
Import Samples.

Lemma forEach_spec_witness :
  ∃ h',
    forEach 3 (λ v sum, (2 * v, sum + v)) 0 (list_of cells_abc) (store_of None cells_abc) =
      Ok (60, h') ∧
    is_list h' (list_of cells_abc) [(1%positive, 20); (2%positive, 40); (3%positive, 60)].
Proof.
  destruct (forEach_spec (store_of None cells_abc) (list_of cells_abc) cells_abc 3
              (λ v sum, (2 * v, sum + v)) 0)
    as (h' & Hrun & Hl & _); [exact abc_is_list | simpl; lia |].
  by exists h'.
Defined.

Lemma disjoint_de_abc : ∀ a, a ∈ cells_de.*1 → a ∉ cells_abc.*1.
Proof. intros a Ha Hin. revert Ha Hin. unfold cells_abc, cells_de. set_solver. Qed.

Lemma op_plus_assign_spec_witness :
  ∃ h' this' new,
    op_plus_assign 2 (list_of cells_abc) (list_of cells_de) store_abc_de = Ok (this', h') ∧
    is_list h' this' (cells_abc ++ new) ∧
    new.*2 = [30; 10] ∧
    is_list h' (list_of cells_de) cells_de.
Proof.
  destruct (op_plus_assign_spec store_abc_de (list_of cells_abc) (list_of cells_de)
              cells_abc cells_de 2)
    as (h' & this' & new & Hrun & Hl & Hv & Ho & _);
    [exact abc_is_list_both | exact de_is_list_both | exact disjoint_de_abc
    | simpl; lia | by vm_compute |].
  by exists h', this', new.
Defined.

Lemma op_plus_spec_witness :
  ∃ h' r new,
    op_plus 3 (list_of cells_abc) (list_of cells_de) store_abc_de = Ok (r, h') ∧
    is_list h' r new ∧
    new.*2 = [10; 20; 30; 30; 10] ∧
    is_list h' (list_of cells_abc) cells_abc ∧ is_list h' (list_of cells_de) cells_de.
Proof.
  destruct (op_plus_spec store_abc_de (list_of cells_abc) (list_of cells_de)
              cells_abc cells_de 3)
    as (h' & r & new & Hrun & Hl & Hv & Ht & Ho & _);
    [exact abc_is_list_both | exact de_is_list_both | simpl; lia | simpl; lia
    | by vm_compute |].
  by exists h', r, new.
Defined.

Lemma self_plus_assign_diverges_witness :
  op_plus_assign 100 (list_of cells_abc) (list_of cells_abc) (store_of None cells_abc) =
    OutOfFuel.
Proof.
  apply (self_plus_assign_diverges (store_of None cells_abc) (list_of cells_abc) cells_abc 100);
    [exact abc_is_list | done | by vm_compute].
Defined.
End traversal_witnesses.


Section adapters.
Context {T : Type}.
Implicit Types (h : gmap positive (Node T)) (cells xs ys : list (addr * T)) (c : addr * T).
Implicit Types (s : Stack.Stack) (q : Queue.Queue).

Lemma stack_pop_n_app n m s h (vs1 : list T) s1 h1 (vs2 : list T) s2 h2 :
  stack_pop_n n s h = Ok ((vs1, s1), h1) →
  stack_pop_n m s1 h1 = Ok ((vs2, s2), h2) →
  stack_pop_n (n + m) s h = Ok ((vs1 ++ vs2, s2), h2).
Proof.
  revert s h vs1. induction n as [|n IH]; intros s h vs1 Hn Hm.
  { simpl in Hn. inversion Hn; subst. done. }
  simpl in Hn |- *. unfold mbind, M_bind, bind in Hn |- *.
  destruct (Stack.pop s h) as [[[v s'] h']| | |]; try done.
  destruct (stack_pop_n n s' h') as [[[vs s''] h'']| | |] eqn:Hrec; try done.
  inversion Hn; subst. by rewrite (IH s' h' vs Hrec Hm).
Qed.

(** X20: a stack is last in, first out.  On a well-formed stack with
    room for the new elements, pushing values one after the other and then
    popping as many times returns them in the opposite order, and leaves
    the stack object and the whole store exactly as they were before the
    pushes. *)
Theorem stack_lifo h s cells vs :
  is_list h (Stack.container s) cells →
  Z.of_nat (length cells + length vs) < usize_modulus →
  ∃ h1 s1,
    stack_push_all s vs h = Ok (s1, h1) ∧
    stack_pop_n (length vs) s1 h1 = Ok ((rev vs, s), h).
Proof.
  revert h s cells. induction vs as [|v vs IH]; intros h s cells Hl Hroom.
  { by exists h, s. }
  simpl in Hroom.
  destruct (pushBack_popBack_restore h (Stack.container s) cells v Hl)
    as (h' & l' & Hpush & Hl' & Hpop); [lia|].
  destruct (IH h' (Stack.mkStack l') (cells ++ [(unused h, v)]) Hl')
    as (h1 & s1 & Hall & Hpops).
  { rewrite length_app. simpl. lia. }
  exists h1, s1. split.
  - simpl. unfold Stack.push. rewrite bind_assoc, (bind_Ok _ _ _ _ _ Hpush). exact Hall.
  - replace (length (v :: vs)) with (length vs + 1)%nat by (simpl; lia).
    simpl rev. apply (stack_pop_n_app _ _ _ _ _ _ _ _ _ _ Hpops).
    simpl. unfold Stack.pop. simpl. rewrite bind_assoc, (bind_Ok _ _ _ _ _ Hpop).
    by destruct s.
Qed.

Lemma queue_push_all_is_list h q cells vs :
  is_list h (Queue.container q) cells →
  Z.of_nat (length cells + length vs) < usize_modulus →
  ∃ h1 q1 new,
    queue_push_all q vs h = Ok (q1, h1) ∧
    is_list h1 (Queue.container q1) (cells ++ new) ∧ new.*2 = vs.
Proof.
  revert h q cells. induction vs as [|v vs IH]; intros h q cells Hl Hroom.
  { exists h, q, []. by rewrite app_nil_r. }
  simpl in Hroom.
  destruct (pushBack_is_list h (Queue.container q) cells v Hl) as (h' & l' & Hpush & Hl' & _);
    [lia|].
  destruct (IH h' (Queue.mkQueue l') (cells ++ [(unused h, v)]) Hl')
    as (h1 & q1 & new & Hall & Hl1 & Hv).
  { rewrite length_app. simpl. lia. }
  exists h1, q1, ((unused h, v) :: new). split; [|split].
  - simpl. unfold Queue.push. rewrite bind_assoc, (bind_Ok _ _ _ _ _ Hpush). exact Hall.
  - by rewrite <- app_assoc in Hl1.
  - by rewrite fmap_cons, Hv.
Qed.

Lemma queue_pop_n_is_list h q cells n :
  is_list h (Queue.container q) cells → (n ≤ length cells)%nat →
  ∃ h' q', queue_pop_n n q h = Ok (((take n cells).*2, q'), h') ∧
           is_list h' (Queue.container q') (drop n cells).
Proof.
  revert h q cells. induction n as [|n IH]; intros h q cells Hl Hn.
  { by exists h, q. }
  destruct cells as [|c ys]; [simpl in Hn; lia|].
  destruct (popFront_is_list h (Queue.container q) c ys Hl) as (h1 & l1 & Hpop & Hl1 & _).
  destruct (IH h1 (Queue.mkQueue l1) ys Hl1) as (h' & q' & Hrec & Hl'); [simpl in Hn; lia|].
  exists h', q'. split; [|done].
  cbn [queue_pop_n]. unfold Queue.pop, mbind, M_bind, bind, mret, M_ret, ret.
  rewrite Hpop. cbv beta iota. by rewrite Hrec.
Qed.

(** X21: a queue is first in, first out.  On a well-formed queue with
    room for the new elements, after pushing values one after the other,
    n calls of pop (n at most the number of elements) return the first n
    of the old elements followed by the pushed ones, in that order, and
    leave a well-formed queue of the others; popping all of them leaves
    the queue empty. *)
Theorem queue_fifo h q cells vs n :
  is_list h (Queue.container q) cells →
  Z.of_nat (length cells + length vs) < usize_modulus →
  (n ≤ length cells + length vs)%nat →
  ∃ h1 q1 h2 q2 rest,
    queue_push_all q vs h = Ok (q1, h1) ∧
    queue_pop_n n q1 h1 = Ok ((take n (cells.*2 ++ vs), q2), h2) ∧
    is_list h2 (Queue.container q2) rest ∧
    rest.*2 = drop n (cells.*2 ++ vs) ∧
    (n = (length cells + length vs)%nat → Queue.empty q2 = true).
Proof.
  intros Hl Hroom Hn.
  destruct (queue_push_all_is_list h q cells vs Hl Hroom) as (h1 & q1 & new & Hpush & Hl1 & Hv).
  assert (length new = length vs) as Hlen by (by rewrite <- Hv, length_fmap).
  destruct (queue_pop_n_is_list h1 q1 (cells ++ new) n Hl1) as (h2 & q2 & Hpop & Hl2).
  { rewrite length_app. lia. }
  exists h1, q1, h2, q2, (drop n (cells ++ new)).
  split; [done|]. split; [|split; [done|split]].
  - by rewrite Hpop, fmap_take, fmap_app, Hv.
  - by rewrite fmap_drop, fmap_app, Hv.
  - intros ->. rewrite drop_ge in Hl2 by (rewrite length_app; lia).
    apply is_list_nil_iff in Hl2. unfold Queue.empty. by rewrite Hl2.
Qed.

End adapters.

Section adapters_witnesses.
Import Samples.

Lemma stack_lifo_witness :
  ∃ h1 s1,
    stack_push_all (Stack.mkStack (list_of cells_abc)) [40; 50] (store_of None cells_abc) =
      Ok (s1, h1) ∧
    stack_pop_n 2 s1 h1 =
      Ok (([50; 40], Stack.mkStack (list_of cells_abc)), store_of None cells_abc).
Proof.
  apply (stack_lifo (store_of None cells_abc) (Stack.mkStack (list_of cells_abc)) cells_abc
           [40; 50]); [exact abc_is_list | by vm_compute].
Defined.

Lemma queue_fifo_witness :
  ∃ h1 q1 h2 q2 rest,
    queue_push_all (Queue.mkQueue (list_of cells_abc)) [40; 50] (store_of None cells_abc) =
      Ok (q1, h1) ∧
    queue_pop_n 4 q1 h1 = Ok (([10; 20; 30; 40], q2), h2) ∧
    is_list h2 (Queue.container q2) rest ∧
    rest.*2 = [50].
Proof.
  destruct (queue_fifo (store_of None cells_abc) (Queue.mkQueue (list_of cells_abc)) cells_abc
              [40; 50] 4)
    as (h1 & q1 & h2 & q2 & rest & Hpush & Hpop & Hl & Hv & _);
    [exact abc_is_list | by vm_compute | simpl; lia |].
  by exists h1, q1, h2, q2, rest.
Defined.

End adapters_witnesses.

Section stream_edges.
Import Streams.
Context {T : Type} `{Streamable T}.
Implicit Types (h : gmap positive (Node T)) (i : istream).

(** X24: operator>> on a stream in good state whose next character
    after white space is not an opening bracket, or that has no character
    left, sets failbit and leaves the list and the store as they are.  On
    an opening bracket followed by a closing one it consumes both and
    leaves the list as it is, without failbit. *)
Theorem stream_extract_edges i l h fuel :
  good i = true →
  ((∀ rest, skipws (buf i) ≠ "["%char :: rest) →
   ∃ i', stream_extract fuel i l h = Ok ((i', l), h) ∧ fail i' = true) ∧
  (∀ s rest, skipws (buf i) = "["%char :: s → skipws s = "]"%char :: rest →
     stream_extract fuel i l h = Ok ((mkIstream rest false false, l), h)).
Proof.
  intros Hgood. split.
  - intros Hno. unfold stream_extract, get_char. rewrite Hgood.
    destruct (skipws (buf i)) as [|ch rest] eqn:Hbuf.
    + eexists. simpl. split; reflexivity.
    + simpl. destruct (Ascii.eqb_spec ch "["%char) as [->|Hne].
      * by destruct (Hno rest).
      * eexists. simpl. split; reflexivity.
  - intros s rest Hopen Hclose. unfold stream_extract, get_char. rewrite Hgood, Hopen.
    simpl. by rewrite Hclose.
Qed.
End stream_edges.

Section stream_edges_witness.
Import Samples Streams.

Lemma stream_extract_edges_witness :
  (∃ i', stream_extract 3 (mkIstream [" "; "a"; "]"]%char false false)
           (list_of cells_chars) (store_of None cells_chars) =
         Ok ((i', list_of cells_chars), store_of None cells_chars) ∧ fail i' = true) ∧
  stream_extract 3 (mkIstream [" "; "["; " "; "]"; "x"]%char false false)
    (list_of cells_chars) (store_of None cells_chars) =
    Ok ((mkIstream ["x"]%char false false, list_of cells_chars), store_of None cells_chars).
Proof.
  split.
  - refine (proj1 (stream_extract_edges (mkIstream [" "; "a"; "]"]%char false false)
                     (list_of cells_chars) (store_of None cells_chars) 3 eq_refl) _).
    intros rest Hrest. by inversion Hrest.
  - exact (proj2 (stream_extract_edges (mkIstream [" "; "["; " "; "]"; "x"]%char false false)
                     (list_of cells_chars) (store_of None cells_chars) 3 eq_refl)
              _ _ eq_refl eq_refl).
Defined.
End stream_edges_witness.


Section nodes.
Context {T : Type}.
Implicit Types (h : gmap positive (Node T)) (cells xs ys us ws : list (addr * T)) (c : addr * T).

Lemma unlink_isolated h n v :
  h !! n = Some (mkNode v None None) → unlink n h = Ok (tt, h).
Proof.
  intros Hn.
  assert (∃ h', unlink n h = Ok (tt, h') ∧ h' = h) as (h' & Hrun & ->); [|done].
  eexists. split; [unfold unlink; mrun|].
  rewrite insert_insert_eq. by apply insert_id.
Qed.

(** X25: unlink() takes a node out of its chain: the nodes before and
    after it are linked to each other, the node itself is left with both
    pointers null, its value kept, and no node outside the chain changes.
    Unlinking it once more changes nothing. *)
Theorem unlink_spec h xs c ys :
  NoDup (xs ++ (c :: ys)).*1 →
  dseg h None (xs ++ c :: ys) None →
  ∃ h', unlink c.1 h = Ok (tt, h') ∧
        dseg h' None (xs ++ ys) None ∧
        h' !! c.1 = Some (mkNode c.2 None None) ∧
        (∀ a, a ∉ (xs ++ (c :: ys)).*1 → h' !! a = h !! a) ∧
        unlink c.1 h' = Ok (tt, h').
Proof.
  intros Hnd Hd.
  destruct (unlink_dseg h xs c ys Hnd Hd) as (h' & Hrun & Hd' & Hc & Hframe).
  exists h'. split; [done|]. split; [done|]. split; [done|]. split; [done|].
  by apply unlink_isolated with c.2.
Qed.

Lemma link_with_chain_node h xs c ys us n v ws :
  NoDup (xs ++ (c :: ys)).*1 → NoDup (us ++ ((n, v) :: ws)).*1 →
  (∀ a, a ∈ (xs ++ (c :: ys)).*1 → a ∉ (us ++ ((n, v) :: ws)).*1) →
  dseg h None (xs ++ c :: ys) None → dseg h None (us ++ (n, v) :: ws) None →
  ∃ h1, unlink n h = Ok (tt, h1) ∧ unlink n h1 = Ok (tt, h1) ∧
        n ≠ c.1 ∧ n ∉ (xs ++ (c :: ys)).*1 ∧
        h1 !! n = Some (mkNode v None None) ∧
        dseg h1 None (xs ++ c :: ys) None ∧
        dseg h1 None (us ++ ws) None ∧
        (∀ a, a ∈ (us ++ ws).*1 → a ∉ (xs ++ (c :: ys)).*1 ∧ a ≠ n) ∧
        (∀ a, a ∉ (us ++ ((n, v) :: ws)).*1 → h1 !! a = h !! a).
Proof.
  intros Hnd1 Hnd2 Hdisj Hd1 Hd2.
  destruct (unlink_dseg h us (n, v) ws Hnd2 Hd2) as (h1 & Hun & Hd2' & Hn & Hframe1).
  assert (n ∈ (us ++ ((n, v) :: ws)).*1) as Hn2.
  { rewrite fmap_app, fmap_cons. apply elem_of_app. right. by left. }
  assert (n ∉ (xs ++ (c :: ys)).*1) as Hn1 by (intros Hin; by apply (Hdisj n Hin)).
  exists h1. split; [done|]. split; [by apply unlink_isolated with v|].
  split; [|split; [done|split; [done|split; [|split; [done|split; [|done]]]]]].
  - intros ->. apply Hn1. rewrite fmap_app, fmap_cons. apply elem_of_app. right. by left.
  - apply (dseg_ext h); [|done]. intros a Ha. apply Hframe1. by apply Hdisj.
  - intros a Ha. destruct (NoDup_middle _ _ _ Hnd2) as (_ & _ & Hnu & Hnw & _).
    simpl in Hnu, Hnw. rewrite fmap_app in Ha. split.
    + intros Hin. apply (Hdisj a Hin). rewrite fmap_app, fmap_cons.
      apply elem_of_app in Ha as [Ha|Ha]; apply elem_of_app; [by left|right; by right].
    + intros ->. by apply elem_of_app in Ha as [Ha|Ha].
Qed.

(** X26: linkNext(other) and linkBack(other) move a node from one chain
    to another.  For a node of a first chain and a node other of a second
    chain that shares no node with the first, other leaves its chain,
    whose remaining nodes are linked to each other, and becomes the node
    right after (linkNext) or right before (linkBack) this node; no node
    outside the two chains changes.  With a null pointer or with the node
    itself both calls do nothing. *)
Theorem link_spec h xs c ys us n v ws :
  NoDup (xs ++ (c :: ys)).*1 → NoDup (us ++ ((n, v) :: ws)).*1 →
  (∀ a, a ∈ (xs ++ (c :: ys)).*1 → a ∉ (us ++ ((n, v) :: ws)).*1) →
  dseg h None (xs ++ c :: ys) None → dseg h None (us ++ (n, v) :: ws) None →
  (∃ h', linkNext c.1 (Some n) h = Ok (tt, h') ∧
         dseg h' None (xs ++ c :: (n, v) :: ys) None ∧
         dseg h' None (us ++ ws) None ∧
         (∀ a, a ∉ (xs ++ (c :: ys)).*1 → a ∉ (us ++ ((n, v) :: ws)).*1 →
               h' !! a = h !! a)) ∧
  (∃ h', linkBack c.1 (Some n) h = Ok (tt, h') ∧
         dseg h' None (xs ++ (n, v) :: c :: ys) None ∧
         dseg h' None (us ++ ws) None ∧
         (∀ a, a ∉ (xs ++ (c :: ys)).*1 → a ∉ (us ++ ((n, v) :: ws)).*1 →
               h' !! a = h !! a)) ∧
  linkNext c.1 None h = Ok (tt, h) ∧ linkNext c.1 (Some c.1) h = Ok (tt, h) ∧
  linkBack c.1 None h = Ok (tt, h) ∧ linkBack c.1 (Some c.1) h = Ok (tt, h).
Proof.
  intros Hnd1 Hnd2 Hdisj Hd1 Hd2.
  destruct (link_with_chain_node h xs c ys us n v ws Hnd1 Hnd2 Hdisj Hd1 Hd2)
    as (h1 & Hun & Hun1 & Hnc & Hn1 & Hn & Hd1' & Hd2' & Hrest & Hframe1).
  assert (n ∈ (us ++ ((n, v) :: ws)).*1) as Hn2.
  { rewrite fmap_app, fmap_cons. apply elem_of_app. right. by left. }
  split; [|split; [|split; [done|split; [|split; [done|]]]]].
  - destruct (linkNext_dseg h1 xs c ys n v Hnd1 Hd1' Hn1 Hn) as (h' & Hrun & Hd' & Hframe).
    exists h'. split; [|split; [done|split]].
    + rewrite <- Hrun. unfold linkNext. rewrite decide_False by done.
      by rewrite (bind_Ok _ _ _ _ _ Hun), (bind_Ok _ _ _ _ _ Hun1).
    + apply (dseg_ext h1); [|done]. intros a Ha. destruct (Hrest a Ha). by apply Hframe.
    + intros a Ha1 Ha2. rewrite Hframe; [by apply Hframe1|done|].
      intros ->. done.
  - destruct (linkBack_dseg h1 xs c ys n v Hnd1 Hd1' Hn1 Hn) as (h' & Hrun & Hd' & Hframe).
    exists h'. split; [|split; [done|split]].
    + rewrite <- Hrun. unfold linkBack. rewrite decide_False by done.
      by rewrite (bind_Ok _ _ _ _ _ Hun), (bind_Ok _ _ _ _ _ Hun1).
    + apply (dseg_ext h1); [|done]. intros a Ha. destruct (Hrest a Ha). by apply Hframe.
    + intros a Ha1 Ha2. rewrite Hframe; [by apply Hframe1|done|].
      intros ->. done.
  - unfold linkNext. by rewrite decide_True.
  - unfold linkBack. by rewrite decide_True.
Qed.

Lemma advance_loop_exact h pp cells :
  dseg h pp cells None →
  advance_loop (length cells) (first_ptr cells None) h = Ok (None, h).
Proof.
  revert pp. induction cells as [|c rest IH]; intros pp Hd; [done|].
  destruct Hd as [Hc Hrest]. simpl. mstep.
  rewrite (bind_Ok _ _ _ _ _ (next_Ok _ _ _ Hc)). cbn [_next]. by apply IH with (Some c.1).
Qed.

Lemma advance_loop_overshoot h pp cells n :
  dseg h pp cells None → (length cells < n)%nat →
  advance_loop n (first_ptr cells None) h = Undefined.
Proof.
  revert pp n. induction cells as [|c rest IH]; intros pp n Hd Hn.
  - destruct n; [simpl in Hn; lia|]. done.
  - destruct Hd as [Hc Hrest]. simpl in Hn. destruct n as [|n]; [lia|].
    simpl. mstep.
    rewrite (bind_Ok _ _ _ _ _ (next_Ok _ _ _ Hc)). cbn [_next].
    apply IH with (Some c.1); [done|lia].
Qed.

(** X27: the walks of a node along its chain.  From the node at
    position i of a chain of n nodes, operator+(k) returns the node at
    position i + k when there is one, the null pointer when i + k = n, and
    dereferences a null pointer when i + k > n; operator-(k) returns the
    node at position i - k when k <= i, the null pointer when k = i + 1,
    and dereferences a null pointer when k > i + 1.  The store is never
    changed. *)
Theorem node_walk_spec h cells i c (k : nat) :
  dseg h None cells None → cells !! i = Some c →
  ((∀ c', cells !! (i + k)%nat = Some c' → advance c.1 (Z.of_nat k) h = Ok (Some c'.1, h)) ∧
   ((i + k)%nat = length cells → advance c.1 (Z.of_nat k) h = Ok (None, h)) ∧
   ((length cells < i + k)%nat → advance c.1 (Z.of_nat k) h = Undefined)) ∧
  ((∀ c', (k ≤ i)%nat → cells !! (i - k)%nat = Some c' →
          retreat c.1 (Z.of_nat k) h = Ok (Some c'.1, h)) ∧
   (k = S i → retreat c.1 (Z.of_nat k) h = Ok (None, h)) ∧
   ((S i < k)%nat → retreat c.1 (Z.of_nat k) h = Undefined)).
Proof.
  intros Hd Hc. pose proof (lookup_lt_Some _ _ _ Hc) as Hi.
  unfold advance, retreat. rewrite Nat2Z.id. split.
  - (* forward, along the nodes from position i on *)
    pose proof (dseg_drop h cells i Hd) as Hsuf.
    assert (Some c.1 = first_ptr (drop i cells) None) as -> by by rewrite (drop_S _ _ _ Hc).
    split; [|split].
    + intros c' Hc'. eapply advance_loop_dseg; [exact Hsuf|]. by rewrite lookup_drop.
    + intros Hk. replace k with (length (drop i cells)) by (rewrite length_drop; lia).
      by eapply advance_loop_exact.
    + intros Hk. eapply advance_loop_overshoot; [exact Hsuf|]. rewrite length_drop. lia.
  - (* backward, along the nodes up to position i *)
    assert (dseg h None (take (S i) cells) (first_ptr (drop (S i) cells) None)) as Hpre.
    { rewrite <- (take_drop (S i) cells) in Hd at 1. by apply dseg_app in Hd as [Hd _]. }
    assert (take (S i) cells = take i cells ++ [c]) as Etake by by apply take_S_r.
    assert (length (take (S i) cells) = S i) as Hlen by (rewrite length_take; lia).
    assert (Some c.1 = last_ptr (take (S i) cells) None) as ->
      by by rewrite Etake, last_ptr_snoc.
    split; [|split].
    + intros c' Hk Hc'. eapply retreat_loop_dseg; [exact Hpre|].
      rewrite rev_lookup by lia. rewrite Hlen, lookup_take_lt by lia.
      by replace (S i - S k)%nat with (i - k)%nat by lia.
    + intros ->. rewrite <- Hlen at 1. by eapply retreat_loop_exact.
    + intros Hk. eapply retreat_loop_overshoot; [exact Hpre|]. lia.
Qed.
End nodes.

Section nodes_witnesses.
Import Samples.

Lemma dseg_abc_both : dseg store_abc_de None cells_abc None.
Proof. by destruct abc_is_list_both as (_ & _ & _ & _ & _ & Hd). Qed.

Lemma dseg_de_both : dseg store_abc_de None cells_de None.
Proof. by destruct de_is_list_both as (_ & _ & _ & _ & _ & Hd). Qed.

Lemma unlink_spec_witness :
  ∃ h', unlink 2%positive store_abc_de = Ok (tt, h') ∧
        dseg h' None [(1%positive, 10); (3%positive, 30)] None ∧
        h' !! 2%positive = Some (mkNode 20 None None).
Proof.
  destruct (unlink_spec store_abc_de [(1%positive, 10)] (2%positive, 20) [(3%positive, 30)])
    as (h' & Hrun & Hd & Hc & _); [exact NoDup_abc | exact dseg_abc_both |].
  by exists h'.
Defined.

Lemma link_spec_witness :
  (∃ h', linkNext 2%positive (Some 4%positive) store_abc_de = Ok (tt, h') ∧
         dseg h' None [(1%positive, 10); (2%positive, 20); (4%positive, 30); (3%positive, 30)]
           None ∧
         dseg h' None [(5%positive, 10)] None) ∧
  (∃ h', linkBack 2%positive (Some 4%positive) store_abc_de = Ok (tt, h') ∧
         dseg h' None [(1%positive, 10); (4%positive, 30); (2%positive, 20); (3%positive, 30)]
           None ∧
         dseg h' None [(5%positive, 10)] None).
Proof.
  destruct (link_spec store_abc_de [(1%positive, 10)] (2%positive, 20) [(3%positive, 30)]
              [] 4%positive 30 [(5%positive, 10)])
    as ((h1 & Hn1 & Hn2 & Hn3 & _) & (h2 & Hb1 & Hb2 & Hb3 & _) & _).
  - exact NoDup_abc.
  - exact NoDup_de.
  - intros a Ha Hin. revert Ha Hin. set_solver.
  - exact dseg_abc_both.
  - exact dseg_de_both.
  - split; [exists h1 | exists h2]; done.
Defined.

Lemma node_walk_spec_witness :
  advance 1%positive 2 (store_of None cells_abc) = Ok (Some 3%positive, store_of None cells_abc) ∧
  advance 1%positive 3 (store_of None cells_abc) = Ok (None, store_of None cells_abc) ∧
  advance 1%positive 4 (store_of None cells_abc) = Undefined ∧
  retreat 3%positive 2 (store_of None cells_abc) = Ok (Some 1%positive, store_of None cells_abc) ∧
  retreat 3%positive 4 (store_of None cells_abc) = Undefined.
Proof.
  assert (dseg (store_of None cells_abc) None cells_abc None) as Hd
    by by destruct abc_is_list as (_ & _ & _ & _ & _ & Hd).
  destruct (node_walk_spec (store_of None cells_abc) cells_abc 0 (1%positive, 10) 2 Hd eq_refl)
    as [(Hf2 & _) _].
  destruct (node_walk_spec (store_of None cells_abc) cells_abc 0 (1%positive, 10) 3 Hd eq_refl)
    as [(_ & Hf3 & _) _].
  destruct (node_walk_spec (store_of None cells_abc) cells_abc 0 (1%positive, 10) 4 Hd eq_refl)
    as [(_ & _ & Hf4) _].
  destruct (node_walk_spec (store_of None cells_abc) cells_abc 2 (3%positive, 30) 2 Hd eq_refl)
    as [_ (Hb2 & _)].
  destruct (node_walk_spec (store_of None cells_abc) cells_abc 2 (3%positive, 30) 4 Hd eq_refl)
    as [_ (_ & _ & Hb4)].
  split; [exact (Hf2 (3%positive, 30) eq_refl)|].
  split; [exact (Hf3 eq_refl)|].
  split; [apply Hf4; simpl; lia|].
  split; [apply (Hb2 (1%positive, 10)); [lia|done]|].
  apply Hb4. lia.
Defined.
End nodes_witnesses.


Section sliding_window.
Context {T R : Type}.
Implicit Types (h : gmap positive (Node T)) (g : gmap positive (Node R)).
Implicit Types (cells rs : list (addr * T)) (rc : list (addr * R)) (pre : list T).
Implicit Types (w : list (option T)).

Lemma initialized_Some (vs : list T) : initialized (Some <$> vs) = Some vs.
Proof. induction vs as [|v vs IH]; [done|]. rewrite fmap_cons. cbn [initialized]. by rewrite IH. Qed.

Lemma bind_fst_Ok {A B} (m : M (gmap positive (Node T)) A)
    (k : A → M (gmap positive (Node T) * gmap positive (Node R)) B) h g x h' :
  m h = Ok (x, h') → (on_fst m ≫= k) (h, g) = k x (h', g).
Proof. intros E. unfold mbind, M_bind, bind, on_fst. simpl. by rewrite E. Qed.

Lemma bind_snd_Ok {A B} (m : M (gmap positive (Node R)) A)
    (k : A → M (gmap positive (Node T) * gmap positive (Node R)) B) h g x g' :
  m g = Ok (x, g') → (on_snd m ≫= k) (h, g) = k x (h, g').
Proof. intros E. unfold mbind, M_bind, bind, on_snd. simpl. by rewrite E. Qed.

(** One round on the array: every element moves one place down and the
    new value takes the last place. *)
Lemma window_shift w (n : Z) v :
  0 < n < usize_modulus → length w = Z.to_nat n →
  length (if n >? 1 then drop 1 w ++ drop (Z.to_nat (n - 1)) w else w) = Z.to_nat n ∧
  <[Z.to_nat (wrap (n - 1)) := Some v]>
    (if n >? 1 then drop 1 w ++ drop (Z.to_nat (n - 1)) w else w) = drop 1 w ++ [Some v].
Proof.
  intros Hn Hlen. rewrite wrap_small by lia.
  destruct (Z.gtb_spec n 1) as [Hgt|Hle].
  - assert (length (drop (Z.to_nat (n - 1)) w) = 1%nat) as Hlast
      by (rewrite length_drop; lia).
    destruct (drop (Z.to_nat (n - 1)) w) as [|y [|? ?]] eqn:Hd; try done.
    split.
    + rewrite length_app, length_drop. simpl. lia.
    + replace (Z.to_nat (n - 1)) with (length (drop 1 w) + 0)%nat
        by (rewrite length_drop; lia).
      by rewrite insert_app_r.
  - assert (n = 1) as -> by lia. split; [done|].
    destruct w as [|y [|? ?]]; try done.
Qed.

Lemma windows_short (n : nat) pre : (length pre < n)%nat → windows n pre = [].
Proof.
  intros Hlt. unfold windows.
  by replace (length pre + 1 - n)%nat with 0%nat by lia.
Qed.

Lemma windows_snoc (n : nat) pre v :
  (1 ≤ n)%nat → (n ≤ length pre + 1)%nat →
  windows n (pre ++ [v]) = windows n pre ++ [drop (length pre + 1 - n) (pre ++ [v])].
Proof.
  intros Hn Hfull. unfold windows. rewrite length_app. simpl.
  replace (length pre + 1 + 1 - n)%nat with (S (length pre + 1 - n)) by lia.
  rewrite seq_S, map_app. simpl. f_equal.
  - apply map_ext_in. intros j Hj. apply in_seq in Hj.
    rewrite drop_app_le by lia. rewrite take_app_le; [done|].
    rewrite length_drop. lia.
  - f_equal. apply take_ge. rewrite length_drop, length_app. simpl. lia.
Qed.

Lemma windows_length (n : nat) pre : (1 ≤ n)%nat → (length (windows n pre) ≤ length pre)%nat.
Proof. intros Hn. unfold windows. rewrite length_map, length_seq. lia. Qed.

Lemma window_loop_dseg h pp rs fuel (action : list T → R) (n : Z) pre g res rc :
  dseg h pp rs None → (length rs ≤ fuel)%nat → 0 < n < usize_modulus →
  is_list g res rc → rc.*2 = map action (windows (Z.to_nat n) pre) →
  Z.of_nat (length pre + length rs) < usize_modulus →
  ∃ g' res' rc',
    window_loop fuel action n
      (drop (length pre) (replicate (Z.to_nat n) None ++ (Some <$> pre)))
      res (first_ptr rs None) (Z.of_nat (length pre)) (h, g) = Ok (res', (h, g')) ∧
    is_list g' res' rc' ∧
    rc'.*2 = map action (windows (Z.to_nat n) (pre ++ rs.*2)) ∧
    (∀ a, is_Some (g !! a) → a ∉ rc.*1 → g' !! a = g !! a).
Proof.
  revert pp fuel pre g res rc.
  induction rs as [|c rest IH]; intros pp fuel pre g res rc Hd Hf Hn Hres Hvals Hroom.
  { exists g, res, rc. destruct fuel; simpl; by rewrite app_nil_r. }
  destruct fuel as [|fuel]; [simpl in Hf; lia|].
  destruct Hd as [Hc Hrest]. simpl in Hf, Hroom.
  set (w := drop (length pre) (replicate (Z.to_nat n) None ++ (Some <$> pre))).
  assert (length w = Z.to_nat n) as Hw.
  { subst w. rewrite length_drop, length_app, length_replicate, length_fmap. lia. }
  destruct (window_shift w n c.2 Hn Hw) as [Hmoved Hshift].
  assert (drop 1 w ++ [Some c.2] =
          drop (length (pre ++ [c.2]))
            (replicate (Z.to_nat n) None ++ (Some <$> pre ++ [c.2]))) as Hnext.
  { subst w. rewrite drop_drop, fmap_app, app_assoc, length_app. simpl.
    symmetry. apply drop_app_le.
    rewrite length_app, length_replicate, length_fmap. lia. }
  cbn [window_loop first_ptr].
  destruct (Z.leb_spec (Z.of_nat (length (if n >? 1 then drop 1 w ++ drop (Z.to_nat (n - 1)) w
                                         else w))) (wrap (n - 1))) as [Hbad|_].
  { rewrite Hmoved, wrap_small in Hbad by lia. lia. }
  rewrite (bind_fst_Ok _ _ _ _ _ _ (value_Ok _ _ _ Hc)). cbn [_value].
  rewrite Hshift, Hnext. rewrite wrap_small by lia.
  replace (Z.of_nat (length pre) + 1) with (Z.of_nat (length (pre ++ [c.2])))
    by (rewrite length_app; simpl; lia).
  rewrite fmap_cons.
  replace (pre ++ c.2 :: rest.*2) with ((pre ++ [c.2]) ++ rest.*2)
    by (by rewrite <- app_assoc).
  destruct (Z.geb_spec (Z.of_nat (length (pre ++ [c.2]))) n) as [Hfull|Hshort].
  - rewrite length_app in Hfull. simpl in Hfull.
    assert (initialized (drop (length (pre ++ [c.2]))
              (replicate (Z.to_nat n) None ++ (Some <$> pre ++ [c.2]))) =
            Some (drop (length pre + 1 - Z.to_nat n) (pre ++ [c.2]))) as ->.
    { rewrite drop_app_ge; rewrite length_replicate, length_app; simpl; [|lia].
      by rewrite <- fmap_drop, initialized_Some. }
    pose proof (windows_length (Z.to_nat n) pre ltac:(lia)) as Hcount.
    assert (length rc = length (windows (Z.to_nat n) pre)) as Hrc.
    { by rewrite <- (length_fmap snd rc), Hvals, length_map. }
    destruct (pushBack_is_list g res rc
                (action (drop (length pre + 1 - Z.to_nat n) (pre ++ [c.2]))) Hres)
      as (g1 & res1 & Hpush & Hres1 & Hframe1); [lia|].
    rewrite (bind_snd_Ok _ _ _ _ _ _ Hpush).
    rewrite (bind_fst_Ok _ _ _ _ _ _ (next_Ok _ _ _ Hc)). cbn [_next].
    destruct (IH (Some c.1) fuel (pre ++ [c.2]) g1 res1
                (rc ++ [(unused g, action (drop (length pre + 1 - Z.to_nat n) (pre ++ [c.2])))])
                Hrest)
      as (g' & res' & rc' & Hrun & Hres' & Hvals' & Hframe); [lia|done|done|..].
    + rewrite fmap_app, Hvals, windows_snoc by lia. by rewrite map_app.
    + rewrite length_app. simpl. lia.
    + exists g', res', rc'. split; [done|]. split; [done|]. split; [done|].
      intros a Ha Hnin.
      assert (a ≠ unused g) as Hne.
      { intros ->. rewrite unused_lookup in Ha. by destruct Ha. }
      rewrite Hframe.
      * by apply Hframe1.
      * by rewrite Hframe1.
      * rewrite fmap_app. intros Hin. apply elem_of_app in Hin as [Hin|Hin]; [done|].
        simpl in Hin. by apply list_elem_of_singleton in Hin.
  - rewrite length_app in Hshort. simpl in Hshort.
    unfold mbind at 1, M_bind, bind at 1, mret, M_ret, ret. cbv beta iota.
    rewrite (bind_fst_Ok _ _ _ _ _ _ (next_Ok _ _ _ Hc)). cbn [_next].
    destruct (IH (Some c.1) fuel (pre ++ [c.2]) g res rc Hrest)
      as (g' & res' & rc' & Hrun & Hres' & Hvals' & Hframe); [lia|done|done|..].
    + rewrite Hvals. rewrite !windows_short; [done|rewrite length_app; simpl; lia|lia].
    + rewrite length_app. simpl. lia.
    + by exists g', res', rc'.
Qed.

(** X28: window(action, n) on a well-formed list, for a window size n
    from 1 on and with enough fuel, returns a new well-formed list that
    holds, first to last, the action's result on every run of n
    consecutive values of the list (none when the list is shorter than
    n); the list itself and every node that existed in the store of the
    results are as they were.  With n = 0 on a list that is not empty the
    first round assigns to window[n - 1], outside the array. *)
Theorem window_spec h l cells fuel (action : list T → R) (n : Z) g :
  is_list h l cells → (length cells ≤ fuel)%nat → 0 ≤ n < usize_modulus →
  (0 < n →
   ∃ g' r rc,
     window fuel action n l (h, g) = Ok (r, (h, g')) ∧
     is_list g' r rc ∧
     rc.*2 = map action (windows (Z.to_nat n) cells.*2) ∧
     (∀ a, is_Some (g !! a) → g' !! a = g !! a)) ∧
  (n = 0 → cells ≠ [] → window fuel action n l (h, g) = Undefined).
Proof.
  intros (_ & Hlen & Hb & Hhd & _ & Hd) Hfuel Hn. split.
  - intros Hpos.
    destruct (window_loop_dseg h None cells fuel action n [] g List_new [] Hd Hfuel)
      as (g' & r & rc & Hrun & Hr & Hv & Hframe).
    + lia.
    + by apply is_list_nil_iff.
    + rewrite windows_short; [done|simpl; lia].
    + simpl. lia.
    + exists g', r, rc. unfold window. rewrite Hhd.
      simpl in Hrun. rewrite app_nil_r in Hrun.
      split; [done|]. split; [done|]. split; [done|].
      intros a Ha. apply Hframe; [done|]. apply not_elem_of_nil.
  - intros -> Hne. destruct cells as [|c rest]; [done|].
    destruct fuel as [|fuel]; [simpl in Hfuel; lia|].
    unfold window. rewrite Hhd. done.
Qed.
End sliding_window.

Section sliding_window_witness.
Import Samples.

Lemma window_spec_witness :
  (∃ g' r rc,
     window 5 (foldr Z.add 0) 2 (list_of cells_12345) (store_of None cells_12345, ∅) =
       Ok (r, (store_of None cells_12345, g')) ∧
     is_list g' r rc ∧
     rc.*2 = [3; 5; 7; 9]) ∧
  window 5 (foldr Z.add 0) 0 (list_of cells_12345) (store_of None cells_12345, ∅) = Undefined.
Proof.
  assert (is_list (store_of None cells_12345) (list_of cells_12345) cells_12345) as Hl.
  { apply store_of_is_list; [by apply (bool_decide_unpack _) | by vm_compute]. }
  split.
  - destruct (window_spec (store_of None cells_12345) (list_of cells_12345) cells_12345 5
                (foldr Z.add 0) 2 ∅ Hl) as [Hok _]; [simpl; lia | by vm_compute |].
    destruct Hok as (g' & r & rc & Hrun & Hr & Hv & _); [lia|].
    by exists g', r, rc.
  - destruct (window_spec (store_of None cells_12345) (list_of cells_12345) cells_12345 5
                (foldr Z.add 0) 0 ∅ Hl) as [_ Hzero]; [simpl; lia | by vm_compute |].
    by apply Hzero.
Defined.
End sliding_window_witness.


Section reader.
Import Streams.
Context {T : Type} `{Streamable T}.
Implicit Types (h : gmap positive (Node T)) (cells : list (addr * T)) (i : istream).

Lemma stream_extract_loop_commas h l cells v vs x tl fuel :
  (∀ y, y ∈ v :: vs → ∀ s,
     get_value (mkIstream (put_value y ++ s) false false) = (Some y, mkIstream s false false)) →
  isspace x = false → x ≠ ","%char →
  is_list h l cells → (length (v :: vs) ≤ fuel)%nat →
  Z.of_nat (length cells + length (v :: vs)) < usize_modulus →
  ∃ h' l' new,
    stream_extract_loop fuel ","%char
      (mkIstream (put_value v ++ behind_commas vs (x :: tl)) false false) l h =
      Ok ((x, mkIstream tl false false, l'), h') ∧
    is_list h' l' (cells ++ new) ∧ new.*2 = v :: vs.
Proof.
  revert h l cells v fuel.
  induction vs as [|v' vs IH]; intros h l cells v fuel Hget Hx Hcomma Hl Hfuel Hroom.
  - destruct fuel as [|fuel]; [simpl in Hfuel; lia|]. simpl in Hroom.
    destruct (pushBack_is_list h l cells v Hl) as (h1 & l1 & Hpush & Hl1 & _); [lia|].
    exists h1, l1, [(unused h, v)]. split; [|done].
    cbn [stream_extract_loop behind_commas foldr].
    rewrite (Hget v); [|by left]. rewrite Ascii.eqb_refl.
    unfold get_char, good. cbn [eofbit failbit buf negb andb].
    rewrite (bind_Ok _ _ _ _ _ Hpush). rewrite skipws_plain by done.
    destruct fuel; cbn [stream_extract_loop];
      destruct (Ascii.eqb_spec x ","%char); done.
  - destruct fuel as [|fuel]; [simpl in Hfuel; lia|]. simpl in Hfuel, Hroom.
    destruct (pushBack_is_list h l cells v Hl) as (h1 & l1 & Hpush & Hl1 & _); [lia|].
    assert (∀ y, y ∈ v' :: vs → ∀ s,
              get_value (mkIstream (put_value y ++ s) false false) =
              (Some y, mkIstream s false false)) as Hget'.
    { intros y Hy. apply Hget. by right. }
    assert (Z.of_nat (length (cells ++ [(unused h, v)]) + length (v' :: vs)) < usize_modulus)
      as Hroom' by (rewrite length_app; simpl; lia).
    assert (length (v' :: vs) ≤ fuel)%nat as Hfuel' by (simpl; lia).
    destruct (IH h1 l1 (cells ++ [(unused h, v)]) v' fuel Hget' Hx Hcomma Hl1 Hfuel' Hroom')
      as (h' & l' & new & Hrun & Hl' & Hv).
    exists h', l', ((unused h, v) :: new). split; [|split].
    + cbn [stream_extract_loop behind_commas foldr].
      rewrite (Hget v); [|by left]. rewrite Ascii.eqb_refl.
      unfold get_char, good. cbn [eofbit failbit buf negb andb].
      rewrite (bind_Ok _ _ _ _ _ Hpush). rewrite skipws_plain by done. exact Hrun.
    + by rewrite <- app_assoc in Hl'.
    + by rewrite fmap_cons, Hv.
Qed.

(** X29: the text operator>> does read.  For an element type whose own
    operator>> reads back what its operator<< wrote, a stream in good
    state that holds an opening bracket, then every value with a comma in
    front of it, then a closing bracket and a second opening bracket, is
    read without failbit up to and including that second bracket, and the
    values are appended to the list in order. *)
Theorem stream_extract_accepts h l cells v vs rest fuel :
  (∀ y, y ∈ v :: vs → ∀ s,
     get_value (mkIstream (put_value y ++ s) false false) = (Some y, mkIstream s false false)) →
  is_list h l cells → (length (v :: vs) ≤ fuel)%nat →
  Z.of_nat (length cells + length (v :: vs)) < usize_modulus →
  ∃ h' l' new,
    stream_extract fuel
      (mkIstream ("["%char :: behind_commas (v :: vs) ("]"%char :: "["%char :: rest))
         false false) l h =
      Ok ((mkIstream rest false false, l'), h') ∧
    is_list h' l' (cells ++ new) ∧ new.*2 = v :: vs.
Proof.
  intros Hget Hl Hfuel Hroom.
  destruct (stream_extract_loop_commas h l cells v vs "]"%char ("["%char :: rest) fuel)
    as (h' & l' & new & Hrun & Hl' & Hv); try done.
  exists h', l', new. split; [|done].
  unfold stream_extract, get_char. simpl. rewrite (bind_Ok _ _ _ _ _ Hrun). done.
Qed.

(** X30: operator<< on a well-formed list, with enough fuel, appends to
    what the stream holds an opening bracket, the text of the values in
    order with a comma and a space between two of them, and a closing
    bracket (the two brackets alone for the empty list); it leaves the
    store as it is. *)
Theorem stream_insert_spec h l cells fuel out :
  is_list h l cells → (length cells ≤ fuel)%nat →
  stream_insert fuel out l h = Ok (out ++ render cells.*2, h) ∧
  (cells = [] → stream_insert fuel out l h = Ok (out ++ ["["; "]"]%char, h)).
Proof.
  intros Hl Hfuel.
  pose proof (stream_insert_is_list h l cells fuel out Hl Hfuel) as Hrun.
  split; [done|]. intros ->. exact Hrun.
Qed.
End reader.

Section reader_witness.
Import Samples Streams.

Lemma stream_extract_accepts_witness :
  ∃ h' l' new,
    stream_extract 2
      (mkIstream ["["; ","; "d"; ","; "e"; "]"; "["; "!"]%char false false)
      (list_of cells_chars) (store_of None cells_chars) =
      Ok ((mkIstream ["!"]%char false false, l'), h') ∧
    is_list h' l' (cells_chars ++ new) ∧ new.*2 = ["d"; "e"]%char.
Proof.
  refine (stream_extract_accepts (store_of None cells_chars) (list_of cells_chars) cells_chars
            "d"%char ["e"%char] ["!"%char] 2 _ _ _ _).
  - intros y Hy s.
    apply elem_of_cons in Hy as [->|Hy]; [done|].
    apply list_elem_of_singleton in Hy as ->. done.
  - exact chars_is_list.
  - simpl. lia.
  - by vm_compute.
Defined.

Lemma stream_insert_spec_witness :
  stream_insert 3 ["x"]%char (list_of cells_chars) (store_of None cells_chars) =
    Ok (["x"; "["; "a"; ","; " "; "b"; ","; " "; "c"; "]"]%char, store_of None cells_chars).
Proof.
  exact (proj1 (stream_insert_spec (store_of None cells_chars) (list_of cells_chars) cells_chars
                  3 ["x"]%char chars_is_list ltac:(simpl; lia))).
Defined.
End reader_witness.
